(** * tracker-budget: ledger consistency, reports, budgets and provisioning

    A shallow embedding of the data-handling code of the budget tracker
    (the screens' event handlers, without their rendering) and the
    properties of the specification checked against it.

    - [JS]: the JavaScript values and built-ins the handlers rely on.
      A JS [number] is an IEEE-754 binary64 value: it is modelled by Rocq's
      primitive [float], which is the same format with a single NaN.
    - [Supabase]: the remote store as the handlers see it: tables of rows,
      one request per [await], each request able to fail.
    - [AddTransaction], [Transactions], [Reports], [Budgets], [Auth],
      [SignUp], [TransactionList]: the handlers of the corresponding
      source files. *)

From Stdlib Require Import Floats ZArith List String Ascii Bool Lia DecimalString
  Permutation Zpower Sorted.
Import ListNotations.

#[local] Set Warnings "-inexact-float".

Local Open Scope string_scope.
Local Open Scope list_scope.

(** ** JavaScript values and built-ins *)

Module JS.

(** The [number] type. *)
Definition number := float.

(** [isNaN(x)] on a number. *)
Definition isNaN (x : number) : bool := PrimFloat.is_nan x.

(** Truthiness of a number, as tested by [||], [!] and [if]:
    [0], [-0] and [NaN] are falsy. *)
Definition truthy (x : number) : bool :=
  negb (PrimFloat.is_nan x || PrimFloat.is_zero x).

(** [x || d] on numbers. *)
Definition or_else (x d : number) : number := if truthy x then x else d.

(** Truthiness of a string: only the empty string is falsy. *)
Definition truthy_string (s : string) : bool :=
  match s with EmptyString => false | String _ _ => true end.

(** [s || d] on strings. *)
Definition or_else_string (s d : string) : string :=
  if truthy_string s then s else d.

(** [x >= y], false as soon as one side is NaN. *)
Definition ge (x y : number) : bool := PrimFloat.leb y x.

(** [x > y]. *)
Definition gt (x y : number) : bool := PrimFloat.ltb y x.

(** [x <= y]. *)
Definition le (x y : number) : bool := PrimFloat.leb x y.

(** [Math.min(x, y)]: NaN if either argument is NaN, and [-0] is
    smaller than [+0]. *)
Definition Math_min (x y : number) : number :=
  if PrimFloat.is_nan x || PrimFloat.is_nan y then PrimFloat.nan
  else if PrimFloat.ltb x y then x
  else if PrimFloat.ltb y x then y
  else if PrimFloat.get_sign x then x else y.

(** *** Strings

    A JS string is a sequence of UTF-16 code units. It is modelled by the
    byte string of its UTF-8 encoding, which is what a string literal of
    this file denotes. Emptiness, equality, concatenation, prefixes and
    the order of strings of ASCII characters are the same on both
    readings; the length is not. *)

(** The bytes [0x80] to [0xBF] continue the encoding of a character. *)
Definition is_continuation (c : ascii) : bool :=
  let n := nat_of_ascii c in Nat.leb 128 n && Nat.leb n 191.

Definition continues (s : string) : bool :=
  match s with
  | String c _ => is_continuation c
  | EmptyString => false
  end.

(** [s.length]: the number of UTF-16 code units of [s]. Every character
    counts for one unit, and for two when it is above U+FFFF, which is
    when its encoding starts with a byte from [0xF0]; the continuation
    bytes that follow start no character. (A byte from [0xF0] that
    nothing continues encodes no character: it counts for one.) *)
Fixpoint length (s : string) : nat :=
  match s with
  | String c rest =>
      (if is_continuation c then 0
       else if Nat.leb 240 (nat_of_ascii c) && continues rest then 2
       else 1) + length rest
  | EmptyString => 0
  end.

(** *** [parseFloat]

    [parseFloat(s)] skips leading white space and converts the longest
    prefix of the rest that is a decimal literal
    ([[+-] (Infinity | digits [. digits] | . digits) [e [+-] digits]]),
    rounding its value to the nearest binary64 number; it is NaN when no
    prefix is a literal. *)

(** The white space and the line terminators of one byte: U+0009 to
    U+000D and U+0020. *)
Definition is_white_space (c : ascii) : bool :=
  let n := nat_of_ascii c in
  (Nat.leb 9 n && Nat.leb n 13) || Nat.eqb n 32.

(** Of two bytes: U+00A0, the no-break space ([C2 A0]). *)
Definition is_white_space2 (c1 c2 : ascii) : bool :=
  Nat.eqb (nat_of_ascii c1) 194 && Nat.eqb (nat_of_ascii c2) 160.

(** Of three bytes: U+1680 ([E1 9A 80]), U+2000 to U+200A ([E2 80 80] to
    [E2 80 8A]), the line and paragraph separators U+2028 and U+2029
    ([E2 80 A8], [E2 80 A9]), U+202F ([E2 80 AF]), U+205F ([E2 81 9F]),
    U+3000 ([E3 80 80]) and the byte order mark U+FEFF ([EF BB BF]). *)
Definition is_white_space3 (c1 c2 c3 : ascii) : bool :=
  let n1 := nat_of_ascii c1 in
  let n2 := nat_of_ascii c2 in
  let n3 := nat_of_ascii c3 in
  (Nat.eqb n1 225 && Nat.eqb n2 154 && Nat.eqb n3 128)
  || (Nat.eqb n1 226 && Nat.eqb n2 128
      && ((Nat.leb 128 n3 && Nat.leb n3 138)
          || Nat.eqb n3 168 || Nat.eqb n3 169 || Nat.eqb n3 175))
  || (Nat.eqb n1 226 && Nat.eqb n2 129 && Nat.eqb n3 159)
  || (Nat.eqb n1 227 && Nat.eqb n2 128 && Nat.eqb n3 128)
  || (Nat.eqb n1 239 && Nat.eqb n2 187 && Nat.eqb n3 191).

Definition digit_of (c : ascii) : option Z :=
  let n := nat_of_ascii c in
  if Nat.leb 48 n && Nat.leb n 57 then Some (Z.of_nat (n - 48)) else None.

Fixpoint skip_white_space (s : string) : string :=
  match s with
  | String c1 rest1 =>
      if is_white_space c1 then skip_white_space rest1
      else
        match rest1 with
        | String c2 rest2 =>
            if is_white_space2 c1 c2 then skip_white_space rest2
            else
              match rest2 with
              | String c3 rest3 =>
                  if is_white_space3 c1 c2 c3 then skip_white_space rest3 else s
              | EmptyString => s
              end
        | EmptyString => s
        end
  | EmptyString => s
  end.

(** The digits at the front of [s], most significant first, and the rest. *)
Fixpoint span_digits (s : string) : list Z * string :=
  match s with
  | String c rest =>
      match digit_of c with
      | Some d => let '(ds, r) := span_digits rest in (d :: ds, r)
      | None => ([], s)
      end
  | EmptyString => ([], s)
  end.

Definition digits_value (ds : list Z) : Z :=
  fold_left (fun acc d => 10 * acc + d)%Z ds 0%Z.

(** An optional sign: [true] for [-]. *)
Definition take_sign (s : string) : bool * string :=
  match s with
  | String "-" rest => (true, rest)
  | String "+" rest => (false, rest)
  | _ => (false, s)
  end.

(** The exponent part, taken only when at least one digit follows. *)
Definition take_exponent (s : string) : Z :=
  match s with
  | String c rest =>
      if Ascii.eqb c "e" || Ascii.eqb c "E" then
        let '(neg, r) := take_sign rest in
        let '(ds, _) := span_digits r in
        match ds with
        | [] => 0%Z
        | _ => if neg then (- digits_value ds)%Z else digits_value ds
        end
      else 0%Z
  | EmptyString => 0%Z
  end.

(** The binary64 number nearest to [m * 10^k] (ties to even), [m >= 0]. *)
Definition round_decimal (neg : bool) (m k : Z) : number :=
  match m with
  | Zpos p =>
      let x :=
        if (0 <=? k)%Z then binary_normalize prec emax (m * 10 ^ k) 0 false
        else match (10 ^ (- k))%Z with
             | Zpos q => SFdiv prec emax (S754_finite false p 0) (S754_finite false q 0)
             | _ => S754_nan
             end in
      SF2Prim (if neg then SFopp x else x)
  | _ => if neg then PrimFloat.neg_zero else PrimFloat.zero
  end.

Definition parseFloat (s : string) : number :=
  let '(neg, r0) := take_sign (skip_white_space s) in
  if String.prefix "Infinity" r0 then
    (if neg then PrimFloat.neg_infinity else PrimFloat.infinity)
  else
    let '(ip, r1) := span_digits r0 in
    let '(fp, r2) :=
      match r1 with
      | String "." rest => span_digits rest
      | _ => ([], r1)
      end in
    match ip ++ fp with
    | [] => PrimFloat.nan
    | ds => round_decimal neg (digits_value ds)
              (take_exponent r2 - Z.of_nat (List.length fp))
    end.

End JS.

Import JS.
Local Open Scope float_scope.

(** ** The remote store

    Every data operation of the application is a request to the hosted
    database. The model keeps the tables the handlers touch as lists of
    rows, and runs a handler as a state transformer over a [World]: the
    tables, the requests issued so far, and the fate of the requests to
    come. Rows are the caller's own (the store scopes every request to the
    authenticated user). *)

Module Supabase.

Inductive TxType := income | expense.

Definition TxType_eqb (a b : TxType) : bool :=
  match a, b with
  | income, income | expense, expense => true
  | _, _ => false
  end.

Record AccountRow := {
  acc_id : string;
  acc_name : string;
  acc_balance : number;
  acc_is_active : bool }.

Record TransactionRow := {
  tx_id : string;
  tx_account_id : string;
  tx_category_id : option string;
  tx_amount : number;
  tx_type : TxType;
  tx_description : string;
  tx_date : string;
  tx_notes : string }.

Record ProfileRow := {
  prof_id : string;
  prof_full_name : string;
  prof_currency : string }.

Record CategoryRow := {
  cat_id : string;
  cat_user_id : string;
  cat_name : string;
  cat_type : TxType;
  cat_icon : string;
  cat_color : string;
  cat_is_system : bool }.

(** A category as the client sends it: the store generates the id. *)
Record NewCategory := {
  new_name : string;
  new_type : TxType;
  new_icon : string;
  new_color : string;
  new_is_system : bool;
  new_user_id : string }.

(** A transaction as the client sends it. *)
Record NewTransaction := {
  ins_account_id : string;
  ins_category_id : option string;
  ins_amount : number;
  ins_type : TxType;
  ins_description : string;
  ins_date : string;
  ins_notes : string }.

(** The requests a handler can issue, one per [await]. A filter on
    [undefined] is a request too (the store answers it with an error). *)
Inductive Request :=
| AuthSignUp (email password : string)
| InsertProfile (row : ProfileRow)
| InsertCategories (rows : list NewCategory)
| InsertTransaction (row : NewTransaction)
| SelectAccountBalance (id : option string)
| UpdateAccountBalance (id : option string) (balance : number)
| SelectTransactionAccount (id : string)
| DeleteTransaction (id : string)
| SelectTransactions.

(** [gen_random_uuid()] stands for a generator of ids; the ids it
    produces are named after their rank. That an id is new to a table is
    stated where it matters. *)
Definition uuid_of (n : nat) : string :=
  "uuid-" ++ NilEmpty.string_of_uint (Nat.to_uint n).

#[global] Arguments uuid_of : simpl never.

Record World := {
  accounts : list AccountRow;
  transactions : list TransactionRow;
  profiles : list ProfileRow;
  categories : list CategoryRow;
  (** How many ids the store has generated. *)
  uuid_count : nat;
  (** The fate of the coming requests, in order: [Some message] makes the
      request fail with that error, [None] lets it through; requests
      beyond the list go through. *)
  faults : list (option string);
  (** The requests issued so far, oldest first. *)
  log : list Request }.

(** A handler: a computation over the world. *)
Definition Remote (A : Type) : Type := World -> A * World.

Definition ret {A} (a : A) : Remote A := fun w => (a, w).

Definition bind {A B} (m : Remote A) (k : A -> Remote B) : Remote B :=
  fun w => let '(a, w') := m w in k a w'.

Declare Scope remote_scope.
Delimit Scope remote_scope with remote.
Notation "x <- m ;; k" := (bind m (fun x => k))
  (at level 100, m at next level, right associativity) : remote_scope.
Notation "m ;; k" := (bind m (fun _ => k))
  (at level 100, right associativity) : remote_scope.
Local Open Scope remote_scope.

Definition set_accounts (a : list AccountRow) (w : World) : World :=
  {| accounts := a; transactions := transactions w; profiles := profiles w;
     categories := categories w; uuid_count := uuid_count w;
     faults := faults w; log := log w |}.

Definition set_transactions (t : list TransactionRow) (w : World) : World :=
  {| accounts := accounts w; transactions := t; profiles := profiles w;
     categories := categories w; uuid_count := uuid_count w;
     faults := faults w; log := log w |}.

Definition set_profiles (p : list ProfileRow) (w : World) : World :=
  {| accounts := accounts w; transactions := transactions w; profiles := p;
     categories := categories w; uuid_count := uuid_count w;
     faults := faults w; log := log w |}.

Definition set_categories (c : list CategoryRow) (w : World) : World :=
  {| accounts := accounts w; transactions := transactions w; profiles := profiles w;
     categories := c; uuid_count := uuid_count w;
     faults := faults w; log := log w |}.

(** Issue a request: it is logged, and the next fault (if any) decides
    whether it fails. The answer is the error, [None] on success. *)
Definition request (r : Request) : Remote (option string) := fun w =>
  let '(fate, rest) :=
    match faults w with
    | f :: fs => (f, fs)
    | [] => (None, [])
    end in
  (fate,
   {| accounts := accounts w; transactions := transactions w; profiles := profiles w;
      categories := categories w; uuid_count := uuid_count w;
      faults := rest; log := log w ++ [r] |}).

(** [gen_random_uuid()]. *)
Definition fresh_uuid : Remote string := fun w =>
  (uuid_of (uuid_count w),
   {| accounts := accounts w; transactions := transactions w; profiles := profiles w;
      categories := categories w; uuid_count := S (uuid_count w);
      faults := faults w; log := log w |}).

Definition modify (f : World -> World) : Remote unit := fun w => (tt, f w).
Definition gets {A} (f : World -> A) : Remote A := fun w => (f w, w).

(** [.single()]: the row when exactly one matches, an error otherwise. *)
Definition single {A} (rows : list A) : option A :=
  match rows with
  | [r] => Some r
  | _ => None
  end.

(** [from('transactions').insert(row)]: the error of the request. *)
Definition insert_transaction (row : NewTransaction) : Remote (option string) :=
  err <- request (InsertTransaction row) ;;
  match err with
  | Some message => ret (Some message)
  | None =>
      id <- fresh_uuid ;;
      modify (fun w => set_transactions
        (transactions w ++
         [{| tx_id := id; tx_account_id := ins_account_id row;
             tx_category_id := ins_category_id row; tx_amount := ins_amount row;
             tx_type := ins_type row; tx_description := ins_description row;
             tx_date := ins_date row; tx_notes := ins_notes row |}]) w) ;;
      ret None
  end.

(** [from('accounts').select('balance').eq('id', id).single()]: the
    [data] of the answer, [None] for [null]. *)
Definition select_account_balance (id : option string) : Remote (option number) :=
  err <- request (SelectAccountBalance id) ;;
  match err, id with
  | None, Some i =>
      rows <- gets (fun w => filter (fun a => acc_id a =? i)%string (accounts w)) ;;
      ret (option_map acc_balance (single rows))
  | _, _ => ret None
  end.

Definition with_balance (b : number) (a : AccountRow) : AccountRow :=
  {| acc_id := acc_id a; acc_name := acc_name a; acc_balance := b;
     acc_is_active := acc_is_active a |}.

(** [from('accounts').update({ balance }).eq('id', id)]: the answer is
    not looked at by the handlers. *)
Definition update_account_balance (id : option string) (balance : number) : Remote unit :=
  err <- request (UpdateAccountBalance id balance) ;;
  match err, id with
  | None, Some i =>
      modify (fun w => set_accounts
        (map (fun a => if (acc_id a =? i)%string then with_balance balance a else a)
             (accounts w)) w)
  | _, _ => ret tt
  end.

(** [from('transactions').select('account_id').eq('id', id).single()],
    read as [.data?.account_id]. *)
Definition select_transaction_account (id : string) : Remote (option string) :=
  err <- request (SelectTransactionAccount id) ;;
  match err with
  | None =>
      rows <- gets (fun w => filter (fun t => tx_id t =? id)%string (transactions w)) ;;
      ret (option_map tx_account_id (single rows))
  | Some _ => ret None
  end.

(** [from('transactions').delete().eq('id', id)]. *)
Definition delete_transaction (id : string) : Remote unit :=
  err <- request (DeleteTransaction id) ;;
  match err with
  | None =>
      modify (fun w => set_transactions
        (filter (fun t => negb (tx_id t =? id)%string) (transactions w)) w)
  | Some _ => ret tt
  end.

(** [auth.signUp({ email, password })]: the answer's [data.user] (its
    id) and [error]. *)
Record AuthResponse := { user : option string; error : option string }.

Definition auth_signUp (email password : string) : Remote AuthResponse :=
  err <- request (AuthSignUp email password) ;;
  match err with
  | Some message => ret {| user := None; error := Some message |}
  | None => id <- fresh_uuid ;; ret {| user := Some id; error := None |}
  end.

(** [from('profiles').insert(row)]. *)
Definition insert_profile (row : ProfileRow) : Remote unit :=
  err <- request (InsertProfile row) ;;
  match err with
  | None => modify (fun w => set_profiles (profiles w ++ [row]) w)
  | Some _ => ret tt
  end.

Definition stored_category (id : string) (c : NewCategory) : CategoryRow :=
  {| cat_id := id; cat_user_id := new_user_id c; cat_name := new_name c;
     cat_type := new_type c; cat_icon := new_icon c; cat_color := new_color c;
     cat_is_system := new_is_system c |}.

Fixpoint store_categories (rows : list NewCategory) : Remote unit :=
  match rows with
  | [] => ret tt
  | c :: rest =>
      id <- fresh_uuid ;;
      modify (fun w => set_categories (categories w ++ [stored_category id c]) w) ;;
      store_categories rest
  end.

(** [from('categories').insert(rows)]: one request for all the rows. *)
Definition insert_categories (rows : list NewCategory) : Remote unit :=
  err <- request (InsertCategories rows) ;;
  match err with
  | None => store_categories rows
  | Some _ => ret tt
  end.

(** The balance stored for account [id], when the table has that row. *)
Definition balance_of (id : string) (w : World) : option number :=
  option_map acc_balance (find (fun a => acc_id a =? id)%string (accounts w)).

End Supabase.

Import Supabase.
Local Open Scope remote_scope.

(** ** Adding a transaction (app/add-transaction.tsx) *)

Module AddTransaction.

(** The [Account] and [Category] of the pickers. *)
Record Account := { id : string; name : string; type : string }.
Record Category := { cid : string; cname : string; ctype : string; color : string }.

(** The state of the form when the button is pressed. *)
Record Form := {
  f_type : TxType;
  f_amount : string;
  f_description : string;
  f_date : string;
  f_notes : string;
  f_selectedAccount : option Account;
  f_selectedCategory : option Category }.

(** What the handler leaves on the screen: an error message next to the
    form ([setError]), or the way back to the list ([router.back()]). *)
Inductive Outcome :=
| ShowError (message : string)
| NavigateBack.

(** [Number(data?.balance)] of an answer: NaN when there is no [data]. *)
Definition Number_of_balance (data : option number) : number :=
  match data with
  | Some balance => balance
  | None => PrimFloat.nan
  end.

Definition handleSubmit (f : Form) : Remote Outcome :=
  match f_selectedAccount f with
  | Some selectedAccount =>
      if negb (truthy_string (f_amount f)) || negb (truthy_string (f_description f))
      then ret (ShowError "Please fill in all required fields")
      else
        let amountNum := parseFloat (f_amount f) in
        if isNaN amountNum || le amountNum 0
        then ret (ShowError "Please enter a valid amount")
        else
          transactionError <- insert_transaction
            {| ins_account_id := id selectedAccount;
               ins_category_id := option_map cid (f_selectedCategory f);
               ins_amount := amountNum;
               ins_type := f_type f;
               ins_description := f_description f;
               ins_date := f_date f;
               ins_notes := f_notes f |} ;;
          match transactionError with
          | Some message => ret (ShowError message)
          | None =>
              data <- select_account_balance (Some (id selectedAccount)) ;;
              let newBalance :=
                match f_type f with
                | income => Number_of_balance data + amountNum
                | expense => Number_of_balance data - amountNum
                end in
              update_account_balance (Some (id selectedAccount)) newBalance ;;
              ret NavigateBack
          end
  | None => ret (ShowError "Please fill in all required fields")
  end.

(** The default of the date field and the shape its placeholder asks
    for: [YYYY-MM-DD]. The handler never looks at it. *)
Definition is_digit (c : ascii) : bool :=
  match digit_of c with Some _ => true | None => false end.

Definition date_shape (s : string) : bool :=
  match list_ascii_of_string s with
  | [y1; y2; y3; y4; d1; m1; m2; d2; a1; a2] =>
      forallb is_digit [y1; y2; y3; y4; m1; m2; a1; a2]
      && Ascii.eqb d1 "-" && Ascii.eqb d2 "-"
  | _ => false
  end.

End AddTransaction.

(** ** The list of transactions (app/(tabs)/transactions.tsx) *)

Module Transactions.

(** A [Transaction] of the list, as fetched; [category] and [account]
    are only rendered. *)
Record Transaction := {
  id : string;
  description : string;
  amount : number;
  type : TxType;
  date : string }.

Definition of_row (r : TransactionRow) : Transaction :=
  {| id := tx_id r; description := tx_description r; amount := tx_amount r;
     type := tx_type r; date := tx_date r |}.

(** [.order('date', { ascending: false }).order('created_at', { ascending: false })]:
    the latest date first and, on one date, the row created last first.
    The table is kept in the order its rows were created ([created_at] is
    the time of the insert, no handler sets it), and the store returns a
    [date] as [YYYY-MM-DD], on which the order of dates is the order of
    strings. A row goes after the rows of a later date and before all
    others. *)
Fixpoint insert_by_date (r : TransactionRow) (rows : list TransactionRow)
  : list TransactionRow :=
  match rows with
  | [] => [r]
  | r' :: rest =>
      if String.ltb (tx_date r) (tx_date r') then r' :: insert_by_date r rest
      else r :: rows
  end.

Definition order_by_date (rows : list TransactionRow) : list TransactionRow :=
  fold_left (fun sorted r => insert_by_date r sorted) rows [].

(** [fetchTransactions]: the new value of the screen's [transactions],
    [None] when the answer has no data (the state is then kept). *)
Definition fetchTransactions : Remote (option (list Transaction)) :=
  err <- request SelectTransactions ;;
  match err with
  | None => rows <- gets transactions ;; ret (Some (map of_row (order_by_date rows)))
  | Some _ => ret None
  end.

(** [handleDeleteTransaction(transactionId)], run with the screen's
    [transactions]; the result is what the final [fetchTransactions()]
    stores in the state. *)
Definition handleDeleteTransaction (transactions : list Transaction)
    (transactionId : string) : Remote (option (list Transaction)) :=
  match find (fun t => id t =? transactionId)%string transactions with
  | None => ret None
  | Some transaction =>
      account_id <- select_transaction_account transactionId ;;
      accountData <- select_account_balance account_id ;;
      match accountData with
      | Some balance =>
          let newBalance :=
            match type transaction with
            | income => balance - amount transaction
            | expense => balance + amount transaction
            end in
          account_id' <- select_transaction_account transactionId ;;
          update_account_balance account_id' newBalance
      | None => ret tt
      end ;;
      delete_transaction transactionId ;;
      fetchTransactions
  end.

End Transactions.

(** ** Reports (app/(tabs)/reports.tsx) *)

Module Reports.

(** A row of the first query: [amount, type, category:categories(name, color)]. *)
Record CategoryRef := { name : string; color : string }.

Record ReportTransaction := {
  amount : number;
  type : TxType;
  category : option CategoryRef }.

Record CategorySpending := {
  cs_category : string;
  cs_amount : number;
  cs_color : string;
  cs_percentage : number }.

(** An entry of [categoryMap]. The object is kept as the list of its own
    properties in creation order. *)
Record CategoryTotal := { ct_amount : number; ct_color : string }.

Definition CategoryMap := list (string * CategoryTotal).

(** The property names every object inherits from [Object.prototype]:
    read on [categoryMap], which starts as [{}], each of them gives a
    function, or the prototype itself for [__proto__]. *)
Definition inherited (k : string) : bool :=
  existsb (String.eqb k)
    ["constructor"; "hasOwnProperty"; "isPrototypeOf"; "propertyIsEnumerable";
     "toLocaleString"; "toString"; "valueOf"; "__proto__";
     "__defineGetter__"; "__defineSetter__"; "__lookupGetter__"; "__lookupSetter__"].

(** An array index: the decimal form, without leading zero, of an
    integer from 0 to 2^32 - 2. *)
Definition array_index (k : string) : option Z :=
  match span_digits k with
  | (d :: ds, EmptyString) =>
      match d, ds with
      | 0%Z, _ :: _ => None
      | _, _ =>
          let n := digits_value (d :: ds) in
          if (n <=? 4294967294)%Z then Some n else None
      end
  | _ => None
  end.

Definition is_array_index (k : string) : bool :=
  match array_index k with Some _ => true | None => false end.

(** The order in which [Object.keys] goes through the properties of an
    object: the array indices in ascending order, then the other names in
    the order of their creation. [Object_entries] gives every name with
    the value read at it. *)
Fixpoint insert_index {V} (n : Z) (e : string * V) (sorted : list (string * V))
  : list (string * V) :=
  match sorted with
  | [] => [e]
  | e' :: rest =>
      match array_index (fst e') with
      | Some n' => if (n' <? n)%Z then e' :: insert_index n e rest else e :: sorted
      | None => e :: sorted
      end
  end.

Definition Object_entries {V} (m : list (string * V)) : list (string * V) :=
  fold_right (fun e sorted =>
                match array_index (fst e) with
                | Some n => insert_index n e sorted
                | None => sorted
                end) [] m
  ++ filter (fun e => negb (is_array_index (fst e))) m.

Fixpoint get {V} (m : list (string * V)) (k : string) : option V :=
  match m with
  | [] => None
  | (k', v) :: rest => if (k' =? k)%string then Some v else get rest k
  end.

Fixpoint update {V} (m : list (string * V)) (k : string) (f : V -> V) : list (string * V) :=
  match m with
  | [] => []
  | (k', v) :: rest =>
      if (k' =? k)%string then (k', f v) :: rest else (k', v) :: update rest k f
  end.

(** [.filter(p).reduce((sum, t) => sum + Number(t.amount), 0)]. *)
Definition total (p : ReportTransaction -> bool) (transactions : list ReportTransaction) : number :=
  fold_left (fun sum t => sum + amount t) (filter p transactions) 0.

Definition is_income (t : ReportTransaction) : bool := TxType_eqb (type t) income.
Definition is_expense (t : ReportTransaction) : bool := TxType_eqb (type t) expense.

Definition has_category (t : ReportTransaction) : bool :=
  match category t with Some _ => true | None => false end.

(** The body of the [forEach] that fills [categoryMap]. Under a name of
    [Object.prototype], [categoryMap[catName]] is the inherited value,
    which is truthy: no property is created, and the amount is added to
    an [amount] of that value, not of [categoryMap]. *)
Definition add_to_category (categoryMap : CategoryMap) (t : ReportTransaction) : CategoryMap :=
  let catName :=
    or_else_string (match category t with Some c => name c | None => "" end)
                   "Uncategorized" in
  if inherited catName then categoryMap
  else
    let categoryMap :=
      match get categoryMap catName with
      | Some _ => categoryMap
      | None =>
          categoryMap ++
          [(catName,
            {| ct_amount := 0;
               ct_color := or_else_string
                 (match category t with Some c => color c | None => "" end)
                 "#6B7280" |})]
      end in
    update categoryMap catName
      (fun e => {| ct_amount := ct_amount e + amount t; ct_color := ct_color e |}).

Definition categoryMap_of (transactions : list ReportTransaction) : CategoryMap :=
  fold_left add_to_category
    (filter (fun t => is_expense t && has_category t) transactions) [].

(** [.sort((a, b) => b.amount - a.amount)]: the sort is stable, and [b]
    goes before [a] only when the difference is positive. *)
Fixpoint insert_sorted (a : CategorySpending) (l : list CategorySpending) : list CategorySpending :=
  match l with
  | [] => [a]
  | b :: rest =>
      if gt (cs_amount b - cs_amount a) 0 then b :: insert_sorted a rest
      else a :: l
  end.

Definition sort (l : list CategorySpending) : list CategorySpending :=
  fold_right insert_sorted [] l.

(** [Object.keys(categoryMap).map(...).sort(...)], [e] being
    [categoryMap[category]]. *)
Definition categoryArray_of (categoryMap : CategoryMap) (expense : number) : list CategorySpending :=
  sort (map (fun '(category, e) =>
               {| cs_category := category;
                  cs_amount := ct_amount e;
                  cs_color := ct_color e;
                  cs_percentage :=
                    if gt expense 0 then ct_amount e / expense * 100 else 0 |})
            (Object_entries categoryMap)).

(** What [fetchReportData] stores for the fetched [transactions]. *)
Record Report := {
  totalIncome : number;
  totalExpense : number;
  categorySpending : list CategorySpending }.

Definition fetchReportData (transactions : list ReportTransaction) : Report :=
  let income := total is_income transactions in
  let expense := total is_expense transactions in
  {| totalIncome := income;
     totalExpense := expense;
     categorySpending := categoryArray_of (categoryMap_of transactions) expense |}.

(** *** The monthly comparison of the year view *)

(** A [date] column: a calendar date, sent as [YYYY-MM-DD]. *)
Record PgDate := { year : Z; month : nat; day : nat }.

Record YearTransaction := {
  y_amount : number;
  y_type : TxType;
  y_date : PgDate }.

Record MonthlyData := {
  md_month : string;
  md_income : number;
  md_expense : number }.

Record MonthTotal := { mt_income : number; mt_expense : number }.

Definition months : list string :=
  ["Jan"; "Feb"; "Mar"; "Apr"; "May"; "Jun"; "Jul"; "Aug"; "Sep"; "Oct"; "Nov"; "Dec"].

(** [new Date(t.date).toLocaleDateString('en-US', { month: 'short' })].
    A date-only string denotes midnight UTC of that day, and the month
    is read off in the device's time zone: [utcOffset d] is the zone's
    offset from UTC in minutes at that instant (less than a day either
    way). West of UTC the local day is the day before. *)
Definition local_month (utcOffset : PgDate -> Z) (d : PgDate) : nat :=
  if (utcOffset d <? 0)%Z && Nat.eqb (day d) 1
  then (if Nat.eqb (month d) 1 then 12 else month d - 1)
  else month d.

Definition month_short (utcOffset : PgDate -> Z) (d : PgDate) : string :=
  nth (local_month utcOffset d - 1) months "Invalid Date".

(** The body of the [forEach] that fills [monthlyMap]. *)
Definition add_to_month (utcOffset : PgDate -> Z)
    (monthlyMap : list (string * MonthTotal)) (t : YearTransaction) : list (string * MonthTotal) :=
  let month := month_short utcOffset (y_date t) in
  let monthlyMap :=
    match get monthlyMap month with
    | Some _ => monthlyMap
    | None => monthlyMap ++ [(month, {| mt_income := 0; mt_expense := 0 |})]
    end in
  update monthlyMap month
    (fun e =>
       match y_type t with
       | income => {| mt_income := mt_income e + y_amount t; mt_expense := mt_expense e |}
       | expense => {| mt_income := mt_income e; mt_expense := mt_expense e + y_amount t |}
       end).

(** [monthlyArray] for the fetched [yearTransactions] ([None] when the
    answer has no data). *)
Definition monthlyArray (utcOffset : PgDate -> Z)
    (yearTransactions : option (list YearTransaction)) : list MonthlyData :=
  let monthlyMap :=
    match yearTransactions with
    | Some l => fold_left (add_to_month utcOffset) l []
    | None => []
    end in
  map (fun month =>
         {| md_month := month;
            md_income :=
              match get monthlyMap month with
              | Some e => or_else (mt_income e) 0
              | None => 0
              end;
            md_expense :=
              match get monthlyMap month with
              | Some e => or_else (mt_expense e) 0
              | None => 0
              end |})
      months.

(** *** The summary card *)

(** [savingsRate] is the text [x.toFixed(d)], written [RateText x d], or
    the number [0]. *)
Inductive Rate :=
| RateText (x : number) (fractionDigits : nat)
| RateNumber (n : number).

Definition netAmount (totalIncome totalExpense : number) : number :=
totalIncome - totalExpense.

Definition savingsRate (totalIncome totalExpense : number) : Rate :=
if gt totalIncome 0
then RateText (netAmount totalIncome totalExpense / totalIncome * 100) 1
else RateNumber 0.

End Reports.

(** ** Budgets (the budgets screen) *)

Module Budgets.

(** [transactions?.reduce((sum, t) => sum + Number(t.amount), 0) || 0]
    over the amounts fetched for the budget's category and period. *)
Definition spent_of (transactions : option (list number)) : number :=
  match transactions with
  | Some l => or_else (fold_left (fun sum a => sum + a) l 0) 0
  | None => 0
  end.

Definition getProgressPercentage (spent budget : number) : number :=
  Math_min (spent / budget * 100) 100.

Definition getProgressColor (percentage : number) : string :=
  if ge percentage 100 then "#EF4444"
  else if ge percentage 80 then "#F59E0B"
  else "#10B981".

(** The badge under the bar: [percentage >= 80 && (percentage >= 100 ?
    'Budget exceeded' : 'Almost there')]. *)
Definition warningText (percentage : number) : option string :=
  if ge percentage 80
  then Some (if ge percentage 100 then "Budget exceeded" else "Almost there")
  else None.

(** The status a card shows: red and "Budget exceeded", amber and
    "Almost there", or green and no badge. *)
Inductive Status := ok | warning | exceeded.

Definition status_of (percentage : number) : Status :=
  if ge percentage 100 then exceeded
  else if ge percentage 80 then warning
  else ok.

(** The card of a budget of ceiling [budget] with [spent] spent. *)
Definition status (spent budget : number) : Status :=
  status_of (getProgressPercentage spent budget).

End Budgets.

(** ** Signing up (contexts/AuthContext.tsx) *)

Module Auth.

Definition category (name : string) (type : TxType) (icon color : string)
    (user_id : string) : NewCategory :=
  {| new_name := name; new_type := type; new_icon := icon; new_color := color;
     new_is_system := true; new_user_id := user_id |}.

(** [defaultCategories.map(cat => ({ ...cat, user_id }))]. *)
Definition defaultCategories (user_id : string) : list NewCategory :=
  [ category "Salary" income "briefcase" "#10B981" user_id;
    category "Freelance" income "laptop" "#3B82F6" user_id;
    category "Food & Dining" expense "utensils" "#EF4444" user_id;
    category "Transportation" expense "car" "#F59E0B" user_id;
    category "Shopping" expense "shopping-bag" "#8B5CF6" user_id;
    category "Entertainment" expense "film" "#EC4899" user_id;
    category "Bills & Utilities" expense "receipt" "#6366F1" user_id;
    category "Healthcare" expense "heart" "#14B8A6" user_id ].

(** [signUp(email, password, fullName)]: the [error] it returns. *)
Definition signUp (email password fullName : string) : Remote (option string) :=
  r <- auth_signUp email password ;;
  match error r, user r with
  | None, Some user_id =>
      insert_profile {| prof_id := user_id; prof_full_name := fullName;
                        prof_currency := "USD" |} ;;
      insert_categories (defaultCategories user_id) ;;
      ret (error r)
  | _, _ => ret (error r)
  end.

End Auth.

(** ** The sign-up form (the sign-up screen) *)

Module SignUp.

(** What the handler leaves on the screen: an error message
    ([setError]), or the tabs ([router.replace('/(tabs)')]). *)
Inductive Outcome :=
| ShowError (message : string)
| ReplaceTabs.

Definition handleSignUp (fullName email password : string) : Remote Outcome :=
  if negb (truthy_string fullName) || negb (truthy_string email)
     || negb (truthy_string password)
  then ret (ShowError "Please fill in all fields")
  else if Nat.ltb (JS.length password) 6
  then ret (ShowError "Password must be at least 6 characters")
  else
    error <- Auth.signUp email password fullName ;;
    match error with
    | Some message => ret (ShowError message)
    | None => ret ReplaceTabs
    end.

End SignUp.

(** ** Searching and grouping the list (app/(tabs)/transactions.tsx) *)

Module TransactionList.

(** A [Transaction] of the list with what the search and the grouping
    read of it. *)
Record Transaction := {
  id : string;
  description : string;
  amount : number;
  type : TxType;
  date : string;
  category : option Reports.CategoryRef }.

(** The chips above the list: ['all' | 'income' | 'expense']. *)
Inductive FilterType :=
| All
| Only (t : TxType).

(** [s.includes(q)]: [q] occurs in [s]. *)
Fixpoint includes (s q : string) : bool :=
  String.prefix q s
  || match s with
     | String _ rest => includes rest q
     | EmptyString => false
     end.

(** The test of the search, [toLowerCase] being the case conversion of
    the platform. A transaction without category is searched by its
    description only ([t.category?.name...] is then [undefined]). *)
Definition matches (toLowerCase : string -> string) (searchQuery : string)
    (t : Transaction) : bool :=
  includes (toLowerCase (description t)) (toLowerCase searchQuery)
  || match category t with
     | Some c => includes (toLowerCase (Reports.name c)) (toLowerCase searchQuery)
     | None => false
     end.

(** [applyFilters]: the new value of [filteredTransactions]. *)
Definition applyFilters (toLowerCase : string -> string)
    (transactions : list Transaction) (searchQuery : string) (filterType : FilterType)
  : list Transaction :=
  let filtered := transactions in
  let filtered :=
    match filterType with
    | All => filtered
    | Only ty => filter (fun t => TxType_eqb (type t) ty) filtered
    end in
  let filtered :=
    if truthy_string searchQuery
    then filter (matches toLowerCase searchQuery) filtered
    else filtered in
  filtered.

(** [groupTransactionsByDate]. The object [grouped] is kept as the list
    of its properties in creation order, the order [Object.keys]
    follows; [dateKey] stands for [new Date(d).toLocaleDateString('en-US',
    { year: 'numeric', month: 'long', day: 'numeric' })], whose results
    ("March 1, 2024") are neither array indices nor names of
    [Object.prototype]. *)
Definition add_to_group (dateKey : string -> string)
    (grouped : list (string * list Transaction)) (transaction : Transaction)
  : list (string * list Transaction) :=
  let k := dateKey (date transaction) in
  let grouped :=
    match Reports.get grouped k with
    | Some _ => grouped
    | None => grouped ++ [(k, [])]
    end in
  Reports.update grouped k (fun g => g ++ [transaction]).

Definition groupTransactionsByDate (dateKey : string -> string)
    (filteredTransactions : list Transaction) : list (string * list Transaction) :=
  fold_left (add_to_group dateKey) filteredTransactions [].

End TransactionList.

(** * Statements

    The vocabulary of the properties below, and the sample data they are
    tried on. *)

(** ** Tables *)

(** The update of [update_account_balance], row by row. *)
Definition set_balance (i : string) (b : number) (a : AccountRow) : AccountRow :=
if (acc_id a =? i)%string then with_balance b a else a.

(** The reading of an account's balance that goes through: the table has
    exactly one row for the account, and its balance is [b]. *)
Definition account_balance_is (i : string) (b : number) (w : World) : Prop :=
option_map acc_balance
  (single (filter (fun a => acc_id a =? i)%string (accounts w))) = Some b.

(** No row of the ledger has the id [tid]. *)
Definition fresh_in (tid : string) (rows : list TransactionRow) : Prop :=
~ In tid (map tx_id rows).

(** ** Creating and deleting *)

(** The form passes the checks of [handleSubmit]. *)
Definition accepted (f : AddTransaction.Form) : Prop :=
AddTransaction.f_amount f <> "" /\ AddTransaction.f_description f <> "" /\
isNaN (parseFloat (AddTransaction.f_amount f)) = false /\
le (parseFloat (AddTransaction.f_amount f)) 0 = false.

(** The form fails one of the checks of [handleSubmit]. *)
Definition refused (f : AddTransaction.Form) : Prop :=
AddTransaction.f_amount f = "" \/ AddTransaction.f_description f = "" \/
AddTransaction.f_selectedAccount f = None \/
isNaN (parseFloat (AddTransaction.f_amount f)) = true \/
le (parseFloat (AddTransaction.f_amount f)) 0 = true.

(** The signed effect of a transaction on its account, and its inverse. *)
Definition apply_effect (t : TxType) (b amount : number) : number :=
match t with
| income => b + amount
| expense => b - amount
end.

Definition undo_effect (t : TxType) (b amount : number) : number :=
match t with
| income => b - amount
| expense => b + amount
end.

(** The value of a finite number in units of 2^-1074: every finite
    binary64 number is a whole number of them. *)
Definition SFunits (x : spec_float) : option Z :=
match x with
| S754_zero _ => Some 0%Z
| S754_finite s m e => Some (cond_Zopp s (Zpos m) * 2 ^ (e + 1074))%Z
| _ => None
end.

Definition units (x : number) : option Z := SFunits (Prim2SF x).

(** The arithmetic of a creation is exact: the balance and the amount are
    finite, the balance is not [-0], and the new balance has the value of
    their sum (for an expense, of their difference). *)
Definition exact_effect (t : TxType) (b amount : number) : Prop :=
Prim2SF b <> S754_zero true
/\ exists ub ua,
     units b = Some ub /\ units amount = Some ua
     /\ units (apply_effect t b amount)
        = Some (match t with income => ub + ua | expense => ub - ua end)%Z.

(** The row a form is sent as, and the row the store keeps. *)
Definition new_transaction (f : AddTransaction.Form) (account : AddTransaction.Account)
  : NewTransaction :=
{| ins_account_id := AddTransaction.id account;
   ins_category_id := option_map AddTransaction.cid (AddTransaction.f_selectedCategory f);
   ins_amount := parseFloat (AddTransaction.f_amount f);
   ins_type := AddTransaction.f_type f;
   ins_description := AddTransaction.f_description f;
   ins_date := AddTransaction.f_date f;
   ins_notes := AddTransaction.f_notes f |}.

Definition stored_transaction (tid : string) (r : NewTransaction) : TransactionRow :=
{| tx_id := tid; tx_account_id := ins_account_id r;
   tx_category_id := ins_category_id r; tx_amount := ins_amount r;
   tx_type := ins_type r; tx_description := ins_description r;
   tx_date := ins_date r; tx_notes := ins_notes r |}.

(** The world an accepted submission leaves when no request fails and the
    account's balance reads [b]. *)
Definition submitted (f : AddTransaction.Form) (account : AddTransaction.Account)
  (b : number) (w : World) : World :=
let amount := parseFloat (AddTransaction.f_amount f) in
let balance := apply_effect (AddTransaction.f_type f) b amount in
{| accounts := map (set_balance (AddTransaction.id account) balance) (accounts w);
   transactions :=
     transactions w ++
     [stored_transaction (uuid_of (uuid_count w)) (new_transaction f account)];
   profiles := profiles w;
   categories := categories w;
   uuid_count := S (uuid_count w);
   faults := [];
   log := log w ++ [InsertTransaction (new_transaction f account);
                    SelectAccountBalance (Some (AddTransaction.id account));
                    UpdateAccountBalance (Some (AddTransaction.id account)) balance] |}.

(** The world a deletion leaves when no request fails, the transaction is
    listed on the screen as [t], the ledger has it once, on the account
    [i], and the account's balance reads [b]. *)
Definition deleted (t : Transactions.Transaction) (i : string) (b : number) (w : World)
  : World :=
let tid := Transactions.id t in
let balance := undo_effect (Transactions.type t) b (Transactions.amount t) in
{| accounts := map (set_balance i balance) (accounts w);
   transactions := filter (fun r => negb (tx_id r =? tid)%string) (transactions w);
   profiles := profiles w;
   categories := categories w;
   uuid_count := uuid_count w;
   faults := [];
   log := log w ++ [SelectTransactionAccount tid;
                    SelectAccountBalance (Some i);
                    SelectTransactionAccount tid;
                    UpdateAccountBalance (Some i) balance;
                    DeleteTransaction tid;
                    SelectTransactions] |}.

(** Creating a transaction from the form, then opening the list and
    deleting the transaction just created. *)
Definition create_then_delete (f : AddTransaction.Form)
  : Remote (option (list Transactions.Transaction)) :=
created <- gets (fun w => uuid_of (uuid_count w)) ;;
AddTransaction.handleSubmit f ;;
listed <- Transactions.fetchTransactions ;;
Transactions.handleDeleteTransaction
  (match listed with Some l => l | None => [] end) created.

(** The first read of [handleDeleteTransaction]: the balance of the
    account that owns the transaction. *)
Definition read_owner_balance (tid : string) : Remote (option number) :=
account_id <- select_transaction_account tid ;;
select_account_balance account_id.

(** The fate of the [k]-th request to come. *)
Definition fate (k : nat) (w : World) : option string := nth k (faults w) None.

(** ** Reports *)

(** The sum of the percentages of the category breakdown, in its order. *)
Definition sum_percentages (r : Reports.Report) : number :=
fold_left (fun sum c => sum + Reports.cs_percentage c) (Reports.categorySpending r) 0.

(** The name of the group of a transaction with a category, and the
    expenses of the group named [k]. *)
Definition group_name (t : Reports.ReportTransaction) : string :=
or_else_string (match Reports.category t with Some c => Reports.name c | None => "" end)
  "Uncategorized".

Definition in_group (k : string) (t : Reports.ReportTransaction) : bool :=
Reports.is_expense t && Reports.has_category t && (group_name t =? k)%string.

Definition group_total (k : string) (l : list Reports.ReportTransaction) : number :=
fold_left (fun sum t => sum + Reports.amount t) (filter (in_group k) l) 0.

(** The transactions of type [ty] dated in month [m] (1 to 12), and their
    total, added up in the order fetched. *)
Definition in_month (ty : TxType) (m : nat) (t : Reports.YearTransaction) : bool :=
TxType_eqb (Reports.y_type t) ty && Nat.eqb (Reports.month (Reports.y_date t)) m.

Definition month_total (ty : TxType) (m : nat) (l : list Reports.YearTransaction) : number :=
fold_left (fun sum t => sum + Reports.y_amount t) (filter (in_month ty m) l) 0.

(** The key of a transaction in [monthlyMap], the entry a month starts
    with, and what one transaction adds to the entry of its month. *)
Definition month_key (utcOffset : Reports.PgDate -> Z) (t : Reports.YearTransaction) : string :=
Reports.month_short utcOffset (Reports.y_date t).

Definition zero_total : Reports.MonthTotal :=
{| Reports.mt_income := 0; Reports.mt_expense := 0 |}.

Definition add_to_total (e : Reports.MonthTotal) (t : Reports.YearTransaction)
  : Reports.MonthTotal :=
match Reports.y_type t with
| income => {| Reports.mt_income := Reports.mt_income e + Reports.y_amount t;
               Reports.mt_expense := Reports.mt_expense e |}
| expense => {| Reports.mt_income := Reports.mt_income e;
                Reports.mt_expense := Reports.mt_expense e + Reports.y_amount t |}
end.

(** The device is at or east of UTC on the date, and the date's month is
    one of the twelve. *)
Definition east_of_utc (utcOffset : Reports.PgDate -> Z) (t : Reports.YearTransaction) : Prop :=
(0 <= utcOffset (Reports.y_date t))%Z
/\ 1 <= Reports.month (Reports.y_date t) <= 12.

(** ** Budgets *)

(** A ceiling that is a positive number and not [Infinity]. *)
Definition finite_positive (x : number) : Prop :=
gt x 0 = true /\ gt infinity x = true.

(** The floats 1 and 100, and the floats just below them. *)
Definition SFone : spec_float := S754_finite false 4503599627370496 (-52).
Definition SFhundred : spec_float := S754_finite false 7036874417766400 (-46).
Definition SFbelow_one : spec_float := S754_finite false 9007199254740991 (-53).
Definition SFbelow_hundred : spec_float := S754_finite false 7036874417766399 (-46).

(** ** Sample data *)

Module Sample.

Definition checking : AccountRow :=
{| acc_id := "acc-1"; acc_name := "Checking"; acc_balance := 1000; acc_is_active := true |}.

Definition cash : AccountRow :=
{| acc_id := "acc-2"; acc_name := "Cash"; acc_balance := 35.5; acc_is_active := true |}.

Definition world : World :=
{| accounts := [checking; cash]; transactions := []; profiles := []; categories := [];
   uuid_count := 0; faults := []; log := [] |}.

(** The checking account with a balance in cents. *)
Definition world_cents : World :=
{| accounts := [with_balance 1000.10 checking; cash]; transactions := [];
   profiles := []; categories := []; uuid_count := 0; faults := []; log := [] |}.

Definition picked : AddTransaction.Account :=
{| AddTransaction.id := "acc-1"; AddTransaction.name := "Checking";
   AddTransaction.type := "checking" |}.

Definition form (t : TxType) (amount date : string) : AddTransaction.Form :=
{| AddTransaction.f_type := t;
   AddTransaction.f_amount := amount;
   AddTransaction.f_description := "Groceries";
   AddTransaction.f_date := date;
   AddTransaction.f_notes := "";
   AddTransaction.f_selectedAccount := Some picked;
   AddTransaction.f_selectedCategory := None |}.

(** The scenario of the specification: an expense of 50.00. *)
Definition expense_50 : AddTransaction.Form := form expense "50.00" "2024-03-01".

Definition income_50_20 : AddTransaction.Form := form income "50.20" "2024-03-01".

Definition bad_date : AddTransaction.Form := form expense "25" "next friday".

Definition decimal_comma : AddTransaction.Form := form expense "12,50" "2024-03-01".

(** The store refusing the next request. *)
Definition world_refusing (message : string) : World :=
{| accounts := [checking; cash]; transactions := []; profiles := []; categories := [];
   uuid_count := 0; faults := [Some message]; log := [] |}.

(** A ledger row whose account is gone, and the screen's view of it. *)
Definition orphan : TransactionRow :=
{| tx_id := "tx-9"; tx_account_id := "acc-7"; tx_category_id := None; tx_amount := 20;
   tx_type := expense; tx_description := "Taxi"; tx_date := "2024-02-11"; tx_notes := "" |}.

Definition world_orphan : World :=
{| accounts := [checking; cash]; transactions := [orphan]; profiles := [];
   categories := []; uuid_count := 0; faults := []; log := [] |}.

Definition food : Reports.CategoryRef :=
{| Reports.name := "Food"; Reports.color := "#EF4444" |}.

Definition spend (amount : number) (c : option Reports.CategoryRef) : Reports.ReportTransaction :=
{| Reports.amount := amount; Reports.type := expense; Reports.category := c |}.

Definition earn (amount : number) : Reports.ReportTransaction :=
{| Reports.amount := amount; Reports.type := income; Reports.category := None |}.

Definition on (t : TxType) (amount : number) (m d : nat) : Reports.YearTransaction :=
{| Reports.y_amount := amount; Reports.y_type := t;
   Reports.y_date := {| Reports.year := 2024; Reports.month := m; Reports.day := d |} |}.

(** Time zones: five hours west of UTC, and one hour east. *)
Definition new_york (_ : Reports.PgDate) : Z := (-300)%Z.
Definition paris (_ : Reports.PgDate) : Z := 60%Z.

Definition month_row (m : string) (i e : number) : Reports.MonthlyData :=
{| Reports.md_month := m; Reports.md_income := i; Reports.md_expense := e |}.

End Sample.

(** ** The sign-up form *)

(** The sign-up form passes the checks of [handleSignUp]. *)
Definition well_formed (fullName email password : string) : Prop :=
fullName <> "" /\ email <> "" /\ password <> "" /\ 6 <= JS.length password.

(** ** The list of transactions *)

(** The transaction passes the chip [filterType]. *)
Definition of_type (filterType : TransactionList.FilterType)
    (t : TransactionList.Transaction) : bool :=
match filterType with
| TransactionList.All => true
| TransactionList.Only ty => TxType_eqb (TransactionList.type t) ty
end.

(** [q] occurs in [s]: [s] is [q] between two strings. *)
Definition occurs_in (q s : string) : Prop :=
exists before after, s = (before ++ q ++ after)%string.

(** The transactions of a date key. *)
Definition on_date (dateKey : string -> string) (k : string)
    (t : TransactionList.Transaction) : bool :=
(dateKey (TransactionList.date t) =? k)%string.

(** Each string of the list once, in the order of first appearance. *)
Fixpoint first_seen (ks : list string) : list string :=
match ks with
| [] => []
| k :: rest => k :: filter (fun k' => negb (k' =? k)%string) (first_seen rest)
end.

(** The keys of the transactions of a list. *)
Definition date_keys (dateKey : string -> string) (l : list TransactionList.Transaction)
  : list string :=
map (fun t => dateKey (TransactionList.date t)) l.

(** ** Numbers *)

(** A finite number: neither NaN nor an infinity. *)
Definition finite_number (x : number) : Prop := units x <> None.

(** The breakdown lists [x] before [y] only if [x.amount >= y.amount]. *)
Definition by_amount (x y : Reports.CategorySpending) : Prop :=
ge (Reports.cs_amount x) (Reports.cs_amount y) = true.

(** A rounded value is a zero, an infinity or a finite float of the sign
    asked for: never NaN. *)
Definition shaped (s : bool) (x : spec_float) : Prop :=
match x with
| S754_zero s' | S754_infinity s' | S754_finite s' _ _ => s' = s
| S754_nan => False
end.

(** The ceiling is negative and finite. *)
Definition finite_negative (x : number) : Prop :=
gt 0 x = true /\ gt x neg_infinity = true.

(** The dates of the ledger have the form in which the store returns
    them, the one the form asks for. *)
Definition dated (rows : list TransactionRow) : Prop :=
Forall (fun r => AddTransaction.date_shape (tx_date r) = true) rows.

(** [r] is not of an earlier date than [r']; [t] is of a later date than
    [d]. *)
Definition by_date (r r' : TransactionRow) : Prop :=
String.ltb (tx_date r) (tx_date r') = false.

Definition later_than (d : string) (t : Transactions.Transaction) : bool :=
String.ltb d (Transactions.date t).

(** The transaction of the list that a form is stored and fetched as. *)
Definition listed_as (tid : string) (f : AddTransaction.Form) : Transactions.Transaction :=
{| Transactions.id := tid;
   Transactions.description := AddTransaction.f_description f;
   Transactions.amount := parseFloat (AddTransaction.f_amount f);
   Transactions.type := AddTransaction.f_type f;
   Transactions.date := AddTransaction.f_date f |}.

(** ** More sample data *)

Module Cases.

(** An expense of 20 on the checking account, in the ledger and on the
    screen. *)
Definition taxi_row : TransactionRow :=
{| tx_id := "tx-1"; tx_account_id := "acc-1"; tx_category_id := None; tx_amount := 20;
   tx_type := expense; tx_description := "Taxi"; tx_date := "2024-02-11"; tx_notes := "" |}.

Definition taxi : Transactions.Transaction := Transactions.of_row taxi_row.

(** Two later expenses, and a ledger with the three, in the order they
    were entered. *)
Definition coffee_row : TransactionRow :=
{| tx_id := "tx-2"; tx_account_id := "acc-1"; tx_category_id := None; tx_amount := 3.5;
   tx_type := expense; tx_description := "Coffee"; tx_date := "2024-03-01"; tx_notes := "" |}.

Definition dinner_row : TransactionRow :=
{| tx_id := "tx-3"; tx_account_id := "acc-1"; tx_category_id := None; tx_amount := 42;
   tx_type := expense; tx_description := "Dinner"; tx_date := "2024-03-05"; tx_notes := "" |}.

Definition coffee : Transactions.Transaction := Transactions.of_row coffee_row.
Definition dinner : Transactions.Transaction := Transactions.of_row dinner_row.

Definition world_three_dates : World :=
{| accounts := [Sample.checking; Sample.cash];
   transactions := [taxi_row; dinner_row; coffee_row];
   profiles := []; categories := []; uuid_count := 0; faults := []; log := [] |}.


(** The store lets two requests through and refuses the third. *)
Definition world_update_refused : World :=
{| accounts := [Sample.checking; Sample.cash]; transactions := []; profiles := [];
   categories := []; uuid_count := 0; faults := [None; None; Some "offline"]; log := [] |}.

(** An empty store that refuses the second request. *)
Definition world_profile_refused : World :=
{| accounts := []; transactions := []; profiles := []; categories := [];
   uuid_count := 0; faults := [None; Some "offline"]; log := [] |}.

Definition rent : Reports.CategoryRef :=
{| Reports.name := "Rent"; Reports.color := "#3B82F6" |}.

Definition expenses : list Reports.ReportTransaction :=
[Sample.spend 30 (Some Sample.food); Sample.spend 120 (Some rent);
 Sample.spend 12.5 (Some Sample.food)].

End Cases.

(** Running a handler: the requests are unfolded down to the tables. *)
Ltac run_remote :=
  cbv beta iota zeta delta
    [bind ret gets modify request fresh_uuid
     select_transaction_account select_account_balance update_account_balance
     delete_transaction insert_transaction auth_signUp insert_profile
     insert_categories store_categories Transactions.fetchTransactions
     set_accounts set_transactions set_profiles set_categories
     accounts transactions profiles categories uuid_count faults log
     user error fst snd option_map].

(** * Properties *)

(** ** JavaScript built-ins *)

Example parseFloat_50 : parseFloat "50.00" = 50. Proof. reflexivity. Qed.
Example parseFloat_tenth : parseFloat "0.1" = 0x1.999999999999ap-4. Proof. reflexivity. Qed.
Example parseFloat_prefix : parseFloat "  12.5abc" = 12.5. Proof. reflexivity. Qed.
Example parseFloat_comma : parseFloat "1,000.50" = 1. Proof. reflexivity. Qed.
Example parseFloat_nbsp : parseFloat (String "194" (String "160" "50")) = 50.
Proof. reflexivity. Qed.
Example parseFloat_bom : parseFloat (String "239" (String "187" (String "191" " 7"))) = 7.
Proof. reflexivity. Qed.
Example parseFloat_zero_width : isNaN (parseFloat (String "226" (String "128" (String "139" "7")))) = true.
Proof. reflexivity. Qed.
Example length_ascii : JS.length "secret" = 6%nat. Proof. reflexivity. Qed.
Example length_two_bytes :
  JS.length (String "112" (String "195" (String "164" "ssw"))) = 5%nat
  /\ String.length (String "112" (String "195" (String "164" "ssw"))) = 6%nat.
Proof. split; reflexivity. Qed.
Example length_four_bytes :
  JS.length (String "240" (String "159" (String "152" (String "128" "")))) = 2%nat.
Proof. reflexivity. Qed.
Example parseFloat_exp : parseFloat "1e3" = 1000. Proof. reflexivity. Qed.
Example parseFloat_dot : parseFloat ".5e-1x" = 0.05. Proof. vm_compute. reflexivity. Qed.
Example parseFloat_nan : isNaN (parseFloat "abc") = true. Proof. reflexivity. Qed.
Example parseFloat_empty : isNaN (parseFloat "") = true. Proof. reflexivity. Qed.
Example parseFloat_neg : parseFloat "-3" = -3. Proof. reflexivity. Qed.
Example parseFloat_big : parseFloat "123456789012345678901234567890" = 123456789012345678901234567890. Proof. reflexivity. Qed.
Example parseFloat_long : parseFloat "0.7999999999999999" = 0x1.9999999999999p-1. Proof. reflexivity. Qed.
Example parseFloat_over : parseFloat "1e400" = infinity. Proof. reflexivity. Qed.
Example parseFloat_under : parseFloat "1e-400" = 0. Proof. reflexivity. Qed.
Example parseFloat_max : parseFloat "1.7976931348623157e308" = 0x1.fffffffffffffp+1023. Proof. reflexivity. Qed.
Example parseFloat_sub : parseFloat "5e-324" = 0x1p-1074. Proof. reflexivity. Qed.
Example parseFloat_half : parseFloat "9007199254740993" = 9007199254740992. Proof. reflexivity. Qed.
Example parseFloat_half2 : parseFloat "9007199254740995" = 9007199254740996. Proof. reflexivity. Qed.

Example Math_min_clamps : Math_min 120 100 = 100.
Proof. reflexivity. Qed.

Example Math_min_signed_zero : Math_min 0 (-0) = (-0).
Proof. reflexivity. Qed.

(** ** Tables *)

Section Tables.

Implicit Types (rows : list AccountRow) (i j : string) (b : number).

Lemma set_balance_id i b a : acc_id (set_balance i b a) = acc_id a.
Proof. unfold set_balance. now destruct (acc_id a =? i)%string. Qed.

(** Updating the rows of [i] stores the new balance in them... *)
Lemma find_set_balance_same rows i b :
  (exists a, In a rows /\ acc_id a = i) ->
  option_map acc_balance
    (find (fun a => acc_id a =? i)%string (map (set_balance i b) rows)) = Some b.
Proof.
  induction rows as [|r rows IH]; intros [a [Hin Hid]]; [contradiction|].
  cbn [map find]. rewrite set_balance_id.
  destruct (acc_id r =? i)%string eqn:E.
  - unfold set_balance. now rewrite E.
  - destruct Hin as [->|Hin].
    + apply String.eqb_neq in E. contradiction.
    + apply IH. now exists a.
Qed.

(** ... and leaves the rows of every other account as they were. *)
Lemma find_set_balance_other rows i j b :
  j <> i ->
  find (fun a => acc_id a =? j)%string (map (set_balance i b) rows)
  = find (fun a => acc_id a =? j)%string rows.
Proof.
  intros Hne. induction rows as [|r rows IH]; [reflexivity|].
  cbn [map find]. rewrite set_balance_id.
  destruct (acc_id r =? j)%string eqn:E.
  - unfold set_balance. destruct (acc_id r =? i)%string eqn:E'; [|reflexivity].
    apply String.eqb_eq in E, E'. congruence.
  - exact IH.
Qed.

Lemma filter_set_balance rows i b :
  filter (fun a => acc_id a =? i)%string (map (set_balance i b) rows)
  = map (with_balance b) (filter (fun a => acc_id a =? i)%string rows).
Proof.
  induction rows as [|r rows IH]; [reflexivity|].
  cbn [map filter]. rewrite set_balance_id.
  destruct (acc_id r =? i)%string eqn:E; [|exact IH].
  cbn [map]. rewrite IH. unfold set_balance. now rewrite E.
Qed.

Lemma single_inv {A} (l : list A) (x : A) : single l = Some x -> l = [x].
Proof. destruct l as [|y [|z t]]; try discriminate. now intros [= ->]. Qed.

Lemma single_filter_In {A} (p : A -> bool) (l : list A) (x : A) :
  single (filter p l) = Some x -> In x l /\ p x = true.
Proof.
  intros H. apply filter_In. rewrite (single_inv _ _ H). now left.
Qed.

(** What [account_balance_is] says of the table. *)
Lemma account_balance_is_row i b w :
  account_balance_is i b w ->
  exists row, filter (fun a => acc_id a =? i)%string (accounts w) = [row]
              /\ acc_balance row = b /\ In row (accounts w) /\ acc_id row = i.
Proof.
  unfold account_balance_is. intros H.
  destruct (single _) as [row|] eqn:Hs; [|discriminate].
  injection H as H. exists row.
  pose proof (single_filter_In _ _ _ Hs) as [Hin Hid]. apply String.eqb_eq in Hid.
  repeat split; trivial. now apply single_inv.
Qed.

End Tables.

Section Ledger.

Implicit Types (rows : list TransactionRow) (tid : string).

Lemma fresh_in_cons tid r rows :
  fresh_in tid (r :: rows) -> (tx_id r =? tid)%string = false /\ fresh_in tid rows.
Proof.
  unfold fresh_in; cbn [map In]; intros H; split.
  - apply String.eqb_neq. intros E. apply H. now left.
  - intros Hin. apply H. now right.
Qed.

Lemma filter_fresh tid rows extra :
  fresh_in tid rows ->
  filter (fun t => tx_id t =? tid)%string (rows ++ extra)
  = filter (fun t => tx_id t =? tid)%string extra.
Proof.
  induction rows as [|r rows IH]; intros H; [reflexivity|].
  apply fresh_in_cons in H. destruct H as [E H].
  cbn [app filter]. rewrite E. now apply IH.
Qed.

Lemma filter_out_fresh tid rows extra :
  fresh_in tid rows ->
  filter (fun t => negb (tx_id t =? tid)%string) (rows ++ extra)
  = rows ++ filter (fun t => negb (tx_id t =? tid)%string) extra.
Proof.
  induction rows as [|r rows IH]; intros H; [reflexivity|].
  apply fresh_in_cons in H. destruct H as [E H].
  cbn [app filter]. rewrite E. cbn [negb]. f_equal. now apply IH.
Qed.

(** The list fetched is the table, rearranged: the row created last goes
    to its place among the rows created before. *)
Lemma order_by_date_last rows r :
  Transactions.order_by_date (rows ++ [r])
  = Transactions.insert_by_date r (Transactions.order_by_date rows).
Proof. unfold Transactions.order_by_date. now rewrite fold_left_app. Qed.

Lemma insert_by_date_perm r rows :
  Permutation (Transactions.insert_by_date r rows) (r :: rows).
Proof.
  induction rows as [|r' rows IH]; [reflexivity|]. cbn [Transactions.insert_by_date].
  destruct (String.ltb (tx_date r) (tx_date r')); [|reflexivity].
  rewrite IH. apply perm_swap.
Qed.

Lemma order_by_date_perm rows : Permutation (Transactions.order_by_date rows) rows.
Proof.
  induction rows as [|r rows IH] using rev_ind; [reflexivity|].
  rewrite order_by_date_last, insert_by_date_perm, IH.
  apply Permutation_cons_append.
Qed.

Lemma fresh_in_order_by_date tid rows :
  fresh_in tid rows -> fresh_in tid (Transactions.order_by_date rows).
Proof.
  unfold fresh_in. intros H Hin. apply H.
  eapply Permutation_in; [|exact Hin].
  apply Permutation_map, order_by_date_perm.
Qed.

Lemma find_insert_by_date tid r rows :
  fresh_in tid rows -> tx_id r = tid ->
  find (fun t => Transactions.id t =? tid)%string
       (map Transactions.of_row (Transactions.insert_by_date r rows))
  = Some (Transactions.of_row r).
Proof.
  intros H E. induction rows as [|r' rows IH]; cbn [Transactions.insert_by_date].
  - cbn. now rewrite E, String.eqb_refl.
  - apply fresh_in_cons in H. destruct H as [E' H].
    destruct (String.ltb (tx_date r) (tx_date r')).
    + cbn [map find Transactions.of_row Transactions.id]. rewrite E'. now apply IH.
    + cbn [map find Transactions.of_row Transactions.id]. now rewrite E, String.eqb_refl.
Qed.

Lemma find_listed_fresh tid rows r :
  fresh_in tid rows -> tx_id r = tid ->
  find (fun t => Transactions.id t =? tid)%string
       (map Transactions.of_row (Transactions.order_by_date (rows ++ [r])))
  = Some (Transactions.of_row r).
Proof.
  intros H E. rewrite order_by_date_last.
  apply find_insert_by_date; [now apply fresh_in_order_by_date | exact E].
Qed.

(** The order of strings, as far as the order of the list needs it. *)
Lemma ascii_compare_gt_trans (a b c : ascii) :
  Ascii.compare a b = Gt -> Ascii.compare b c = Gt -> Ascii.compare a c = Gt.
Proof.
  unfold Ascii.compare. rewrite !N.compare_gt_iff. intros H1 H2.
  now apply N.lt_trans with (N_of_ascii b).
Qed.

Lemma ascii_compare_eq (a b : ascii) : Ascii.compare a b = Eq -> a = b.
Proof.
  unfold Ascii.compare. intros H. apply N.compare_eq in H.
  rewrite <- (ascii_N_embedding a), <- (ascii_N_embedding b). now rewrite H.
Qed.

Lemma ltb_false_trans (a b c : string) :
  String.ltb a b = false -> String.ltb b c = false -> String.ltb a c = false.
Proof.
  unfold String.ltb. revert b c. induction a as [|x a IH]; intros [|y b] [|z c];
    cbn [String.compare]; try congruence.
  specialize (IH b c).
  destruct (Ascii.compare x y) eqn:Exy; try discriminate;
    destruct (Ascii.compare y z) eqn:Eyz; try discriminate; intros H1 H2.
  - apply ascii_compare_eq in Exy. subst y. rewrite Eyz. now apply IH.
  - apply ascii_compare_eq in Exy. subst y. now rewrite Eyz.
  - apply ascii_compare_eq in Eyz. subst z. now rewrite Exy.
  - now rewrite (ascii_compare_gt_trans _ _ _ Exy Eyz).
Qed.

Lemma ltb_true_false (a b : string) : String.ltb a b = true -> String.ltb b a = false.
Proof.
  unfold String.ltb. rewrite (String.compare_antisym a b).
  now destruct (String.compare b a).
Qed.

Lemma insert_by_date_sorted (r : TransactionRow) (rows : list TransactionRow) :
  StronglySorted by_date rows -> StronglySorted by_date (Transactions.insert_by_date r rows).
Proof.
  intros Hs. induction Hs as [|r' rows Hs IH Hr']; cbn [Transactions.insert_by_date].
  - repeat constructor.
  - destruct (String.ltb (tx_date r) (tx_date r')) eqn:E.
    + constructor; [exact IH|].
      rewrite (insert_by_date_perm r rows). constructor; [|exact Hr'].
      now apply ltb_true_false.
    + constructor; [now constructor|].
      constructor; [exact E|].
      eapply Forall_impl; [|exact Hr']. intros x Hx. unfold by_date in *.
      now apply ltb_false_trans with (tx_date r').
Qed.

Lemma order_by_date_sorted (rows : list TransactionRow) :
  StronglySorted by_date (Transactions.order_by_date rows).
Proof.
  induction rows as [|r rows IH] using rev_ind; [constructor|].
  rewrite order_by_date_last. now apply insert_by_date_sorted.
Qed.

(** A row goes after the rows of a later date and before the others. *)
Lemma insert_by_date_place (r : TransactionRow) (rows : list TransactionRow) :
  StronglySorted by_date rows ->
  exists later others,
    rows = later ++ others
    /\ Transactions.insert_by_date r rows = later ++ r :: others
    /\ Forall (fun r' => String.ltb (tx_date r) (tx_date r') = true) later
    /\ Forall (fun r' => String.ltb (tx_date r) (tx_date r') = false) others.
Proof.
  intros Hs. induction Hs as [|r' rows Hs IH Hr']; cbn [Transactions.insert_by_date].
  - exists [], []. repeat split; constructor.
  - destruct (String.ltb (tx_date r) (tx_date r')) eqn:E.
    + destruct IH as (later & others & H1 & H2 & H3 & H4).
      exists (r' :: later), others. cbn [app]. rewrite H2, <- H1.
      repeat split; [now constructor | exact H4].
    + exists [], (r' :: rows). repeat split; [constructor|].
      constructor; [exact E|].
      eapply Forall_impl; [|exact Hr']. intros x Hx. unfold by_date in *.
      now apply ltb_false_trans with (tx_date r').
Qed.

End Ledger.

(** ** Sums and differences that are exact

    Rounding is specified on [spec_float] ([binary_round]). A value that a
    float of the format has is rounded to that float: so what was added
    exactly can be taken away again. *)

Section ExactRounding.

Local Open Scope Z_scope.

Lemma digits2_pos_size (p : positive) : digits2_pos p = Pos.size p.
Proof. induction p; cbn; congruence. Qed.

Lemma digits2_pos_log2 (p : positive) : Zpos (digits2_pos p) = Z.log2 (Zpos p) + 1.
Proof.
  rewrite digits2_pos_size. destruct p; cbn; try reflexivity; lia.
Qed.

(** Numbers of equal value have the same magnitude. *)
Lemma same_value_same_magnitude (t m : positive) (e' e : Z) :
  0 <= e' -> 0 <= e ->
  Zpos t * 2 ^ e' = Zpos m * 2 ^ e ->
  Zpos (digits2_pos t) + e' = Zpos (digits2_pos m) + e.
Proof.
  intros He' He H. rewrite !digits2_pos_log2.
  apply (f_equal Z.log2) in H.
  rewrite !Z.log2_mul_pow2 in H by lia. lia.
Qed.

Lemma iter_pos_nat {A} (f : A -> A) (p : positive) (x : A) :
  SpecFloat.iter_pos f p x = Nat.iter (Pos.to_nat p) f x.
Proof.
  revert x. induction p as [p IH|p IH|]; intros x; cbn [SpecFloat.iter_pos].
  - rewrite !IH, Pos2Nat.inj_xI.
    replace (S (2 * Pos.to_nat p))%nat
      with (Pos.to_nat p + (Pos.to_nat p + 1))%nat by lia.
    now rewrite !Nat.iter_add.
  - rewrite !IH, Pos2Nat.inj_xO.
    replace (2 * Pos.to_nat p)%nat with (Pos.to_nat p + Pos.to_nat p)%nat by lia.
    now rewrite Nat.iter_add.
  - reflexivity.
Qed.

(** Shifting out zeros is exact. *)
Lemma shr_exact_nat (n : nat) (t m : positive) :
  Zpos t = Zpos m * 2 ^ Z.of_nat n ->
  Nat.iter n shr_1 (Build_shr_record (Zpos t) false false)
  = Build_shr_record (Zpos m) false false.
Proof.
  revert m. induction n as [|n IH]; intros m H.
  - change (2 ^ Z.of_nat 0) with 1 in H. rewrite Z.mul_1_r in H. now injection H as ->.
  - rewrite Nat.iter_succ, (IH (m~0)%positive).
    + reflexivity.
    + rewrite H, Nat2Z.inj_succ, Z.pow_succ_r by lia. lia.
Qed.

Lemma shr_exact (k : positive) (t m : positive) (e : Z) :
  Zpos t = Zpos m * 2 ^ Zpos k ->
  shr (Build_shr_record (Zpos t) false false) e (Zpos k)
  = (Build_shr_record (Zpos m) false false, e + Zpos k).
Proof.
  intros H. unfold shr. rewrite iter_pos_nat. f_equal.
  apply shr_exact_nat. now rewrite positive_nat_Z.
Qed.

Lemma shl_align_value (t : positive) (e e' : Z) :
  e' <= e ->
  Zpos (fst (shl_align t e e')) = Zpos t * 2 ^ (e - e') /\ snd (shl_align t e e') = e'.
Proof.
  intros H. unfold shl_align.
  destruct (e' - e) as [|d|d] eqn:E; cbn [fst snd].
  - replace (e - e') with 0 by lia. split; lia.
  - lia.
  - replace (e - e') with (Zpos d) by lia.
    change (Pos.iter xO t d) with (shift_pos d t).
    rewrite shift_pos_correct, Z.pow_pos_fold. split; lia.
Qed.

(** A float of the format, rounded, is itself. *)
Lemma binary_round_aux_canonical (s : bool) (m : positive) (e : Z) :
  bounded prec emax m e = true ->
  binary_round_aux prec emax s (Zpos m) e loc_Exact = S754_finite s m e.
Proof.
  unfold bounded, canonical_mantissa. intros H.
  apply andb_prop in H. destruct H as [Hc He]. apply Z.eqb_eq in Hc.
  unfold binary_round_aux, shr_fexp. cbn [Zdigits2 shr_record_of_loc].
  rewrite Hc, Z.sub_diag. cbn [shr shr_m loc_of_shr_record round_nearest_even Zdigits2].
  rewrite Hc, Z.sub_diag. cbn [shr shr_m]. now rewrite He.
Qed.

(** Rounding a value that a float of the format has gives that float. *)
Lemma binary_round_exact (s : bool) (t m : positive) (e' e : Z) :
  bounded prec emax m e = true ->
  -1074 <= e' ->
  Zpos t * 2 ^ (e' + 1074) = Zpos m * 2 ^ (e + 1074) ->
  binary_round prec emax s t e' = S754_finite s m e.
Proof.
  intros Hb He' H.
  pose proof Hb as Hb'. unfold bounded, canonical_mantissa in Hb'.
  apply andb_prop in Hb'. destruct Hb' as [Hc Hmax]. apply Z.eqb_eq in Hc.
  assert (Hemin : -1074 <= e).
  { rewrite <- Hc. unfold fexp. change (SpecFloat.emin prec emax) with (-1074). lia. }
  assert (Hmag : Zpos (digits2_pos t) + e' = Zpos (digits2_pos m) + e).
  { pose proof (same_value_same_magnitude t m (e' + 1074) (e + 1074)
                  ltac:(lia) ltac:(lia) H). lia. }
  unfold binary_round. rewrite Hmag, Hc.
  destruct (Z_lt_le_dec e e') as [Hlt|Hge].
  - (* the mantissa is shifted left *)
    destruct (shl_align_value t e' e ltac:(lia)) as [Hv Hs].
    destruct (shl_align t e' e) as [mz ez]. cbn [fst snd] in Hv, Hs. subst ez.
    assert (mz = m).
    { assert (Zpos mz = Zpos m); [|congruence].
      rewrite Hv. replace (e' + 1074) with ((e' - e) + (e + 1074)) in H by lia.
      rewrite (Z.pow_add_r 2 (e' - e) (e + 1074)), Z.mul_assoc in H by lia.
      apply (Z.mul_cancel_r _ _ (2 ^ (e + 1074)));
        [apply Z.pow_nonzero; lia | exact H]. }
    subst mz. now apply binary_round_aux_canonical.
  - (* the mantissa is shifted right, its low bits being zero *)
    unfold shl_align.
    destruct (e - e') as [|d|d] eqn:E; try lia.
    + assert (e' = e) by lia. subst e'.
      assert (t = m).
      { assert (Zpos t = Zpos m); [|congruence].
        apply (Z.mul_cancel_r _ _ (2 ^ (e + 1074)));
          [apply Z.pow_nonzero; lia | exact H]. }
      subst t. now apply binary_round_aux_canonical.
    + assert (Ht : Zpos t = Zpos m * 2 ^ Zpos d).
      { replace (e + 1074) with (Zpos d + (e' + 1074)) in H by lia.
        rewrite (Z.pow_add_r 2 (Zpos d) (e' + 1074)), Z.mul_assoc in H by lia.
        apply (Z.mul_cancel_r _ _ (2 ^ (e' + 1074)));
          [apply Z.pow_nonzero; lia | exact H]. }
      unfold binary_round_aux, shr_fexp. cbn [Zdigits2 shr_record_of_loc].
      rewrite Hmag, Hc, E, (shr_exact d t m e' Ht).
      cbn [shr_m loc_of_shr_record round_nearest_even Zdigits2].
      replace (e' + Zpos d) with e by lia.
      rewrite Hc, Z.sub_diag. cbn [shr shr_m].
      now rewrite Hmax.
Qed.
Lemma bounded_emin (m : positive) (e : Z) : bounded prec emax m e = true -> -1074 <= e.
Proof.
  unfold bounded, canonical_mantissa. intros H.
  apply andb_prop in H. destruct H as [Hc _]. apply Z.eqb_eq in Hc.
  rewrite <- Hc. unfold fexp. change (SpecFloat.emin prec emax) with (-1074). lia.
Qed.

(** The mantissas aligned on the smaller exponent carry the values. *)
Lemma aligned_units (s : bool) (m : positive) (e ez : Z) :
  -1074 <= ez <= e ->
  cond_Zopp s (Zpos (fst (shl_align m e ez))) * 2 ^ (ez + 1074)
  = cond_Zopp s (Zpos m) * 2 ^ (e + 1074).
Proof.
  intros H. destruct (shl_align_value m e ez ltac:(lia)) as [Hv _].
  replace (e + 1074) with ((e - ez) + (ez + 1074)) by lia.
  rewrite (Z.pow_add_r 2 (e - ez) (ez + 1074)) by lia.
  assert (Hs : forall u c, cond_Zopp s u * c = cond_Zopp s (u * c))
    by (intros; destruct s; unfold cond_Zopp; ring).
  rewrite !Hs, Hv. f_equal. ring.
Qed.

(** Normalizing an integer whose value a float of the format has gives
    that float. *)
Lemma binary_normalize_exact (T : Z) (e' : Z) (s : bool) (m : positive) (e : Z) :
  bounded prec emax m e = true ->
  -1074 <= e' ->
  T * 2 ^ (e' + 1074) = cond_Zopp s (Zpos m) * 2 ^ (e + 1074) ->
  binary_normalize prec emax T e' false = S754_finite s m e.
Proof.
  intros Hb He' H.
  pose proof (bounded_emin m e Hb) as He.
  assert (Hp' : 0 < 2 ^ (e' + 1074)) by (apply Z.pow_pos_nonneg; lia).
  assert (Hp : 0 < 2 ^ (e + 1074)) by (apply Z.pow_pos_nonneg; lia).
  destruct T as [|t|t], s; cbn [cond_Zopp binary_normalize] in *; try nia.
  - now apply binary_round_exact.
  - apply binary_round_exact; trivial.
    change (Z.neg t) with (- Zpos t) in H. change (Z.neg m) with (- Zpos m) in H.
    rewrite !Z.mul_opp_l in H. lia.
Qed.

(** Two floats of the format with the same value are the same float. *)
Lemma SFunits_inj (s s' : bool) (m m' : positive) (e e' : Z) :
  bounded prec emax m e = true -> bounded prec emax m' e' = true ->
  cond_Zopp s (Zpos m) * 2 ^ (e + 1074) = cond_Zopp s' (Zpos m') * 2 ^ (e' + 1074) ->
  S754_finite s m e = S754_finite s' m' e'.
Proof.
  intros Hb Hb' H.
  rewrite <- (binary_normalize_exact (cond_Zopp s (Zpos m)) e s m e Hb
                (bounded_emin _ _ Hb) eq_refl).
  now apply binary_normalize_exact; [|apply (bounded_emin _ _ Hb)|].
Qed.

Lemma SFunits_finite_nonzero (s : bool) (m : positive) (e : Z) :
  -1074 <= e -> cond_Zopp s (Zpos m) * 2 ^ (e + 1074) <> 0.
Proof.
  intros He. assert (0 < 2 ^ (e + 1074)) by (apply Z.pow_pos_nonneg; lia).
  destruct s; cbn [cond_Zopp]; nia.
Qed.

(** An exact sum, less what was added, is the first term. *)
Lemma SFsub_SFadd_exact (x y : spec_float) (ux uy : Z) :
  valid_binary x = true -> valid_binary y = true ->
  valid_binary (SF64add x y) = true ->
  SFunits x = Some ux -> SFunits y = Some uy ->
  SFunits (SF64add x y) = Some (ux + uy) ->
  x <> S754_zero true ->
  SF64sub (SF64add x y) y = x.
Proof.
  intros Vx Vy Vc Hx Hy Hc Hneg. unfold SF64add, SF64sub in *.
  destruct x as [sx|sx| |sx mx ex]; try discriminate Hx;
    destruct y as [sy|sy| |sy my ey]; try discriminate Hy.
  - destruct sx; [congruence|]. now destruct sy.
  - destruct sx; [congruence|]. cbn [SFadd SFsub]. now rewrite Z.sub_diag.
  - reflexivity.
  - cbn [valid_binary] in Vx, Vy. cbn [SFunits] in Hx, Hy.
    injection Hx as Hx. injection Hy as Hy.
    pose proof (bounded_emin _ _ Vx) as Ex. pose proof (bounded_emin _ _ Vy) as Ey.
    destruct (SFadd prec emax (S754_finite sx mx ex) (S754_finite sy my ey))
      as [sc|sc| |sc mc ec] eqn:Ec; try discriminate Hc.
    + (* the sum is zero: the first term is the opposite of the second *)
      cbn [SFunits] in Hc. injection Hc as Hc. cbn [SFsub].
      apply SFunits_inj; trivial.
      destruct sy; cbn [negb cond_Zopp] in *; lia.
    + cbn [valid_binary] in Vc. cbn [SFunits] in Hc. injection Hc as Hc.
      pose proof (bounded_emin _ _ Vc) as Ec'.
      cbn [SFsub]. apply binary_normalize_exact; trivial; [lia|].
      rewrite Z.mul_sub_distr_r, !aligned_units by lia. lia.
Qed.

(** An exact difference, plus what was taken, is the first term. *)
Lemma SFadd_SFsub_exact (x y : spec_float) (ux uy : Z) :
  valid_binary x = true -> valid_binary y = true ->
  valid_binary (SF64sub x y) = true ->
  SFunits x = Some ux -> SFunits y = Some uy ->
  SFunits (SF64sub x y) = Some (ux - uy) ->
  x <> S754_zero true ->
  SF64add (SF64sub x y) y = x.
Proof.
  intros Vx Vy Vc Hx Hy Hc Hneg. unfold SF64add, SF64sub in *.
  destruct x as [sx|sx| |sx mx ex]; try discriminate Hx;
    destruct y as [sy|sy| |sy my ey]; try discriminate Hy.
  - destruct sx; [congruence|]. now destruct sy.
  - destruct sx; [congruence|]. cbn [SFadd SFsub].
    replace (_ + _) with 0; [reflexivity|].
    destruct sy; cbn [negb cond_Zopp]; lia.
  - reflexivity.
  - cbn [valid_binary] in Vx, Vy. cbn [SFunits] in Hx, Hy.
    injection Hx as Hx. injection Hy as Hy.
    pose proof (bounded_emin _ _ Vx) as Ex. pose proof (bounded_emin _ _ Vy) as Ey.
    destruct (SFsub prec emax (S754_finite sx mx ex) (S754_finite sy my ey))
      as [sc|sc| |sc mc ec] eqn:Ec; try discriminate Hc.
    + (* the difference is zero: the two terms are the same *)
      cbn [SFunits] in Hc. injection Hc as Hc. cbn [SFadd].
      apply SFunits_inj; trivial. lia.
    + cbn [valid_binary] in Vc. cbn [SFunits] in Hc. injection Hc as Hc.
      pose proof (bounded_emin _ _ Vc) as Ec'.
      cbn [SFadd]. apply binary_normalize_exact; trivial; [lia|].
      rewrite Z.mul_add_distr_r, !aligned_units by lia. lia.
Qed.

End ExactRounding.

Theorem add_then_sub_exact (b a : number) (ub ua : Z) :
  units b = Some ub -> units a = Some ua -> units (b + a) = Some (ub + ua)%Z ->
  Prim2SF b <> S754_zero true ->
  (b + a) - a = b.
Proof.
  unfold units. intros Hb Ha Hc Hneg. apply Prim2SF_inj.
  rewrite sub_spec, add_spec. rewrite add_spec in Hc.
  apply (SFsub_SFadd_exact _ _ ub ua); trivial; try apply Prim2SF_valid.
  rewrite <- add_spec. apply Prim2SF_valid.
Qed.

Theorem sub_then_add_exact (b a : number) (ub ua : Z) :
  units b = Some ub -> units a = Some ua -> units (b - a) = Some (ub - ua)%Z ->
  Prim2SF b <> S754_zero true ->
  (b - a) + a = b.
Proof.
  unfold units. intros Hb Ha Hc Hneg. apply Prim2SF_inj.
  rewrite add_spec, sub_spec. rewrite sub_spec in Hc.
  apply (SFadd_SFsub_exact _ _ ub ua); trivial; try apply Prim2SF_valid.
  rewrite <- sub_spec. apply Prim2SF_valid.
Qed.

(** ** Creating a transaction *)

Lemma truthy_string_nonempty (s : string) : s <> "" -> truthy_string s = true.
Proof. destruct s; [congruence | reflexivity]. Qed.

Lemma handleSubmit_accepted (f : AddTransaction.Form) (account : AddTransaction.Account)
    (b : number) (w : World) :
  AddTransaction.f_selectedAccount f = Some account ->
  accepted f ->
  faults w = [] ->
  account_balance_is (AddTransaction.id account) b w ->
  AddTransaction.handleSubmit f w = (AddTransaction.NavigateBack, submitted f account b w).
Proof.
  intros Hacc (Ha & Hd & Hnan & Hpos) Hf Hb.
  destruct w as [accs txs profs cats n fl lg]; cbn in Hf; subst fl.
  unfold account_balance_is in Hb; cbn [accounts] in Hb.
  unfold AddTransaction.handleSubmit. rewrite Hacc.
  rewrite (truthy_string_nonempty _ Ha), (truthy_string_nonempty _ Hd), Hnan, Hpos.
  cbn. rewrite Hb.
  unfold submitted, apply_effect, new_transaction, stored_transaction. cbn.
  rewrite <- !app_assoc. cbn.
  destruct (AddTransaction.f_type f); reflexivity.
Qed.

(** C1. Creating a transaction on an account whose balance is [b] stores
    [b + amount] for an income and [b - amount] for an expense, and leaves
    the balance of every other account as it was. *)
Theorem create_adjusts_balance (f : AddTransaction.Form) (account : AddTransaction.Account)
    (b : number) (w : World) :
  AddTransaction.f_selectedAccount f = Some account ->
  accepted f ->
  faults w = [] ->
  account_balance_is (AddTransaction.id account) b w ->
  let amount := parseFloat (AddTransaction.f_amount f) in
  let w' := snd (AddTransaction.handleSubmit f w) in
  balance_of (AddTransaction.id account) w'
  = Some (match AddTransaction.f_type f with
          | income => b + amount
          | expense => b - amount
          end)
  /\ forall other, other <> AddTransaction.id account ->
       balance_of other w' = balance_of other w.
Proof.
  intros Hacc Hok Hf Hb.
  rewrite (handleSubmit_accepted f account b w Hacc Hok Hf Hb).
  destruct (account_balance_is_row _ _ _ Hb) as (row & _ & _ & Hin & Hid).
  unfold balance_of, submitted; cbn [snd accounts]. split.
  - rewrite find_set_balance_same by now exists row.
    now destruct (AddTransaction.f_type f).
  - intros other Hne. now rewrite find_set_balance_other.
Qed.

Lemma sample_accepted (t : TxType) (d : string) : accepted (Sample.form t "50.00" d).
Proof. repeat split; discriminate. Qed.

(** The scenario of the specification: balance 1000.00, an expense of
    50.00, balance 950.00; the other account keeps its 35.5. *)
Lemma create_adjusts_balance_witness :
  balance_of "acc-1" (snd (AddTransaction.handleSubmit Sample.expense_50 Sample.world))
  = Some 950
  /\ forall other, other <> "acc-1" ->
       balance_of other (snd (AddTransaction.handleSubmit Sample.expense_50 Sample.world))
       = balance_of other Sample.world.
Proof.
  exact (create_adjusts_balance Sample.expense_50 Sample.picked 1000 Sample.world
           eq_refl (sample_accepted expense "2024-03-01") eq_refl eq_refl).
Defined.

(** ** Deleting a transaction *)

Lemma handleDeleteTransaction_listed (listed : list Transactions.Transaction)
    (t : Transactions.Transaction) (i : string) (b : number) (w : World) :
  find (fun x => Transactions.id x =? Transactions.id t)%string listed = Some t ->
  faults w = [] ->
  option_map tx_account_id
    (single (filter (fun r => tx_id r =? Transactions.id t)%string (transactions w)))
  = Some i ->
  account_balance_is i b w ->
  snd (Transactions.handleDeleteTransaction listed (Transactions.id t) w) = deleted t i b w.
Proof.
  intros Hfind Hf Htx Hb.
  destruct w as [accs txs profs cats n fl lg]; cbn in Hf; subst fl.
  unfold account_balance_is in Hb; cbn [accounts] in Hb. cbn [transactions] in Htx.
  destruct (single (filter _ txs)) as [r|] eqn:Hr; [|discriminate].
  destruct (single (filter _ accs)) as [a|] eqn:Hacc; [|discriminate].
  cbn in Htx, Hb. injection Htx as Htx. injection Hb as Hb.
  unfold Transactions.handleDeleteTransaction. rewrite Hfind.
  run_remote. rewrite Hr. run_remote. rewrite Htx, Hacc. run_remote.
  rewrite Hr. run_remote. rewrite Htx, Hb.
  unfold deleted, undo_effect, set_balance. run_remote.
  rewrite <- !app_assoc. cbn [app].
  destruct (Transactions.type t); reflexivity.
Qed.

(** What creating and then deleting does, request by request. *)
Lemma create_then_delete_run (f : AddTransaction.Form) (account : AddTransaction.Account)
    (b : number) (w : World) :
  AddTransaction.f_selectedAccount f = Some account ->
  accepted f ->
  faults w = [] ->
  account_balance_is (AddTransaction.id account) b w ->
  fresh_in (uuid_of (uuid_count w)) (transactions w) ->
  let amount := parseFloat (AddTransaction.f_amount f) in
  let w' := snd (create_then_delete f w) in
  balance_of (AddTransaction.id account) w'
  = Some (undo_effect (AddTransaction.f_type f)
            (apply_effect (AddTransaction.f_type f) b amount) amount)
  /\ (forall other, other <> AddTransaction.id account ->
        balance_of other w' = balance_of other w)
  /\ transactions w' = transactions w.
Proof.
  intros Hacc Hok Hf Hb Hfresh amount.
  set (i := AddTransaction.id account) in *.
  set (tid := uuid_of (uuid_count w)) in *.
  set (created := apply_effect (AddTransaction.f_type f) b amount).
  pose (w1 := submitted f account b w).
  pose (w2 := snd (Transactions.fetchTransactions w1)).
  pose (t := Transactions.of_row (stored_transaction tid (new_transaction f account))).
  destruct (account_balance_is_row _ _ _ Hb) as (row & Hrow & Hbal & Hin & Hid).
  assert (Hrun : snd (create_then_delete f w) = deleted t i created w2).
  { unfold create_then_delete, bind, gets.
    rewrite (handleSubmit_accepted f account b w Hacc Hok Hf Hb).
    fold tid w1.
    assert (Hfetch : Transactions.fetchTransactions w1
                     = (Some (map Transactions.of_row
                                (Transactions.order_by_date (transactions w1))), w2)).
    { subst w2. unfold Transactions.fetchTransactions, bind, request, gets, ret. reflexivity. }
    rewrite Hfetch.
    change tid with (Transactions.id t).
    apply handleDeleteTransaction_listed.
    - cbn [transactions w1 submitted]. fold tid.
      now rewrite (find_listed_fresh _ _ _ Hfresh).
    - reflexivity.
    - cbn [transactions w2 w1 submitted snd Transactions.fetchTransactions]. cbn. fold tid.
      rewrite (filter_fresh _ _ _ Hfresh). cbn. now rewrite String.eqb_refl.
    - unfold account_balance_is. cbn. fold i created.
      now rewrite filter_set_balance, Hrow. }
  cbv zeta. rewrite Hrun.
  unfold balance_of, deleted; cbn [accounts transactions w2 w1 submitted snd].
  cbn. fold i tid created.
  split; [|split].
  - rewrite find_set_balance_same; [reflexivity|].
    exists (set_balance i created row). split; [now apply in_map | now rewrite set_balance_id].
  - intros other Hne. now rewrite !find_set_balance_other.
  - rewrite (filter_out_fresh _ _ _ Hfresh). cbn. rewrite String.eqb_refl. cbn.
    apply app_nil_r.
Qed.

(** C2, as it stands, fails: a balance of 1000.10 with an income of 50.20
    created and deleted (every request going through) ends at
    1000.0999999999999. *)
Lemma create_then_delete_drifts :
  accepted Sample.income_50_20
  /\ faults Sample.world_cents = []
  /\ fresh_in (uuid_of (uuid_count Sample.world_cents)) (transactions Sample.world_cents)
  /\ balance_of "acc-1" Sample.world_cents = Some 1000.10
  /\ balance_of "acc-1" (snd (create_then_delete Sample.income_50_20 Sample.world_cents))
     = Some 1000.0999999999999
  /\ 1000.0999999999999 <> 1000.10.
Proof.
  split; [repeat split; discriminate|].
  split; [reflexivity|].
  split; [intros []|].
  split; [reflexivity|].
  split; [reflexivity|].
  intros H. apply (f_equal (fun x => PrimFloat.eqb x 1000.10)) in H.
  vm_compute in H. discriminate.
Qed.

(** C2, amended. With no request failing, creating a transaction and
    deleting it leaves on the account the balance [(b + amount) - amount]
    for an income and [(b - amount) + amount] for an expense, in the
    arithmetic of JS numbers: it is [b] again whenever the first of the
    two operations is exact. No other balance has changed, and the ledger
    has its former rows. *)
Theorem create_then_delete_balance (f : AddTransaction.Form)
    (account : AddTransaction.Account) (b : number) (w : World) :
  AddTransaction.f_selectedAccount f = Some account ->
  accepted f ->
  faults w = [] ->
  account_balance_is (AddTransaction.id account) b w ->
  fresh_in (uuid_of (uuid_count w)) (transactions w) ->
  let amount := parseFloat (AddTransaction.f_amount f) in
  let w' := snd (create_then_delete f w) in
  balance_of (AddTransaction.id account) w'
  = Some (match AddTransaction.f_type f with
          | income => (b + amount) - amount
          | expense => (b - amount) + amount
          end)
  /\ (exact_effect (AddTransaction.f_type f) b amount ->
      balance_of (AddTransaction.id account) w' = Some b)
  /\ (forall other, other <> AddTransaction.id account ->
        balance_of other w' = balance_of other w)
  /\ transactions w' = transactions w.
Proof.
  intros Hacc Hok Hf Hb Hfresh.
  pose proof (create_then_delete_run f account b w Hacc Hok Hf Hb Hfresh) as H.
  cbv zeta in *. destruct H as (H1 & H2 & H3). rewrite H1.
  split; [now destruct (AddTransaction.f_type f)|].
  split; [|now split].
  intros (Hneg & ub & ua & Hub & Hua & Hexact). f_equal.
  destruct (AddTransaction.f_type f); cbn [apply_effect undo_effect] in *.
  - now apply (add_then_sub_exact _ _ ub ua).
  - now apply (sub_then_add_exact _ _ ub ua).
Qed.

(** In the scenario of the specification the subtraction is exact:
    1000 - 50 is 950. *)
Lemma scenario_exact : exact_effect expense 1000 50.
Proof.
  split; [discriminate|].
  exists (1000 * 2 ^ 1074)%Z, (50 * 2 ^ 1074)%Z. repeat split; vm_compute; reflexivity.
Qed.

(** The scenario of the specification: 1000.00, an expense of 50.00
    created and deleted, 1000.00 again. *)
Lemma create_then_delete_balance_witness :
  balance_of "acc-1" (snd (create_then_delete Sample.expense_50 Sample.world)) = Some 1000
  /\ (forall other, other <> "acc-1" ->
        balance_of other (snd (create_then_delete Sample.expense_50 Sample.world))
        = balance_of other Sample.world)
  /\ transactions (snd (create_then_delete Sample.expense_50 Sample.world)) = [].
Proof.
  destruct (create_then_delete_balance Sample.expense_50 Sample.picked 1000 Sample.world
              eq_refl (sample_accepted expense "2024-03-01") eq_refl eq_refl
              (fun H : In _ [] => H)) as (_ & H1 & H2 & H3).
  split; [exact (H1 scenario_exact)|]. now split.
Defined.

(** ** Validation of the form *)

(** C9, as it stands, fails on two of its cases. A date that is not of
    the shape [YYYY-MM-DD] passes the checks of the form, and the insert
    request is issued; here the store refuses it, and the message shown
    is the store's. An amount that is not a number, ["12,50"], passes as
    the 12 it starts with: the transaction is stored with that amount and
    the balance adjusted by it. *)
Lemma unvalidated_input_reaches_store :
  (AddTransaction.date_shape (AddTransaction.f_date Sample.bad_date) = false
   /\ fst (AddTransaction.handleSubmit Sample.bad_date
             (Sample.world_refusing "invalid input syntax for type date"))
      = AddTransaction.ShowError "invalid input syntax for type date"
   /\ log (snd (AddTransaction.handleSubmit Sample.bad_date
                  (Sample.world_refusing "invalid input syntax for type date")))
      = [InsertTransaction (new_transaction Sample.bad_date Sample.picked)])
  /\ (AddTransaction.f_amount Sample.decimal_comma = "12,50"
      /\ fst (AddTransaction.handleSubmit Sample.decimal_comma Sample.world)
         = AddTransaction.NavigateBack
      /\ map tx_amount
           (transactions (snd (AddTransaction.handleSubmit Sample.decimal_comma Sample.world)))
         = [12]
      /\ balance_of "acc-1" (snd (AddTransaction.handleSubmit Sample.decimal_comma Sample.world))
         = Some 988).
Proof. repeat split. Qed.

(** C9, amended. A form with an empty amount, an empty description or no
    account, or whose amount [parseFloat] reads as NaN or as a number not
    above zero, is answered with one of the two validation messages and
    the world is as before: no request has been issued and no row has
    changed. *)
Theorem refused_before_any_request (f : AddTransaction.Form) (w : World) :
  refused f ->
  exists message,
    AddTransaction.handleSubmit f w = (AddTransaction.ShowError message, w)
    /\ (message = "Please fill in all required fields"
        \/ message = "Please enter a valid amount").
Proof.
  intros H. unfold AddTransaction.handleSubmit.
  destruct (AddTransaction.f_selectedAccount f) as [account|] eqn:Es;
    [|eexists; split; [reflexivity | now left]].
  destruct (truthy_string (AddTransaction.f_amount f)) eqn:Ea;
    [|eexists; split; [reflexivity | now left]].
  destruct (truthy_string (AddTransaction.f_description f)) eqn:Ed;
    [|eexists; split; [reflexivity | now left]].
  cbn [negb orb].
  destruct (isNaN (parseFloat (AddTransaction.f_amount f))) eqn:En;
    [eexists; split; [reflexivity | now right]|].
  destruct (le (parseFloat (AddTransaction.f_amount f)) 0) eqn:El;
    [eexists; split; [reflexivity | now right]|].
  exfalso. destruct H as [H|[H|[H|[H|H]]]]; try congruence.
  - rewrite H in Ea. discriminate.
  - rewrite H in Ed. discriminate.
Qed.

(** An amount with no number in it, and an amount of zero. *)
Lemma refused_before_any_request_witness :
  (exists message,
     AddTransaction.handleSubmit (Sample.form expense "abc" "2024-03-01") Sample.world
     = (AddTransaction.ShowError message, Sample.world)
     /\ (message = "Please fill in all required fields"
         \/ message = "Please enter a valid amount"))
  /\ (exists message,
        AddTransaction.handleSubmit (Sample.form income "0.00" "2024-03-01") Sample.world
        = (AddTransaction.ShowError message, Sample.world)
        /\ (message = "Please fill in all required fields"
            \/ message = "Please enter a valid amount")).
Proof.
  split.
  - apply (refused_before_any_request (Sample.form expense "abc" "2024-03-01")).
    right; right; right; left. reflexivity.
  - apply (refused_before_any_request (Sample.form income "0.00" "2024-03-01")).
    right; right; right; right. reflexivity.
Defined.

(** ** Deleting without the balance *)

(** Every request of a handler is added to the log, whatever its fate. *)
Lemma log_select_transaction_account (tid : string) (w : World) :
  log (snd (select_transaction_account tid w)) = log w ++ [SelectTransactionAccount tid].
Proof. destruct w as [accs txs profs cats n [|[m|] fl] lg]; reflexivity. Qed.

Lemma log_select_account_balance (i : option string) (w : World) :
  log (snd (select_account_balance i w)) = log w ++ [SelectAccountBalance i].
Proof. destruct w as [accs txs profs cats n [|[m|] fl] lg], i; reflexivity. Qed.

Lemma log_update_account_balance (i : option string) (b : number) (w : World) :
  log (snd (update_account_balance i b w)) = log w ++ [UpdateAccountBalance i b].
Proof. destruct w as [accs txs profs cats n [|[m|] fl] lg], i; reflexivity. Qed.

Lemma log_delete_transaction (tid : string) (w : World) :
  log (snd (delete_transaction tid w)) = log w ++ [DeleteTransaction tid].
Proof. destruct w as [accs txs profs cats n [|[m|] fl] lg]; reflexivity. Qed.

Lemma log_fetchTransactions (w : World) :
  log (snd (Transactions.fetchTransactions w)) = log w ++ [SelectTransactions].
Proof. destruct w as [accs txs profs cats n [|[m|] fl] lg]; reflexivity. Qed.

(** The deletion of a listed transaction ends with the delete request and
    the refresh, whatever came before. *)
Lemma handleDeleteTransaction_ends (listed : list Transactions.Transaction)
    (t : Transactions.Transaction) (w : World) :
  find (fun x => Transactions.id x =? Transactions.id t)%string listed = Some t ->
  exists before,
    log (snd (Transactions.handleDeleteTransaction listed (Transactions.id t) w))
    = log w ++ before ++ [DeleteTransaction (Transactions.id t); SelectTransactions].
Proof.
  intros Hfind. unfold Transactions.handleDeleteTransaction. rewrite Hfind.
  set (tid := Transactions.id t). unfold bind.
  pose proof (log_select_transaction_account tid w) as L1.
  destruct (select_transaction_account tid w) as [a1 w1]. cbn [snd] in L1.
  pose proof (log_select_account_balance a1 w1) as L2.
  destruct (select_account_balance a1 w1) as [[balance|] w2]; cbn [snd] in L2.
  - pose proof (log_select_transaction_account tid w2) as L3.
    destruct (select_transaction_account tid w2) as [a3 w3]. cbn [snd] in L3.
    match goal with |- context [update_account_balance a3 ?b w3] =>
      pose proof (log_update_account_balance a3 b w3) as L4;
      destruct (update_account_balance a3 b w3) as [[] w4] end.
    cbn [snd] in L4.
    pose proof (log_delete_transaction tid w4) as L5.
    destruct (delete_transaction tid w4) as [[] w5]. cbn [snd] in L5.
    rewrite log_fetchTransactions, L5, L4, L3, L2, L1.
    rewrite <- !app_assoc. cbn [app].
    now exists [SelectTransactionAccount tid; SelectAccountBalance a1;
                SelectTransactionAccount tid;
                UpdateAccountBalance a3
                  (match Transactions.type t with
                   | income => balance - Transactions.amount t
                   | expense => balance + Transactions.amount t
                   end)].
  - cbn [ret].
    pose proof (log_delete_transaction tid w2) as L5.
    destruct (delete_transaction tid w2) as [[] w5]. cbn [snd] in L5.
    rewrite log_fetchTransactions, L5, L2, L1.
    rewrite <- !app_assoc. cbn [app].
    now exists [SelectTransactionAccount tid; SelectAccountBalance a1].
Qed.

(** What the deletion does when the balance cannot be read. *)
Lemma handleDeleteTransaction_unread (listed : list Transactions.Transaction)
    (t : Transactions.Transaction) (w : World) :
  find (fun x => Transactions.id x =? Transactions.id t)%string listed = Some t ->
  fst (read_owner_balance (Transactions.id t) w) = None ->
  let tid := Transactions.id t in
  let w' := snd (Transactions.handleDeleteTransaction listed tid w) in
  log w' = log w ++ [SelectTransactionAccount tid;
                     SelectAccountBalance (fst (select_transaction_account tid w));
                     DeleteTransaction tid;
                     SelectTransactions]
  /\ accounts w' = accounts w
  /\ (fate 2 w = None ->
      transactions w' = filter (fun r => negb (tx_id r =? tid)%string) (transactions w)).
Proof.
  intros Hfind Hread. cbv zeta.
  unfold Transactions.handleDeleteTransaction. rewrite Hfind.
  destruct w as [accs txs profs cats n fl lg].
  unfold read_owner_balance, fate in *. revert Hread. run_remote.
  destruct fl as [|[m1|] [|[m2|] [|[m3|] [|[m4|] fl]]]]; cbn [nth];
    repeat match goal with
      | |- context [single ?l] => destruct (single l) as [?|]; cbn
      end;
    intros Hread; try discriminate Hread;
    (split; [rewrite <- !app_assoc; reflexivity | split; [reflexivity|]]);
    intros Hfate; try discriminate Hfate; reflexivity.
Qed.

(** C10. The deletion of a listed transaction always ends with the delete
    request and the refresh. When the read of the owning account's balance
    gives no data (a request failed, the ledger has no single row for the
    transaction, or the table no single row for the account), no update
    is issued: after the two reads come the delete and the refresh, the
    balances are as before, and the transaction leaves the ledger as soon
    as the delete request itself goes through. *)
Theorem delete_without_balance (listed : list Transactions.Transaction)
    (t : Transactions.Transaction) (w : World) :
  find (fun x => Transactions.id x =? Transactions.id t)%string listed = Some t ->
  let tid := Transactions.id t in
  let w' := snd (Transactions.handleDeleteTransaction listed tid w) in
  (exists before, log w' = log w ++ before ++ [DeleteTransaction tid; SelectTransactions])
  /\ (fst (read_owner_balance tid w) = None ->
      log w' = log w ++ [SelectTransactionAccount tid;
                         SelectAccountBalance (fst (select_transaction_account tid w));
                         DeleteTransaction tid;
                         SelectTransactions]
      /\ accounts w' = accounts w
      /\ (fate 2 w = None ->
          transactions w'
          = filter (fun r => negb (tx_id r =? tid)%string) (transactions w))).
Proof.
  intros Hfind. cbv zeta. split.
  - now apply handleDeleteTransaction_ends.
  - intros Hread. now apply handleDeleteTransaction_unread.
Qed.

(** The account of the transaction is gone: the row leaves the ledger
    and no balance is written. *)
Lemma delete_without_balance_witness :
  log (snd (Transactions.handleDeleteTransaction
              [Transactions.of_row Sample.orphan] "tx-9" Sample.world_orphan))
  = [SelectTransactionAccount "tx-9"; SelectAccountBalance (Some "acc-7");
     DeleteTransaction "tx-9"; SelectTransactions]
  /\ accounts (snd (Transactions.handleDeleteTransaction
                      [Transactions.of_row Sample.orphan] "tx-9" Sample.world_orphan))
     = accounts Sample.world_orphan
  /\ (fate 2 Sample.world_orphan = None ->
      transactions (snd (Transactions.handleDeleteTransaction
                           [Transactions.of_row Sample.orphan] "tx-9" Sample.world_orphan))
      = []).
Proof.
  exact (proj2 (delete_without_balance [Transactions.of_row Sample.orphan]
                  (Transactions.of_row Sample.orphan) Sample.world_orphan eq_refl)
           eq_refl).
Defined.

(** ** The order of JS numbers

    The comparisons of primitive floats are specified on [spec_float]
    ([SFcompare]); the facts below are the ones the handlers' tests on
    numbers need. *)

Section NumberOrder.

Implicit Types (x y z : number) (a b c : spec_float).

Lemma SFcompare_antisym a b :
  SFcompare b a = option_map CompOpp (SFcompare a b).
Proof.
  destruct a as [sa|sa| |sa ma ea], b as [sb|sb| |sb mb eb]; cbn;
    try reflexivity; try (destruct sa; reflexivity); try (destruct sb; reflexivity);
    try (destruct sa, sb; reflexivity).
  f_equal. rewrite !Pos.compare_cont_spec. cbn [Pos.switch_Eq].
  rewrite (Z.compare_antisym ea eb), (Pos.compare_antisym ma mb).
  destruct sa, sb; try reflexivity;
    destruct (ea ?= eb)%Z; cbn; try reflexivity;
    destruct (ma ?= mb)%positive; reflexivity.
Qed.

Lemma SFcompare_None a b : SFcompare a b = None -> a = S754_nan \/ b = S754_nan.
Proof.
  destruct a as [sa|sa| |sa ma ea], b as [sb|sb| |sb mb eb]; cbn;
    try discriminate; auto.
Qed.

Lemma SFcompare_refl a : a <> S754_nan -> SFcompare a a = Some Eq.
Proof.
  intros Ha. pose proof (SFcompare_antisym a a) as H.
  destruct (SFcompare a a) as [[| |]|] eqn:E; try discriminate H; trivial.
  apply SFcompare_None in E. tauto.
Qed.

(** The order on the triples sign, exponent, mantissa is transitive. *)
Lemma SFleb_trans a b c : SFleb a b = true -> SFleb b c = true -> SFleb a c = true.
Proof.
  unfold SFleb.
  destruct a as [sa|sa| |sa ma ea], b as [sb|sb| |sb mb eb], c as [sc|sc| |sc mc ec];
    cbn; try discriminate; try reflexivity;
    try (destruct sa; try discriminate; try reflexivity);
    try (destruct sb; try discriminate; try reflexivity);
    try (destruct sc; try discriminate; try reflexivity);
    rewrite ?Pos.compare_cont_spec; cbn;
    repeat match goal with
      | |- context [(?u ?= ?v)%Z] => destruct (Z.compare_spec u v)
      | |- context [(?u ?= ?v)%positive] => destruct (Pos.compare_spec u v)
      end; cbn; try discriminate; try reflexivity; intros; exfalso; lia.
Qed.

Lemma is_nan_spec x : PrimFloat.is_nan x = true <-> Prim2SF x = S754_nan.
Proof.
  unfold PrimFloat.is_nan. rewrite FloatAxioms.eqb_spec. unfold SFeqb. split.
  - intros H. destruct (Prim2SF x) eqn:E; trivial;
      rewrite SFcompare_refl in H by discriminate; discriminate.
  - intros ->. reflexivity.
Qed.

Lemma is_nan_false x : PrimFloat.is_nan x = false <-> Prim2SF x <> S754_nan.
Proof.
  pose proof (is_nan_spec x) as [H1 H2].
  destruct (PrimFloat.is_nan x); split; intros H; try congruence.
  - exfalso. apply H. now apply H1.
  - intros E. apply H2 in E. discriminate.
Qed.

Lemma ltb_leb x y : (x <? y) = true -> (x <=? y) = true.
Proof.
  rewrite FloatAxioms.ltb_spec, FloatAxioms.leb_spec. unfold SFltb, SFleb.
  now destruct (SFcompare (Prim2SF x) (Prim2SF y)) as [[| |]|].
Qed.

Lemma leb_refl x : PrimFloat.is_nan x = false -> (x <=? x) = true.
Proof.
  intros H. apply is_nan_false in H. rewrite FloatAxioms.leb_spec. unfold SFleb.
  now rewrite SFcompare_refl.
Qed.

Lemma leb_not_nan x y :
  (x <=? y) = true -> PrimFloat.is_nan x = false /\ PrimFloat.is_nan y = false.
Proof.
  rewrite FloatAxioms.leb_spec. unfold SFleb. intros H.
  split; apply is_nan_false; intros E; rewrite E in H; cbn in H; try discriminate.
  now destruct (Prim2SF x).
Qed.

Lemma leb_trans x y z : (x <=? y) = true -> (y <=? z) = true -> (x <=? z) = true.
Proof. rewrite !FloatAxioms.leb_spec. apply SFleb_trans. Qed.

(** Of two numbers, one is below the other. *)
Lemma leb_total x y :
  PrimFloat.is_nan x = false -> PrimFloat.is_nan y = false ->
  (x <=? y) = true \/ (y <? x) = true.
Proof.
  intros Hx Hy. apply is_nan_false in Hx, Hy.
  rewrite FloatAxioms.leb_spec, FloatAxioms.ltb_spec. unfold SFleb, SFltb.
  rewrite (SFcompare_antisym (Prim2SF x) (Prim2SF y)).
  destruct (SFcompare (Prim2SF x) (Prim2SF y)) as [[| |]|] eqn:E; cbn; auto.
  apply SFcompare_None in E. tauto.
Qed.

Lemma ltb_not_leb x y : (x <? y) = true -> (y <=? x) = false.
Proof.
  rewrite FloatAxioms.ltb_spec, FloatAxioms.leb_spec. unfold SFltb, SFleb.
  rewrite (SFcompare_antisym (Prim2SF x) (Prim2SF y)).
  now destruct (SFcompare (Prim2SF x) (Prim2SF y)) as [[| |]|].
Qed.

Lemma leb_not_ltb x y : (x <=? y) = true -> (y <? x) = false.
Proof.
  rewrite FloatAxioms.ltb_spec, FloatAxioms.leb_spec. unfold SFltb, SFleb.
  rewrite (SFcompare_antisym (Prim2SF x) (Prim2SF y)).
  now destruct (SFcompare (Prim2SF x) (Prim2SF y)) as [[| |]|].
Qed.

(** A number equal to zero ([0] or [-0]) is not above zero. *)
Lemma eqb_zero_not_gt x : (x =? 0) = true -> gt x 0 = false.
Proof.
  unfold gt. rewrite FloatAxioms.eqb_spec, FloatAxioms.ltb_spec. change (Prim2SF 0) with (S754_zero false).
  now destruct (Prim2SF x) as [s|[|]| |[|] m e].
Qed.

(** [Math.min] never exceeds its second argument. *)
Lemma Math_min_le x y :
  isNaN (Math_min x y) = false -> le (Math_min x y) y = true.
Proof.
  unfold Math_min, isNaN, le.
  destruct (PrimFloat.is_nan x) eqn:Hx; [discriminate|].
  destruct (PrimFloat.is_nan y) eqn:Hy; [discriminate|]. cbn [orb]. intros _.
  destruct (x <? y) eqn:Hlt; [now apply ltb_leb|].
  destruct (y <? x) eqn:Hgt; [now apply leb_refl|].
  destruct (leb_total x y Hx Hy) as [H|H]; [|congruence].
  destruct (get_sign x); [exact H | now apply leb_refl].
Qed.

(** Clamping at [y] does not change on which side of a threshold [t <= y]
    a number lies. *)
Lemma ge_Math_min x y t :
  (t <=? y) = true -> ge (Math_min x y) t = ge x t.
Proof.
  intros Hty. unfold ge, Math_min.
  destruct (leb_not_nan _ _ Hty) as [_ Hy]. rewrite Hy, orb_false_r.
  destruct (PrimFloat.is_nan x) eqn:Hx.
  - apply is_nan_spec in Hx. rewrite !FloatAxioms.leb_spec, Hx.
    change (Prim2SF nan) with S754_nan. unfold SFleb.
    now destruct (Prim2SF t).
  - destruct (x <? y) eqn:Hlt; [reflexivity|].
    assert (Hyx : (y <=? x) = true).
    { destruct (leb_total y x Hy Hx) as [H|H]; [exact H | congruence]. }
    rewrite (leb_trans _ _ _ Hty Hyx).
    destruct (y <? x); [exact Hty|].
    destruct (get_sign x); [now apply (leb_trans _ _ _ Hty) | exact Hty].
Qed.

End NumberOrder.

(** ** Rounding against a float of the format

    A quotient and a product are rounded to the nearest float. Rounding
    is monotone, so a float of the format that bounds the value being
    rounded bounds the rounded value as well. This is what makes
    [spent / amount * 100 >= 100] agree with [spent >= amount]. *)

Section RoundingBounds.

Local Open Scope Z_scope.

(** *** Lower bounds *)

Lemma digits2_pos_bounds (p : positive) :
  2 ^ (Zpos (digits2_pos p) - 1) <= Zpos p < 2 ^ Zpos (digits2_pos p).
Proof.
  rewrite digits2_pos_log2.
  pose proof (Z.log2_spec (Zpos p) ltac:(lia)) as H.
  replace (Z.log2 (Zpos p) + 1 - 1) with (Z.log2 (Zpos p)) by lia.
  replace (Z.log2 (Zpos p) + 1) with (Z.succ (Z.log2 (Zpos p))) by lia. exact H.
Qed.

Lemma digits2_pos_le (p q : positive) :
  Zpos p <= Zpos q -> Zpos (digits2_pos p) <= Zpos (digits2_pos q).
Proof.
  intros H. rewrite !digits2_pos_log2.
  pose proof (Z.log2_le_mono _ _ H). lia.
Qed.

(** The magnitude of a value grows with the value. *)
Lemma magnitude_le (t m : positive) (e' e : Z) :
  0 <= e' -> 0 <= e ->
  Zpos t * 2 ^ e' <= Zpos m * 2 ^ e ->
  Zpos (digits2_pos t) + e' <= Zpos (digits2_pos m) + e.
Proof.
  intros He' He H. rewrite !digits2_pos_log2.
  apply Z.log2_le_mono in H.
  rewrite !Z.log2_mul_pow2 in H by lia. lia.
Qed.

Lemma Zdigits2_div_pow2 (p : positive) (n : Z) :
  0 <= n < Zpos (digits2_pos p) ->
  exists q, Zpos p / 2 ^ n = Zpos q /\ Zpos (digits2_pos q) = Zpos (digits2_pos p) - n.
Proof.
  intros Hn. pose proof (digits2_pos_bounds p) as [Hlo Hhi].
  assert (Hq : 0 < Zpos p / 2 ^ n).
  { apply Z.div_str_pos. split; [apply Z.pow_pos_nonneg; lia|].
    apply Z.le_trans with (2 ^ (Zpos (digits2_pos p) - 1)); [|exact Hlo].
    apply Z.pow_le_mono_r; lia. }
  destruct (Zpos p / 2 ^ n) as [|q|q] eqn:E; try lia.
  exists q. split; [reflexivity|].
  rewrite !digits2_pos_log2, <- E, <- Z.shiftr_div_pow2, Z.log2_shiftr by lia.
  rewrite digits2_pos_log2 in Hn. lia.
Qed.

Lemma shr_m_shr_1 (r : shr_record) : 0 <= shr_m r -> shr_m (shr_1 r) = shr_m r / 2.
Proof.
  destruct r as [m r s]. cbn [shr_m]. intros H.
  destruct m as [|[p|p|]|p]; cbn [shr_1 shr_m]; try lia; try reflexivity.
  - rewrite Pos2Z.inj_xI. apply (Z.div_unique _ _ _ 1); lia.
  - rewrite Pos2Z.inj_xO. apply (Z.div_unique _ _ _ 0); lia.
Qed.

Lemma shr_m_iter (n : nat) (r : shr_record) :
  0 <= shr_m r -> shr_m (Nat.iter n shr_1 r) = shr_m r / 2 ^ Z.of_nat n.
Proof.
  intros H. induction n as [|n IH].
  - cbn. now rewrite Z.div_1_r.
  - rewrite Nat.iter_succ, shr_m_shr_1, IH.
    + rewrite Nat2Z.inj_succ, Z.pow_succ_r, Z.div_div by lia.
      f_equal. lia.
    + rewrite IH. apply Z.div_pos; [exact H | apply Z.pow_pos_nonneg; lia].
Qed.

(** What [shr_fexp] leaves of a mantissa that has at least the digits of
    the format. *)
Lemma shr_fexp_m (p : positive) (e : Z) (l : location) :
  e <= fexp prec emax (Zpos (digits2_pos p) + e) ->
  let e1 := fexp prec emax (Zpos (digits2_pos p) + e) in
  shr_m (fst (shr_fexp prec emax (Zpos p) e l)) = Zpos p / 2 ^ (e1 - e)
  /\ snd (shr_fexp prec emax (Zpos p) e l) = e1.
Proof.
  intros H e1. unfold shr_fexp. cbn [Zdigits2]. fold e1.
  assert (Hm : shr_m (shr_record_of_loc (Zpos p) l) = Zpos p) by now destruct l as [|[| |]].
  unfold shr. destruct (e1 - e) as [|k|k] eqn:E; cbn [fst snd]; try lia.
  - rewrite Hm, Z.div_1_r. split; lia.
  - rewrite iter_pos_nat, shr_m_iter, Hm, positive_nat_Z by (rewrite Hm; lia).
    split; lia.
Qed.

Lemma round_nearest_even_bounds (m : Z) (l : location) :
  m <= round_nearest_even m l <= m + 1.
Proof.
  destruct l as [|[| |]]; cbn [round_nearest_even]; try lia.
  destruct (Z.even m); lia.
Qed.

Lemma fexp_le (d d' : Z) : d <= d' -> fexp prec emax d <= fexp prec emax d'.
Proof. unfold fexp. lia. Qed.

Lemma fexp_lt_magnitude (d : Z) : -1074 < d -> fexp prec emax d < d.
Proof. unfold fexp. change (SpecFloat.emin prec emax) with (-1074). change prec with 53. lia. Qed.

(** A float of the format that is at most the value being rounded is at
    most the rounded value. *)
Lemma binary_round_aux_ge (mx : positive) (ex : Z) (lx : location) (mg : positive) (eg : Z) :
  bounded prec emax mg eg = true ->
  -1074 <= ex ->
  ex <= fexp prec emax (Zpos (digits2_pos mx) + ex) ->
  Zpos mg * 2 ^ (eg + 1074) <= Zpos mx * 2 ^ (ex + 1074) ->
  SFleb (S754_finite false mg eg)
        (binary_round_aux prec emax false (Zpos mx) ex lx) = true.
Proof.
  intros Hb Hex Hn Hv.
  pose proof (bounded_emin _ _ Hb) as Heg.
  pose proof Hb as Hb'. unfold bounded, canonical_mantissa in Hb'.
  apply andb_prop in Hb'. destruct Hb' as [Hc _]. apply Z.eqb_eq in Hc.
  set (D := Zpos (digits2_pos mx) + ex) in *.
  set (e1 := fexp prec emax D) in *.
  assert (HD : Zpos (digits2_pos mg) + eg <= D).
  { pose proof (magnitude_le mg mx (eg + 1074) (ex + 1074) ltac:(lia) ltac:(lia) Hv).
    subst D. lia. }
  assert (Hmin : -1074 < D).
  { pose proof (Pos2Z.is_pos (digits2_pos mg)). lia. }
  assert (Hege1 : eg <= e1).
  { rewrite <- Hc. now apply fexp_le. }
  pose proof (fexp_lt_magnitude D Hmin) as He1D. fold e1 in He1D.
  (* the truncated mantissa *)
  destruct (Zdigits2_div_pow2 mx (e1 - ex) ltac:(subst D; lia)) as (m1 & Hm1 & Hd1).
  assert (Hg1 : eg = e1 -> Zpos mg <= Zpos m1).
  { intros E. rewrite <- Hm1. apply Z.div_le_lower_bound; [apply Z.pow_pos_nonneg; lia|].
    replace (ex + 1074) with ((ex + 1074)) in Hv by lia.
    replace (eg + 1074) with ((e1 - ex) + (ex + 1074)) in Hv by lia.
    rewrite (Z.pow_add_r 2 (e1 - ex) (ex + 1074)), Z.mul_assoc in Hv by lia.
    apply Z.mul_le_mono_pos_r in Hv; [lia | apply Z.pow_pos_nonneg; lia]. }
  unfold binary_round_aux.
  destruct (shr_fexp_m mx ex lx Hn) as [Hs1 Hs2]. fold D e1 in Hs1, Hs2.
  destruct (shr_fexp prec emax (Zpos mx) ex lx) as [mrs' e'] eqn:E1.
  cbn [fst snd] in Hs1, Hs2. subst e'. rewrite Hs1, Hm1.
  pose proof (round_nearest_even_bounds (Zpos m1) (loc_of_shr_record mrs')) as Hr.
  destruct (round_nearest_even (Zpos m1) (loc_of_shr_record mrs')) as [|m2|m2] eqn:E2;
    try lia.
  assert (Hd2 : Zpos (digits2_pos m1) <= Zpos (digits2_pos m2))
    by (apply digits2_pos_le; lia).
  set (D2 := Zpos (digits2_pos m2) + e1).
  assert (HD2 : D <= D2) by (subst D2; lia).
  pose proof (fexp_le _ _ HD2) as Hf2. fold e1 in Hf2.
  destruct (Z_le_gt_dec (fexp prec emax D2) e1) as [Hno|Hshift].
  - (* no second shift *)
    unfold shr_fexp. cbn [Zdigits2 shr_record_of_loc]. fold D2.
    replace (fexp prec emax D2 - e1) with 0 by lia. cbn [shr shr_m].
    destruct (e1 <=? emax - prec); [|reflexivity].
    unfold SFleb. cbn [SFcompare].
    destruct (Z.compare_spec eg e1) as [E|E|E]; [|reflexivity|lia].
    rewrite Pos.compare_cont_spec. cbn [Pos.switch_Eq].
    specialize (Hg1 E).
    destruct (Pos.compare_spec mg m2) as [E'|E'|E']; try reflexivity. lia.
  - (* the rounded mantissa has one digit more: it is shifted again *)
    assert (HD2min : -1074 < D2) by lia.
    pose proof (fexp_lt_magnitude D2 HD2min) as HeD2.
    destruct (shr_fexp_m m2 e1 loc_Exact ltac:(fold D2; lia)) as [Hs3 Hs4].
    fold D2 in Hs3, Hs4.
    destruct (shr_fexp prec emax (Zpos m2) e1 loc_Exact) as [mrs'' e''] eqn:E3.
    cbn [fst snd] in Hs3, Hs4. subst e''. rewrite Hs3.
    destruct (Zdigits2_div_pow2 m2 (fexp prec emax D2 - e1) ltac:(subst D2; lia))
      as (m3 & Hm3 & _).
    rewrite Hm3.
    destruct (fexp prec emax D2 <=? emax - prec); [|reflexivity].
    unfold SFleb. cbn [SFcompare].
    destruct (Z.compare_spec eg (fexp prec emax D2)) as [E|E|E]; [lia|reflexivity|lia].
Qed.

(** The digits of a float of the format. *)
Lemma bounded_digits (m : positive) (e : Z) :
  bounded prec emax m e = true ->
  Zpos (digits2_pos m) <= 53 /\ (-1074 < e -> Zpos (digits2_pos m) = 53).
Proof.
  unfold bounded, canonical_mantissa. intros H.
  apply andb_prop in H. destruct H as [Hc _]. apply Z.eqb_eq in Hc.
  unfold fexp in Hc. change (SpecFloat.emin prec emax) with (-1074) in Hc.
  change prec with 53 in Hc. lia.
Qed.

(** Among positive floats of the format, the order of [<=] is that of
    the values. *)
Lemma SFleb_value (my : positive) (ey : Z) (mx : positive) (ex : Z) :
  bounded prec emax my ey = true -> bounded prec emax mx ex = true ->
  SFleb (S754_finite false my ey) (S754_finite false mx ex) = true ->
  ey <= ex /\ Zpos my * 2 ^ (ey + 1074) <= Zpos mx * 2 ^ (ex + 1074).
Proof.
  intros By Bx H.
  pose proof (bounded_emin _ _ By) as Hey. pose proof (bounded_emin _ _ Bx) as Hex.
  destruct (bounded_digits _ _ By) as [Hdy _]. destruct (bounded_digits _ _ Bx) as [_ Hdx].
  unfold SFleb in H. cbn [SFcompare] in H.
  destruct (Z.compare_spec ey ex) as [E|E|E]; try discriminate H.
  - subst ey. split; [lia|].
    rewrite Pos.compare_cont_spec in H. cbn [Pos.switch_Eq] in H.
    destruct (Pos.compare_spec my mx) as [E'|E'|E']; try discriminate H.
    + subst. lia.
    + apply Z.mul_le_mono_nonneg_r; [apply Z.pow_nonneg|]; lia.
  - split; [lia|].
    pose proof (digits2_pos_bounds my) as [_ Hy]. pose proof (digits2_pos_bounds mx) as [Hx _].
    rewrite Hdx in Hx by lia. change (53 - 1) with 52 in Hx.
    assert (Hy' : Zpos my < 2 ^ 53).
    { eapply Z.lt_le_trans; [exact Hy|]. apply Z.pow_le_mono_r; lia. }
    apply Z.le_trans with (2 ^ 53 * 2 ^ (ey + 1074)).
    { apply Z.mul_le_mono_nonneg_r; [apply Z.pow_nonneg|]; lia. }
    apply Z.le_trans with (2 ^ 52 * 2 ^ (ex + 1074)).
    { rewrite <- !Z.pow_add_r by lia. apply Z.pow_le_mono_r; lia. }
    apply Z.mul_le_mono_nonneg_r; [apply Z.pow_nonneg|]; lia.
Qed.

Lemma digits2_pos_ge (p : positive) (n : Z) :
  0 <= n -> 2 ^ n <= Zpos p -> n + 1 <= Zpos (digits2_pos p).
Proof.
  intros Hn H. rewrite digits2_pos_log2.
  apply Z.log2_le_pow2 in H; lia.
Qed.

(** A quotient of a positive float by a smaller one is at least one. *)
Lemma SFdiv_ge_one (mx : positive) (ex : Z) (my : positive) (ey : Z) :
  bounded prec emax mx ex = true -> bounded prec emax my ey = true ->
  SFleb (S754_finite false my ey) (S754_finite false mx ex) = true ->
  SFleb SFone (SFdiv prec emax (S754_finite false mx ex) (S754_finite false my ey)) = true.
Proof.
  intros Bx By H.
  destruct (SFleb_value _ _ _ _ By Bx H) as [Hee Hv].
  pose proof (bounded_emin _ _ By) as Hey. pose proof (bounded_emin _ _ Bx) as Hex.
  destruct (bounded_digits _ _ By) as [Hdy _]. destruct (bounded_digits _ _ Bx) as [Hdx _].
  pose proof (Pos2Z.is_pos (digits2_pos my)) as Hdy0.
  pose proof (Pos2Z.is_pos (digits2_pos mx)) as Hdx0.
  pose proof (magnitude_le my mx (ey + 1074) (ex + 1074) ltac:(lia) ltac:(lia) Hv) as Hmag.
  set (dx := Zpos (digits2_pos mx)) in *. set (dy := Zpos (digits2_pos my)) in *.
  cbn [SFdiv xorb]. unfold SFdiv_core_binary. cbn [Zdigits2]. fold dx dy.
  set (e' := Z.min (fexp prec emax (dx + ex - (dy + ey))) (ex - ey)).
  assert (He' : e' = dx + ex - (dy + ey) - 53).
  { subst e'. unfold fexp. change (SpecFloat.emin prec emax) with (-1074).
    change prec with 53. lia. }
  assert (Hs : 0 < ex - ey - e') by lia.
  destruct (ex - ey - e') as [|s|s] eqn:Es; try lia.
  rewrite Z.shiftl_mul_pow2 by lia.
  pose proof (Z.div_eucl_eq (Zpos mx * 2 ^ Zpos s) (Zpos my) ltac:(lia)) as Hq.
  pose proof (Z.mod_pos_bound (Zpos mx * 2 ^ Zpos s) (Zpos my) ltac:(lia)) as Hr.
  unfold Z.modulo in Hr.
  destruct (Z.div_eucl (Zpos mx * 2 ^ Zpos s) (Zpos my)) as [q r].
  (* the quotient has at least the digits of the format *)
  pose proof (digits2_pos_bounds mx) as [Hxlo _]. pose proof (digits2_pos_bounds my) as [_ Hyhi].
  fold dx in Hxlo. fold dy in Hyhi.
  assert (Hm' : 2 ^ (52 + dy) <= Zpos mx * 2 ^ Zpos s).
  { replace (52 + dy) with ((dx - 1) + Zpos s) by lia.
    rewrite Z.pow_add_r by lia.
    apply Z.mul_le_mono_nonneg_r; [apply Z.pow_nonneg|]; lia. }
  assert (Hq52 : 2 ^ 52 <= q).
  { rewrite (Z.pow_add_r 2 52 dy) in Hm' by lia.
    assert (0 < 2 ^ dy) by (apply Z.pow_pos_nonneg; lia).
    assert (0 < 2 ^ 52) by (apply Z.pow_pos_nonneg; lia). nia. }
  destruct q as [|q|q];
    try (assert (0 < 2 ^ 52) by (apply Z.pow_pos_nonneg; lia); lia).
  pose proof (digits2_pos_ge q 52 ltac:(lia) Hq52) as Hdq.
  apply binary_round_aux_ge; [reflexivity | lia | | ].
  - unfold fexp. change (SpecFloat.emin prec emax) with (-1074). change prec with 53. lia.
  - change (Z.pos 4503599627370496) with (2 ^ 52).
    rewrite <- Z.pow_add_r by lia. change (52 + (-52 + 1074)) with 1074.
    destruct (Z_le_gt_dec 0 e') as [Hpos|Hneg].
    + apply Z.le_trans with (1 * 2 ^ (e' + 1074)).
      * rewrite Z.mul_1_l. apply Z.pow_le_mono_r; lia.
      * apply Z.mul_le_mono_nonneg_r; [apply Z.pow_nonneg|]; lia.
    + (* the values give my * 2^(-e') <= mx * 2^s *)
      assert (Hq' : 2 ^ (- e') <= Zpos q).
      { assert (Hle : Zpos my * 2 ^ (- e') <= Zpos mx * 2 ^ Zpos s).
        { replace (Zpos s) with ((ex - ey) + (- e')) by lia.
          rewrite (Z.pow_add_r 2 (ex - ey) (- e')), Z.mul_assoc by lia.
          apply Z.mul_le_mono_nonneg_r; [apply Z.pow_nonneg; lia|].
          replace (ex + 1074) with ((ex - ey) + (ey + 1074)) in Hv by lia.
          rewrite (Z.pow_add_r 2 (ex - ey) (ey + 1074)), Z.mul_assoc in Hv by lia.
          apply Z.mul_le_mono_pos_r in Hv; [exact Hv | apply Z.pow_pos_nonneg; lia]. }
        assert (0 < 2 ^ (- e')) by (apply Z.pow_pos_nonneg; lia).
        nia. }
      replace 1074 with ((- e') + (e' + 1074)) at 1 by lia.
      rewrite (Z.pow_add_r 2 (- e') (e' + 1074)) by lia.
      apply Z.mul_le_mono_nonneg_r; [apply Z.pow_nonneg|]; lia.
Qed.

(** A hundred times a float that is at least one is at least a hundred. *)
Lemma SFmul_hundred_ge (q : spec_float) :
  valid_binary q = true -> SFleb SFone q = true ->
  SFleb SFhundred (SFmul prec emax q SFhundred) = true.
Proof.
  intros Vq H. destruct q as [s|[|]| |[|] mq eq]; try discriminate H; try reflexivity.
  cbn [valid_binary] in Vq.
  destruct (SFleb_value 4503599627370496 (-52) mq eq eq_refl Vq H) as [He Hv].
  destruct (bounded_digits _ _ Vq) as [_ Hdq]. specialize (Hdq ltac:(lia)).
  pose proof (digits2_pos_bounds mq) as [Hlo _]. rewrite Hdq in Hlo.
  change (53 - 1) with 52 in Hlo.
  unfold SFhundred. cbn [SFmul xorb].
  apply binary_round_aux_ge; [reflexivity | lia | | ].
  - assert (Hd : 104 + 1 <= Zpos (digits2_pos (mq * 7036874417766400))).
    { apply digits2_pos_ge; [lia|]. rewrite Pos2Z.inj_mul.
      change (2 ^ 104) with (2 ^ 52 * 2 ^ 52).
      apply Z.mul_le_mono_nonneg; try lia. }
    unfold fexp. change (SpecFloat.emin prec emax) with (-1074). change prec with 53. lia.
  - change (Z.pos 4503599627370496) with (2 ^ 52) in Hv.
    rewrite <- Z.pow_add_r in Hv by lia. change (52 + (-52 + 1074)) with 1074 in Hv.
    rewrite Pos2Z.inj_mul.
    replace (eq + 1074) with ((eq + -46 + 1074) + 46) in Hv by lia.
    rewrite (Z.pow_add_r 2 (eq + -46 + 1074) 46) in Hv by lia.
    change 1074 with (-46 + 1074 + 46) in Hv at 1.
    rewrite (Z.pow_add_r 2 (-46 + 1074) 46) in Hv by lia.
    rewrite Z.mul_assoc in Hv.
    apply Z.mul_le_mono_pos_r in Hv; [|apply Z.pow_pos_nonneg; lia].
    rewrite (Z.mul_comm (Zpos mq)), <- Z.mul_assoc.
    apply Z.mul_le_mono_nonneg_l; [lia | exact Hv].
Qed.

(** *** Upper bounds *)

Lemma shr_m_shr (r : shr_record) (e n : Z) :
  0 <= shr_m r ->
  shr_m (fst (shr r e n)) = shr_m r / 2 ^ Z.max 0 n /\ snd (shr r e n) = e + Z.max 0 n.
Proof.
  intros H. unfold shr. destruct n as [|k|k]; cbn [fst snd].
  - change (Z.max 0 0) with 0. rewrite Z.div_1_r. split; lia.
  - rewrite iter_pos_nat, shr_m_iter, positive_nat_Z by exact H.
    replace (Z.max 0 (Zpos k)) with (Zpos k) by lia. split; lia.
  - replace (Z.max 0 (Zneg k)) with 0 by lia. rewrite Z.div_1_r. split; lia.
Qed.

Lemma shr_m_record_of_loc (m : Z) (l : location) : shr_m (shr_record_of_loc m l) = m.
Proof. now destruct l as [|[| |]]. Qed.

Lemma Zdigits2_nonneg (m : Z) : 0 <= Zdigits2 m.
Proof. destruct m; cbn; lia. Qed.

(** Rounding keeps the sign. *)
Lemma binary_round_aux_sign (s : bool) (m e : Z) (l : location) :
  0 <= m ->
  match binary_round_aux prec emax s m e l with
  | S754_zero s' | S754_infinity s' | S754_finite s' _ _ => s' = s
  | S754_nan => False
  end.
Proof.
  intros Hm. unfold binary_round_aux, shr_fexp.
  destruct (shr_m_shr (shr_record_of_loc m l) e (fexp prec emax (Zdigits2 m + e) - e)
              ltac:(rewrite shr_m_record_of_loc; exact Hm)) as [H1 _].
  rewrite shr_m_record_of_loc in H1.
  destruct (shr (shr_record_of_loc m l) e (fexp prec emax (Zdigits2 m + e) - e))
    as [mrs' e'] eqn:E1. cbn [fst] in H1.
  assert (H1' : 0 <= shr_m mrs').
  { rewrite H1. apply Z.div_pos; [exact Hm | apply Z.pow_pos_nonneg; lia]. }
  pose proof (round_nearest_even_bounds (shr_m mrs') (loc_of_shr_record mrs')) as Hr.
  set (m2 := round_nearest_even (shr_m mrs') (loc_of_shr_record mrs')) in *.
  destruct (shr_m_shr (shr_record_of_loc m2 loc_Exact) e'
              (fexp prec emax (Zdigits2 m2 + e') - e')
              ltac:(rewrite shr_m_record_of_loc; lia)) as [H2 _].
  rewrite shr_m_record_of_loc in H2.
  destruct (shr (shr_record_of_loc m2 loc_Exact) e' (fexp prec emax (Zdigits2 m2 + e') - e'))
    as [mrs'' e''] eqn:E2. cbn [fst] in H2.
  assert (H2' : 0 <= shr_m mrs'').
  { rewrite H2. apply Z.div_pos; [lia | apply Z.pow_pos_nonneg; lia]. }
  destruct (shr_m mrs'') as [|p|p]; try lia; [reflexivity|].
  destruct (e'' <=? emax - prec); reflexivity.
Qed.

(** A float of the format that is at least the value being rounded is at
    least the rounded value. The value is [mx * 2^ex] when [lx] is exact
    and lies strictly between that and [(mx + 1) * 2^ex] otherwise. *)
Lemma binary_round_aux_le (K : Z) (mx ex : Z) (lx : location) (mg : positive) (eg : Z) :
  bounded prec emax mg eg = true ->
  0 <= mx -> 0 <= ex + K ->
  ex <= fexp prec emax (Zdigits2 mx + ex) ->
  mx * 2 ^ (ex + K) <= Zpos mg * 2 ^ (eg + K) ->
  (lx <> loc_Exact -> mx * 2 ^ (ex + K) < Zpos mg * 2 ^ (eg + K)) ->
  SFleb (binary_round_aux prec emax false mx ex lx) (S754_finite false mg eg) = true.
Proof.
  intros Hb Hmx HexK Hn Hv Hstrict.
  pose proof (bounded_emin _ _ Hb) as Heg.
  pose proof Hb as Hb'. unfold bounded, canonical_mantissa in Hb'.
  apply andb_prop in Hb'. destruct Hb' as [Hc Hmax].
  apply Z.eqb_eq in Hc. apply Z.leb_le in Hmax.
  set (D := Zdigits2 mx + ex) in *. set (e1 := fexp prec emax D) in *.
  (* the exponent of the rounding is at most that of the bound *)
  assert (He1 : e1 <= eg /\ 0 <= eg + K).
  { destruct mx as [|p|p]; try lia.
    - subst e1 D. cbn [Zdigits2] in *. unfold fexp in *.
      change (SpecFloat.emin prec emax) with (-1074) in *. change prec with 53 in *. lia.
    - assert (HegK : 0 <= eg + K).
      { destruct (Z_le_gt_dec 0 (eg + K)) as [G|G]; [exact G|].
        rewrite (Z.pow_neg_r 2 (eg + K)) in Hv by lia.
        assert (0 < 2 ^ (ex + K)) by (apply Z.pow_pos_nonneg; lia). nia. }
      split; [|exact HegK].
      pose proof (magnitude_le p mg (ex + K) (eg + K) HexK HegK Hv) as Hmag.
      rewrite <- Hc. apply fexp_le. subst D. cbn [Zdigits2]. lia. }
  destruct He1 as [He1 HegK].
  set (n := e1 - ex) in *.
  set (G1 := Zpos mg * 2 ^ (eg - e1)).
  assert (Hp : 0 < 2 ^ n) by (apply Z.pow_pos_nonneg; lia).
  assert (HG : Zpos mg * 2 ^ (eg + K) = G1 * 2 ^ n * 2 ^ (ex + K)).
  { subst G1. rewrite <- !Z.mul_assoc, <- !Z.pow_add_r by lia. do 2 f_equal. lia. }
  assert (HpK : 0 < 2 ^ (ex + K)) by (apply Z.pow_pos_nonneg; lia).
  assert (Hle : mx <= G1 * 2 ^ n).
  { rewrite HG in Hv. apply Z.mul_le_mono_pos_r in Hv; assumption. }
  (* the first shift *)
  unfold binary_round_aux, shr_fexp. fold D e1 n.
  destruct (shr_m_shr (shr_record_of_loc mx lx) ex n
              ltac:(rewrite shr_m_record_of_loc; exact Hmx)) as [H1 H1e].
  rewrite shr_m_record_of_loc in H1. replace (Z.max 0 n) with n in H1, H1e by lia.
  assert (Hexact : mx = G1 * 2 ^ n ->
                   loc_of_shr_record (fst (shr (shr_record_of_loc mx lx) ex n)) = loc_Exact).
  { intros E. assert (Hlx : lx = loc_Exact).
    { destruct lx; [reflexivity|]. exfalso.
      assert (Hs : loc_Inexact c <> loc_Exact) by discriminate.
      specialize (Hstrict Hs). rewrite HG, E in Hstrict. lia. }
    subst lx. cbn [shr_record_of_loc].
    assert (HG1 : 0 < G1).
    { subst G1. apply Z.mul_pos_pos; [lia | apply Z.pow_pos_nonneg; lia]. }
    destruct G1 as [|g|g] eqn:EG; try lia.
    destruct mx as [|p|p]; try lia.
    destruct n as [|k|k] eqn:En; try lia.
    - reflexivity.
    - rewrite (shr_exact k p g ex E). reflexivity. }
  destruct (shr (shr_record_of_loc mx lx) ex n) as [mrs' e'] eqn:E1.
  cbn [fst snd] in H1, H1e, Hexact. subst e'. replace (ex + n) with e1 by lia.
  set (m2 := round_nearest_even (shr_m mrs') (loc_of_shr_record mrs')).
  assert (Hm2 : 0 <= m2 <= G1).
  { pose proof (round_nearest_even_bounds (shr_m mrs') (loc_of_shr_record mrs')) as Hr.
    fold m2 in Hr.
    assert (0 <= shr_m mrs') by (rewrite H1; apply Z.div_pos; lia).
    split; [lia|].
    destruct (Z.eq_dec mx (G1 * 2 ^ n)) as [E|E].
    - subst m2. rewrite (Hexact E). cbn [round_nearest_even].
      rewrite H1, E, Z.div_mul; lia.
    - assert (shr_m mrs' < G1).
      { rewrite H1. apply Z.div_lt_upper_bound; [exact Hp|]. lia. }
      lia. }
  (* the second shift *)
  destruct (shr_m_shr (shr_record_of_loc m2 loc_Exact) e1
              (fexp prec emax (Zdigits2 m2 + e1) - e1)
              ltac:(rewrite shr_m_record_of_loc; lia)) as [H2 H2e].
  rewrite shr_m_record_of_loc in H2.
  set (n2 := Z.max 0 (fexp prec emax (Zdigits2 m2 + e1) - e1)) in *.
  destruct (shr (shr_record_of_loc m2 loc_Exact) e1 (fexp prec emax (Zdigits2 m2 + e1) - e1))
    as [mrs'' e''] eqn:E2.
  cbn [fst snd] in H2, H2e. subst e''.
  assert (Hp2 : 0 < 2 ^ n2) by (apply Z.pow_pos_nonneg; lia).
  assert (H2' : 0 <= shr_m mrs'').
  { rewrite H2. apply Z.div_pos; lia. }
  destruct (shr_m mrs'') as [|m3|m3] eqn:E3; try lia; [reflexivity|].
  assert (Hm2pos : 0 < m2).
  { destruct (Z.eq_dec m2 0) as [Z0|Z0]; [|lia].
    rewrite Z0, Z.div_0_l in H2 by lia. lia. }
  destruct m2 as [|p2|p2] eqn:Em2; try lia.
  assert (He3 : e1 + n2 <= eg).
  { assert (Hv2 : Zpos p2 * 2 ^ (e1 + K) <= Zpos mg * 2 ^ (eg + K)).
    { replace (eg + K) with ((eg - e1) + (e1 + K)) by lia.
      rewrite (Z.pow_add_r 2 (eg - e1) (e1 + K)), Z.mul_assoc by lia.
      apply Z.mul_le_mono_nonneg_r; [apply Z.pow_nonneg; lia | fold G1; lia]. }
    pose proof (magnitude_le p2 mg (e1 + K) (eg + K) ltac:(lia) HegK Hv2) as Hmag.
    assert (Hmag' : Zpos (digits2_pos p2) + e1 <= Zpos (digits2_pos mg) + eg) by lia.
    apply fexp_le in Hmag'. rewrite Hc in Hmag'. cbn [Zdigits2] in n2. lia. }
  replace (e1 + n2 <=? emax - prec) with true
    by (symmetry; apply Z.leb_le; lia).
  unfold SFleb. cbn [SFcompare].
  destruct (Z.compare_spec (e1 + n2) eg) as [E|E|E]; [|reflexivity|lia].
  rewrite Pos.compare_cont_spec. cbn [Pos.switch_Eq].
  destruct (Pos.compare_spec m3 mg) as [E'|E'|E']; try reflexivity.
  exfalso.
  assert (Zpos m3 <= Zpos mg); [|lia].
  rewrite H2. apply Z.div_le_upper_bound; [exact Hp2|].
  replace n2 with (eg - e1) by lia. fold G1. lia.
Qed.

(** Among positive floats of the format, a float that is not at least
    another is smaller by a relative step or more. *)
Lemma SFleb_false_value (my : positive) (ey : Z) (mx : positive) (ex : Z) :
  bounded prec emax my ey = true -> bounded prec emax mx ex = true ->
  SFleb (S754_finite false my ey) (S754_finite false mx ex) = false ->
  ex <= ey
  /\ Zpos (digits2_pos mx) + ex <= Zpos (digits2_pos my) + ey
  /\ Zpos mx * 2 ^ 53 <= (2 ^ 53 - 1) * (Zpos my * 2 ^ (ey - ex)).
Proof.
  intros By Bx H.
  pose proof (bounded_emin _ _ By) as Hey. pose proof (bounded_emin _ _ Bx) as Hex.
  destruct (bounded_digits _ _ By) as [Hdy Hdy']. destruct (bounded_digits _ _ Bx) as [Hdx _].
  pose proof (digits2_pos_bounds my) as [Hylo Hyhi].
  pose proof (digits2_pos_bounds mx) as [_ Hxhi].
  assert (Hx53 : Zpos mx < 2 ^ 53).
  { eapply Z.lt_le_trans; [exact Hxhi|]. apply Z.pow_le_mono_r; lia. }
  assert (Hy53 : Zpos my < 2 ^ 53).
  { eapply Z.lt_le_trans; [exact Hyhi|]. apply Z.pow_le_mono_r; lia. }
  unfold SFleb in H. cbn [SFcompare] in H.
  destruct (Z.compare_spec ey ex) as [E|E|E]; try discriminate H.
  - subst ey. rewrite Pos.compare_cont_spec in H. cbn [Pos.switch_Eq] in H.
    destruct (Pos.compare_spec my mx) as [E'|E'|E']; try discriminate H.
    split; [lia|]. split.
    + pose proof (digits2_pos_le mx my ltac:(lia)). lia.
    + rewrite Z.sub_diag, Z.mul_1_r.
      change (2 ^ 53) with 9007199254740992 in *. lia.
  - split; [lia|]. split; [lia|].
    rewrite Hdy' in Hylo by lia. change (53 - 1) with 52 in Hylo.
    assert (Ht : 2 <= 2 ^ (ey - ex)).
    { change 2 with (2 ^ 1) at 1. apply Z.pow_le_mono_r; lia. }
    change (2 ^ 53) with 9007199254740992 in *.
    change (2 ^ 52) with 4503599627370496 in *.
    nia.
Qed.

Lemma new_location_exact (n r : Z) : new_location n r <> loc_Exact -> r <> 0.
Proof.
  intros H ->. apply H. unfold new_location, new_location_even, new_location_odd.
  now destruct (Z.even n).
Qed.

(** A quotient of a positive float by a larger one is below one. *)
Lemma SFdiv_le_below_one (mx : positive) (ex : Z) (my : positive) (ey : Z) :
  bounded prec emax mx ex = true -> bounded prec emax my ey = true ->
  SFleb (S754_finite false my ey) (S754_finite false mx ex) = false ->
  SFleb (SFdiv prec emax (S754_finite false mx ex) (S754_finite false my ey)) SFbelow_one
  = true.
Proof.
  intros Bx By H.
  destruct (SFleb_false_value _ _ _ _ By Bx H) as (Hee & Hmag & Hv).
  pose proof (bounded_emin _ _ By) as Hey. pose proof (bounded_emin _ _ Bx) as Hex.
  pose proof By as By'. unfold bounded in By'. apply andb_prop in By'.
  destruct By' as [_ Hymax]. apply Z.leb_le in Hymax.
  change (emax - prec) with 971 in Hymax.
  destruct (bounded_digits _ _ By) as [Hdy _]. destruct (bounded_digits _ _ Bx) as [Hdx _].
  pose proof (Pos2Z.is_pos (digits2_pos my)) as Hdy0.
  pose proof (Pos2Z.is_pos (digits2_pos mx)) as Hdx0.
  pose proof (digits2_pos_bounds mx) as [Hxlo _]. pose proof (digits2_pos_bounds my) as [_ Hyhi].
  set (dx := Zpos (digits2_pos mx)) in *. set (dy := Zpos (digits2_pos my)) in *.
  cbn [SFdiv xorb]. unfold SFdiv_core_binary. cbn [Zdigits2]. fold dx dy.
  set (e' := Z.min (fexp prec emax (dx + ex - (dy + ey))) (ex - ey)).
  assert (He' : e' <= fexp prec emax (dx + ex - (dy + ey)) /\ e' <= -53 /\ -2045 <= e'
                /\ e' <= ex - ey).
  { subst e'. unfold fexp. change (SpecFloat.emin prec emax) with (-1074).
    change prec with 53. lia. }
  destruct He' as (He'f & He'53 & He'lo & He's).
  set (s := ex - ey - e') in *.
  assert (Hm' : match s with Z.pos _ => Z.shiftl (Zpos mx) s | 0 => Zpos mx | Z.neg _ => 0 end
                = Zpos mx * 2 ^ s).
  { destruct s as [|k|k] eqn:Es; try lia.
    - now rewrite Z.shiftl_mul_pow2. }
  rewrite Hm'.
  assert (Hps : 0 < 2 ^ s) by (apply Z.pow_pos_nonneg; lia).
  pose proof (Z.div_eucl_eq (Zpos mx * 2 ^ s) (Zpos my) ltac:(lia)) as Hq.
  pose proof (Z.mod_pos_bound (Zpos mx * 2 ^ s) (Zpos my) ltac:(lia)) as Hr.
  pose proof (Z.div_pos (Zpos mx * 2 ^ s) (Zpos my) ltac:(lia) ltac:(lia)) as Hq0.
  unfold Z.modulo in Hr. unfold Z.div in Hq0.
  destruct (Z.div_eucl (Zpos mx * 2 ^ s) (Zpos my)) as [q r].
  (* the bound, in units of the quotient *)
  set (G := (2 ^ 53 - 1) * 2 ^ (-53 - e')).
  assert (HG : Zpos mx * 2 ^ s <= G * Zpos my).
  { assert (Hc : Zpos mx * 2 ^ s * 2 ^ 53 <= G * Zpos my * 2 ^ 53).
    { subst G. replace (2 ^ s) with (2 ^ s) by reflexivity.
      apply Z.le_trans with ((2 ^ 53 - 1) * (Zpos my * 2 ^ (ey - ex)) * 2 ^ s).
      { rewrite <- (Z.mul_assoc (Zpos mx)), (Z.mul_comm (2 ^ s)), Z.mul_assoc.
        apply Z.mul_le_mono_nonneg_r; lia. }
      apply Z.eq_le_incl.
      rewrite <- !Z.mul_assoc. f_equal.
      rewrite (Z.mul_comm (2 ^ (-53 - e'))), <- !Z.mul_assoc. f_equal.
      rewrite <- !Z.pow_add_r by lia. f_equal. lia. }
    apply Z.mul_le_mono_pos_r in Hc; [exact Hc | now vm_compute]. }
  assert (HqG : q <= G /\ (r <> 0 -> q < G)) by (split; [|intros]; nia).
  destruct HqG as [HqG HqG'].
  assert (Hdq : dx + s - dy <= Zdigits2 q).
  { pose proof (Zdigits2_nonneg q) as H0.
    destruct (Z_le_gt_dec (dx + s - dy) 0) as [L|L]; [lia|].
    assert (Hlo : 2 ^ (dx + s - dy - 1) <= q).
    { assert (Hm : 2 ^ (dx + s - dy - 1) * 2 ^ dy <= Zpos mx * 2 ^ s).
      { rewrite <- Z.pow_add_r by lia.
        replace (dx + s - dy - 1 + dy) with ((dx - 1) + s) by lia.
        rewrite Z.pow_add_r by lia.
        apply Z.mul_le_mono_nonneg_r; lia. }
      assert (0 < 2 ^ (dx + s - dy - 1)) by (apply Z.pow_pos_nonneg; lia).
      assert (0 < 2 ^ dy) by (apply Z.pow_pos_nonneg; lia).
      nia. }
    assert (0 < 2 ^ (dx + s - dy - 1)) by (apply Z.pow_pos_nonneg; lia).
    destruct q as [|q|q]; try lia.
    pose proof (digits2_pos_ge q (dx + s - dy - 1) ltac:(lia) Hlo).
    cbn [Zdigits2]. lia. }
  assert (HGK : Z.pos 9007199254740991 * 2 ^ (-53 + 2200) = G * 2 ^ (e' + 2200)).
  { subst G. change (Z.pos 9007199254740991) with (2 ^ 53 - 1).
    rewrite <- Z.mul_assoc, <- Z.pow_add_r by lia. do 2 f_equal. lia. }
  assert (HpK : 0 < 2 ^ (e' + 2200)) by (apply Z.pow_pos_nonneg; lia).
  apply (binary_round_aux_le 2200); [reflexivity | lia | lia | | | ].
  - eapply Z.le_trans; [exact He'f|]. apply fexp_le. lia.
  - rewrite HGK. apply Z.mul_le_mono_nonneg_r; lia.
  - intros Hl. apply new_location_exact in Hl. specialize (HqG' Hl).
    rewrite HGK. apply Z.mul_lt_mono_pos_r; lia.
Qed.

Lemma SFmul_below_hundred (mq : positive) (eq : Z) :
  bounded prec emax mq eq = true ->
  SFleb (S754_finite false mq eq) (S754_finite false 9007199254740990 (-53)) = true ->
  SFleb (SFmul prec emax (S754_finite false mq eq) SFhundred) SFbelow_hundred = true.
Proof.
  intros Vq H.
  destruct (SFleb_value mq eq 9007199254740990 (-53) Vq eq_refl H) as [He Hv].
  pose proof (bounded_emin _ _ Vq) as Heq.
  pose proof (digits2_pos_bounds mq) as [Hlo _].
  pose proof (Pos2Z.is_pos (digits2_pos mq)) as Hd0.
  unfold SFhundred, SFbelow_hundred. cbn [SFmul xorb].
  apply (binary_round_aux_le 1120); [reflexivity | lia | lia | | | intros C; now elim C].
  - cbn [Zdigits2].
    assert (Hd : (Zpos (digits2_pos mq) + 51) + 1
                 <= Zpos (digits2_pos (mq * 7036874417766400))).
    { apply digits2_pos_ge; [lia|]. rewrite Pos2Z.inj_mul.
      replace (Zpos (digits2_pos mq) + 51) with ((Zpos (digits2_pos mq) - 1) + 52) by lia.
      rewrite Z.pow_add_r by lia.
      apply Z.mul_le_mono_nonneg; lia. }
    unfold fexp. change (SpecFloat.emin prec emax) with (-1074). change prec with 53. lia.
  - rewrite Pos2Z.inj_mul.
    replace (eq + -46 + 1120) with (eq + 1074) by lia.
    change (-46 + 1120) with (52 + 1022). change (-53 + 1074) with 1021 in Hv.
    rewrite (Z.pow_add_r 2 52 1022) by lia.
    change (Z.pos 9007199254740990) with (2 * 4503599627370495) in Hv.
    rewrite <- Z.mul_assoc, (Z.mul_comm 2 (_ * _)), <- Z.mul_assoc in Hv.
    change (2 ^ 1021 * 2) with (2 ^ 1022) in Hv.
    assert (HP : 0 < 2 ^ 1022) by (apply Z.pow_pos_nonneg; lia).
    assert (HU : 0 < 2 ^ (eq + 1074)) by (apply Z.pow_pos_nonneg; lia).
    set (P := 2 ^ 1022) in *. set (U := 2 ^ (eq + 1074)) in *.
    change (2 ^ 52) with 4503599627370496.
    apply Z.le_trans with (7036874417766400 * (4503599627370495 * P)).
    + rewrite (Z.mul_comm (Zpos mq)), <- Z.mul_assoc.
      apply Z.mul_le_mono_nonneg_l; lia.
    + rewrite !Z.mul_assoc. apply Z.mul_le_mono_nonneg_r; lia.
Qed.

(** The order of two positive floats, on their exponents and mantissas. *)
Lemma SFleb_finite (m1 : positive) (e1 : Z) (m2 : positive) (e2 : Z) :
  SFleb (S754_finite false m1 e1) (S754_finite false m2 e2) = true
  <-> e1 < e2 \/ (e1 = e2 /\ Zpos m1 <= Zpos m2).
Proof.
  unfold SFleb. cbn [SFcompare].
  destruct (Z.compare_spec e1 e2) as [E|E|E].
  - rewrite Pos.compare_cont_spec. cbn [Pos.switch_Eq].
    destruct (Pos.compare_spec m1 m2) as [E'|E'|E'].
    + subst. split; [right; split; [reflexivity | apply Z.le_refl] | reflexivity].
    + apply Pos2Z.pos_lt_pos in E'. split; [right; split; [assumption | apply Z.lt_le_incl; assumption] | reflexivity].
    + apply Pos2Z.pos_lt_pos in E'. split; [discriminate|].
      intros [L|[_ L]]; [subst; apply Z.lt_irrefl in L; contradiction|].
      exfalso. apply (Z.lt_irrefl (Zpos m1)). eapply Z.le_lt_trans; eassumption.
  - split; [now left | reflexivity].
  - split; [discriminate|]. intros [L|[L _]]; exfalso.
    + apply (Z.lt_irrefl e1). eapply Z.lt_trans; eassumption.
    + subst. apply Z.lt_irrefl in E. contradiction.
Qed.

(** A hundred times a float below one is below a hundred. *)
Lemma SFmul_hundred_lt (q : spec_float) :
  valid_binary q = true -> SFleb q SFbelow_one = true ->
  SFleb SFhundred (SFmul prec emax q SFhundred) = false.
Proof.
  intros Vq H.
  destruct q as [s|[|]| |[|] mq eq]; try discriminate H; try reflexivity.
  - (* a negative float *)
    unfold SFhundred. cbn [SFmul xorb].
    pose proof (binary_round_aux_sign true (Zpos (mq * 7036874417766400)) (eq + -46)
                  loc_Exact (Pos2Z.is_nonneg _)) as Hs.
    destruct (binary_round_aux prec emax true (Zpos (mq * 7036874417766400)) (eq + -46)
                loc_Exact) as [s|s| |s m e]; try contradiction; subst s; reflexivity.
  - cbn [valid_binary] in Vq. unfold SFbelow_one in H. apply SFleb_finite in H.
    destruct (Z.eq_dec eq (-53)) as [Ee|Ee].
    + destruct (Z.eq_dec (Zpos mq) 9007199254740991) as [Em|Em].
      * injection Em as ->. subst eq. now vm_compute.
      * apply not_true_is_false. intros Hc.
        assert (Hlt : SFleb (SFmul prec emax (S754_finite false mq eq) SFhundred)
                        SFbelow_hundred = true).
        { apply SFmul_below_hundred; [exact Vq|]. apply SFleb_finite.
          right. split; [exact Ee|]. clear - H Ee Em. lia. }
        now pose proof (SFleb_trans _ _ _ Hc Hlt).
    + apply not_true_is_false. intros Hc.
      assert (Hlt : SFleb (SFmul prec emax (S754_finite false mq eq) SFhundred)
                      SFbelow_hundred = true).
      { apply SFmul_below_hundred; [exact Vq|]. apply SFleb_finite.
        left. clear - H Ee. lia. }
      now pose proof (SFleb_trans _ _ _ Hc Hlt).
Qed.

(** A negative float divided by a positive one is not positive. *)
Lemma SFdiv_negative (mx : positive) (ex : Z) (my : positive) (ey : Z) :
  SFleb (SFdiv prec emax (S754_finite true mx ex) (S754_finite false my ey)) SFbelow_one
  = true.
Proof.
  cbn [SFdiv xorb].
  destruct (SFdiv_core_binary prec emax (Zpos mx) ex (Zpos my) ey) as [[mz ez] lz] eqn:E.
  assert (Hmz : 0 <= mz).
  { unfold SFdiv_core_binary in E.
    set (m' := match ex - ey - _ with Z.pos _ => _ | 0 => _ | Z.neg _ => _ end) in E.
    assert (Hm' : 0 <= m').
    { subst m'. destruct (ex - ey - _) as [|k|k]; try lia.
      rewrite Z.shiftl_mul_pow2 by lia.
      apply Z.mul_nonneg_nonneg; [lia | apply Z.pow_nonneg; lia]. }
    pose proof (Z.div_pos m' (Zpos my) Hm' ltac:(lia)) as Hq. unfold Z.div in Hq.
    destruct (Z.div_eucl m' (Zpos my)) as [q r]. now injection E as <- _ _. }
  pose proof (binary_round_aux_sign true mz ez lz Hmz) as Hs.
  destruct (binary_round_aux prec emax true mz ez lz) as [s|s| |s m e];
    try contradiction; subst s; reflexivity.
Qed.

End RoundingBounds.

(** [spent / amount * 100 >= 100] as soon as [spent >= amount], for a
    finite positive [amount]. *)
Lemma ratio_reaches_hundred (spent amount : float) :
  PrimFloat.ltb 0 amount = true -> PrimFloat.ltb amount infinity = true ->
  PrimFloat.leb amount spent = true ->
  PrimFloat.leb 100 (spent / amount * 100) = true.
Proof.
  rewrite FloatAxioms.ltb_spec, FloatAxioms.ltb_spec, !FloatAxioms.leb_spec,
    FloatAxioms.mul_spec, FloatAxioms.div_spec.
  pose proof (Prim2SF_valid spent) as Vs. pose proof (Prim2SF_valid amount) as Va.
  pose proof (Prim2SF_valid (spent / amount)) as Vq. rewrite FloatAxioms.div_spec in Vq.
  change (Prim2SF 0) with (S754_zero false).
  change (Prim2SF infinity) with (S754_infinity false).
  change (Prim2SF 100) with SFhundred.
  destruct (Prim2SF amount) as [sa|sa| |sa ma ea]; try discriminate;
    destruct sa; try discriminate.
  intros _ _ H.
  apply SFmul_hundred_ge.
  - exact Vq.
  - destruct (Prim2SF spent) as [ss|[|]| |[|] ms es]; try discriminate H.
    + reflexivity.
    + now apply SFdiv_ge_one.
Qed.

(** [spent / amount * 100 >= 100] fails as soon as [spent >= amount]
    does, for a finite positive [amount]. *)
Lemma ratio_below_hundred (spent amount : float) :
  PrimFloat.ltb 0 amount = true -> PrimFloat.ltb amount infinity = true ->
  PrimFloat.leb amount spent = false ->
  PrimFloat.leb 100 (spent / amount * 100) = false.
Proof.
  rewrite FloatAxioms.ltb_spec, FloatAxioms.ltb_spec, !FloatAxioms.leb_spec,
    FloatAxioms.mul_spec, FloatAxioms.div_spec.
  pose proof (Prim2SF_valid spent) as Vs. pose proof (Prim2SF_valid amount) as Va.
  pose proof (Prim2SF_valid (spent / amount)) as Vq. rewrite FloatAxioms.div_spec in Vq.
  change (Prim2SF 0) with (S754_zero false).
  change (Prim2SF infinity) with (S754_infinity false).
  change (Prim2SF 100) with SFhundred.
  destruct (Prim2SF amount) as [sa|sa| |sa ma ea]; try discriminate;
    destruct sa; try discriminate.
  intros _ _ H.
  destruct (Prim2SF spent) as [ss|[|]| |[|] ms es]; try discriminate H; try reflexivity.
  - apply SFmul_hundred_lt; [exact Vq | apply SFdiv_negative].
  - apply SFmul_hundred_lt; [exact Vq | now apply SFdiv_le_below_one].
Qed.

(** For a finite positive ceiling, the ratio reaches 100 exactly when
    the amount spent reaches the ceiling. *)
Lemma ratio_hundred_iff (spent amount : float) :
  PrimFloat.ltb 0 amount = true -> PrimFloat.ltb amount infinity = true ->
  PrimFloat.leb 100 (spent / amount * 100) = PrimFloat.leb amount spent.
Proof.
  intros H0 Hf. destruct (PrimFloat.leb amount spent) eqn:E.
  - now apply ratio_reaches_hundred.
  - now apply ratio_below_hundred.
Qed.

(** ** The summary card of the reports *)

(** C5. For every set of transactions, the net amount is the total income
    minus the total expense; the savings rate is [net / income * 100]
    (shown with one decimal) when the total income is above zero, and the
    number [0], with no division, when the total income is zero. *)
Theorem savings_rate_guarded (transactions : list Reports.ReportTransaction) :
  let r := Reports.fetchReportData transactions in
  let income := Reports.totalIncome r in
  let expense := Reports.totalExpense r in
  let net := Reports.netAmount income expense in
  net = income - expense
  /\ (gt income 0 = true ->
      Reports.savingsRate income expense = Reports.RateText (net / income * 100) 1)
  /\ ((income =? 0) = true ->
      Reports.savingsRate income expense = Reports.RateNumber 0).
Proof.
  cbv zeta. unfold Reports.savingsRate. split; [reflexivity|]. split.
  - intros ->. reflexivity.
  - intros H. now rewrite (eqb_zero_not_gt _ H).
Qed.

(** An income of 1000 with 400 spent: 60.0; an expense alone: 0. *)
Lemma savings_rate_guarded_witness :
  Reports.savingsRate 1000 400 = Reports.RateText 60 1
  /\ Reports.savingsRate 0 400 = Reports.RateNumber 0.
Proof.
  split.
  - exact (proj1 (proj2 (savings_rate_guarded
                           [Sample.earn 1000; Sample.spend 400 (Some Sample.food)]))
             eq_refl).
  - exact (proj2 (proj2 (savings_rate_guarded [Sample.spend 400 (Some Sample.food)]))
             eq_refl).
Defined.

(** ** Budgets *)

Lemma status_of_cases (p : number) :
  (Budgets.status_of p = Budgets.exceeded <-> ge p 100 = true)
  /\ (Budgets.status_of p = Budgets.warning <-> ge p 80 = true /\ ge p 100 = false)
  /\ (Budgets.status_of p = Budgets.ok <-> ge p 80 = false).
Proof.
  unfold Budgets.status_of.
  assert (H : ge p 100 = true -> ge p 80 = true).
  { unfold ge. now apply leb_trans. }
  destruct (ge p 100) eqn:E100; [rewrite H by reflexivity|];
    destruct (ge p 80) eqn:E80; repeat split; intros; try discriminate;
    try tauto; try (destruct H0; discriminate).
Qed.

(** A product that reaches 100 is clamped to exactly 100. *)
Lemma Math_min_clamped (x : number) : ge x 100 = true -> Math_min x 100 = 100.
Proof.
  unfold ge, Math_min. intros H.
  destruct (leb_not_nan _ _ H) as [_ Hx]. rewrite Hx. cbn [orb].
  change (PrimFloat.is_nan 100) with false. cbv iota.
  rewrite (leb_not_ltb _ _ H).
  destruct (100 <? x); [reflexivity|].
  replace (get_sign x) with false; [reflexivity|].
  unfold get_sign, PrimFloat.is_zero. revert H.
  rewrite FloatAxioms.leb_spec, FloatAxioms.eqb_spec.
  change (Prim2SF 100) with (S754_finite false 7036874417766400 (-46)).
  change (Prim2SF PrimFloat.zero) with (S754_zero false).
  destruct (Prim2SF x) as [s|[|]| |[|] m e] eqn:E; cbn; try discriminate; intros _;
    rewrite FloatAxioms.ltb_spec, E; reflexivity.
Qed.

(** The card of the budgets screen shows the colour and the badge of the
    status. *)
Lemma status_of_rendering (p : number) :
  (Budgets.getProgressColor p, Budgets.warningText p)
  = match Budgets.status_of p with
    | Budgets.exceeded => ("#EF4444", Some "Budget exceeded")
    | Budgets.warning => ("#F59E0B", Some "Almost there")
    | Budgets.ok => ("#10B981", None)
    end.
Proof.
  unfold Budgets.getProgressColor, Budgets.warningText, Budgets.status_of.
  destruct (ge p 100) eqn:E100.
  - assert (H : ge p 80 = true) by (unfold ge in *; now apply (leb_trans 80 100 p)).
    now rewrite H.
  - now destruct (ge p 80).
Qed.

(** C7, as it stands, fails: with a ceiling of 1 and 0.7999999999999999
    spent, [0.8 * amount <= spent] does not hold, and the ratio times 100
    rounds to 80: the card shows the warning. *)
Lemma warning_below_threshold :
  gt 1 0 = true
  /\ le (0.8 * 1) 0.7999999999999999 = false
  /\ Budgets.getProgressPercentage 0.7999999999999999 1 = 80
  /\ Budgets.status 0.7999999999999999 1 = Budgets.warning.
Proof. repeat split. Qed.

(** C7, amended. The percentage is [min(spent / amount * 100, 100)] in
    the arithmetic of JS numbers and, when it is a number, it is at most
    100. The status is read off the ratio times 100 as computed: exceeded
    if and only if it reaches 100, and then the percentage is exactly 100;
    warning if and only if it reaches 80 and not 100; ok otherwise. For a
    ceiling that is finite and positive the ratio reaches 100 exactly when
    [spent >= amount]: the status is exceeded if and only if
    [spent >= amount], and warning if and only if the computed ratio
    reaches 80 while [spent < amount]. *)
Theorem budget_status_thresholds (spent amount : number) :
  let ratio := spent / amount * 100 in
  let percentage := Budgets.getProgressPercentage spent amount in
  percentage = Math_min ratio 100
  /\ (isNaN percentage = true \/ le percentage 100 = true)
  /\ (Budgets.status spent amount = Budgets.exceeded <-> ge ratio 100 = true)
  /\ (Budgets.status spent amount = Budgets.exceeded <-> percentage = 100)
  /\ (Budgets.status spent amount = Budgets.warning
      <-> ge ratio 80 = true /\ ge ratio 100 = false)
  /\ (Budgets.status spent amount = Budgets.ok <-> ge ratio 80 = false)
  /\ (finite_positive amount ->
      (Budgets.status spent amount = Budgets.exceeded <-> ge spent amount = true)
      /\ (ge spent amount = true -> percentage = 100)
      /\ (Budgets.status spent amount = Budgets.warning
          <-> ge ratio 80 = true /\ ge spent amount = false)).
Proof.
  cbv zeta. unfold Budgets.status, Budgets.getProgressPercentage.
  set (ratio := spent / amount * 100).
  pose proof (status_of_cases (Math_min ratio 100)) as (He & Hw & Ho).
  rewrite (ge_Math_min ratio 100 100) in He, Hw by reflexivity.
  rewrite (ge_Math_min ratio 100 80) in Hw, Ho by reflexivity.
  assert (Hc : Budgets.status_of (Math_min ratio 100) = Budgets.exceeded
               <-> Math_min ratio 100 = 100).
  { split.
    - intros H. apply Math_min_clamped. now apply He.
    - intros H. apply He. rewrite <- (ge_Math_min ratio 100 100) by reflexivity.
      now rewrite H. }
  split; [reflexivity|]. split.
  { destruct (isNaN (Math_min ratio 100)) eqn:E; [now left | right].
    now apply Math_min_le. }
  split; [exact He|]. split; [exact Hc|]. split; [exact Hw|]. split; [exact Ho|].
  intros [Hpos Hfin].
  assert (Hr : ge ratio 100 = ge spent amount)
    by (apply ratio_hundred_iff; assumption).
  rewrite Hr in He, Hw. split; [exact He|]. split; [|exact Hw].
  intros H. apply Hc. now apply He.
Qed.

(** A ceiling of 200 with 210 spent. *)
Lemma budget_status_thresholds_witness :
  finite_positive 200
  /\ (Budgets.status 210 200 = Budgets.exceeded <-> ge 210 200 = true)
  /\ Budgets.getProgressPercentage 210 200 = 100.
Proof.
  assert (H : finite_positive 200) by (split; reflexivity).
  destruct (budget_status_thresholds 210 200) as (_ & _ & _ & _ & _ & _ & T).
  destruct (T H) as (He & Hp & _).
  split; [exact H|]. split; [exact He|]. now apply Hp.
Defined.

(** The scenario of the specification: a ceiling of 200 with 180 spent,
    then 210. *)
Example budget_scenario :
  Budgets.getProgressPercentage 180 200 = 90
  /\ Budgets.status 180 200 = Budgets.warning
  /\ Budgets.getProgressPercentage 210 200 = 100
  /\ Budgets.status 210 200 = Budgets.exceeded.
Proof. repeat split. Qed.

(** Amounts in cents: 4.52 is 80% of 5.65, and the card stays green. *)
Example eighty_percent_in_cents :
  (452 * 100 = 80 * 565)%Z
  /\ Budgets.getProgressPercentage 4.52 5.65 = 79.99999999999999
  /\ Budgets.status 4.52 5.65 = Budgets.ok.
Proof. repeat split. Qed.

(** ** The category breakdown *)

(** C3 at an input it fails on: an expense with no category is counted in
    the total and is in no group; no group is named "Uncategorized". *)
Theorem uncategorized_expense_dropped :
  let r := Reports.fetchReportData
             [Sample.spend 30 (Some Sample.food); Sample.spend 50 None] in
  Reports.totalExpense r = 80
  /\ map Reports.cs_category (Reports.categorySpending r) = ["Food"]
  /\ map Reports.cs_amount (Reports.categorySpending r) = [30].
Proof. repeat split. Qed.

(** C4 at an input it fails on: of 100 spent, half without a category,
    the percentages of the breakdown add up to 50. *)
Theorem percentages_fall_short :
  let r := Reports.fetchReportData
             [Sample.spend 50 (Some Sample.food); Sample.spend 50 None] in
  gt (Reports.totalExpense r) 0 = true
  /\ map Reports.cs_percentage (Reports.categorySpending r) = [50]
  /\ sum_percentages r = 50.
Proof. repeat split. Qed.

(** ** The monthly comparison *)

(** C6 at an input it fails on: five hours west of UTC, an income dated
    the first of March is added to February. *)
Theorem first_of_month_west_of_utc :
  Reports.monthlyArray Sample.new_york
    (Some [Sample.on income 500 3 1; Sample.on expense 200 7 15])
  = [Sample.month_row "Jan" 0 0; Sample.month_row "Feb" 500 0;
     Sample.month_row "Mar" 0 0; Sample.month_row "Apr" 0 0;
     Sample.month_row "May" 0 0; Sample.month_row "Jun" 0 0;
     Sample.month_row "Jul" 0 200; Sample.month_row "Aug" 0 0;
     Sample.month_row "Sep" 0 0; Sample.month_row "Oct" 0 0;
     Sample.month_row "Nov" 0 0; Sample.month_row "Dec" 0 0].
Proof. reflexivity. Qed.

(** The scenario of the specification, east of UTC. *)
Example monthly_scenario_east_of_utc :
  Reports.monthlyArray Sample.paris
    (Some [Sample.on income 500 3 1; Sample.on expense 200 7 15])
  = [Sample.month_row "Jan" 0 0; Sample.month_row "Feb" 0 0;
     Sample.month_row "Mar" 500 0; Sample.month_row "Apr" 0 0;
     Sample.month_row "May" 0 0; Sample.month_row "Jun" 0 0;
     Sample.month_row "Jul" 0 200; Sample.month_row "Aug" 0 0;
     Sample.month_row "Sep" 0 0; Sample.month_row "Oct" 0 0;
     Sample.month_row "Nov" 0 0; Sample.month_row "Dec" 0 0].
Proof. reflexivity. Qed.

(** The array has the twelve months, January to December, whatever was
    fetched. *)
Lemma monthlyArray_months (utcOffset : Reports.PgDate -> Z)
    (yearTransactions : option (list Reports.YearTransaction)) :
  map Reports.md_month (Reports.monthlyArray utcOffset yearTransactions) = Reports.months.
Proof. unfold Reports.monthlyArray. rewrite map_map. reflexivity. Qed.

(** ** Signing up *)

(** C8. A sign-up whose requests all go through adds one profile, with
    the currency "USD", and the eight default categories, in order, each
    a system category of the new user with a colour. *)
Theorem signup_provisions (email password fullName : string) (w : World) :
  faults w = [] ->
  let user_id := uuid_of (uuid_count w) in
  let w' := snd (Auth.signUp email password fullName w) in
  fst (Auth.signUp email password fullName w) = None
  /\ profiles w' = profiles w ++
       [{| prof_id := user_id; prof_full_name := fullName; prof_currency := "USD" |}]
  /\ exists added,
       categories w' = categories w ++ added
       /\ map (fun c => (cat_name c, cat_type c)) added
          = [("Salary", income); ("Freelance", income); ("Food & Dining", expense);
             ("Transportation", expense); ("Shopping", expense);
             ("Entertainment", expense); ("Bills & Utilities", expense);
             ("Healthcare", expense)]
       /\ Forall (fun c => cat_is_system c = true /\ cat_color c <> ""
                           /\ cat_user_id c = user_id) added.
Proof.
  intros Hf. destruct w as [accs txs profs cats n fl lg]; cbn in Hf; subst fl.
  cbv zeta. unfold Auth.signUp, Auth.defaultCategories. run_remote.
  split; [reflexivity|]. split; [reflexivity|].
  rewrite <- !app_assoc. cbn [app]. eexists. split; [reflexivity|].
  split; [reflexivity|].
  repeat constructor; discriminate.
Qed.

Lemma signup_provisions_witness :
  fst (Auth.signUp "ann@example.org" "secret" "Ann" Sample.world) = None
  /\ profiles (snd (Auth.signUp "ann@example.org" "secret" "Ann" Sample.world))
     = [{| prof_id := "uuid-0"; prof_full_name := "Ann"; prof_currency := "USD" |}]
  /\ List.length (categories (snd (Auth.signUp "ann@example.org" "secret" "Ann" Sample.world)))
     = 8%nat.
Proof.
  destruct (signup_provisions "ann@example.org" "secret" "Ann" Sample.world eq_refl)
    as (H1 & H2 & _).
  split; [exact H1|]. split; [exact H2 | reflexivity].
Defined.

(** ** Objects used as maps *)

Section Maps.

Context {V : Type}.
Implicit Types (m : list (string * V)) (k : string) (f : V -> V).

Lemma get_update_same m k f :
  Reports.get (Reports.update m k f) k = option_map f (Reports.get m k).
Proof.
  induction m as [|[k' v] m IH]; [reflexivity|]. cbn.
  destruct (k' =? k)%string eqn:E; cbn; rewrite E; [reflexivity | exact IH].
Qed.

Lemma get_update_other m k k' f :
  k' <> k -> Reports.get (Reports.update m k f) k' = Reports.get m k'.
Proof.
  intros Hne. induction m as [|[k0 v] m IH]; [reflexivity|]. cbn.
  destruct (k0 =? k)%string eqn:E; cbn.
  - apply String.eqb_eq in E. subst k0.
    destruct (k =? k')%string eqn:E'; [|reflexivity].
    apply String.eqb_eq in E'. congruence.
  - destruct (k0 =? k')%string; [reflexivity | exact IH].
Qed.

Lemma get_app_new m k k' (v : V) :
  Reports.get (m ++ [(k, v)]) k'
  = match Reports.get m k' with
    | Some e => Some e
    | None => if (k =? k')%string then Some v else None
    end.
Proof.
  induction m as [|[k0 v0] m IH]; [reflexivity|]. cbn.
  destruct (k0 =? k')%string; [reflexivity | exact IH].
Qed.

End Maps.

(** ** The monthly comparison, east of UTC *)

Section Monthly.

Variable utcOffset : Reports.PgDate -> Z.

(** The entry of a key after the loop: the entry it had, or a new one,
    with the transactions of that key added in order. *)
Lemma get_monthlyMap (l : list Reports.YearTransaction)
    (m0 : list (string * Reports.MonthTotal)) (k : string) :
  Reports.get (fold_left (Reports.add_to_month utcOffset) l m0) k
  = let mine := filter (fun t => month_key utcOffset t =? k)%string l in
    match Reports.get m0 k, mine with
    | Some e, _ => Some (fold_left add_to_total mine e)
    | None, [] => None
    | None, _ => Some (fold_left add_to_total mine zero_total)
    end.
Proof.
  revert m0. induction l as [|t l IH]; intros m0.
  - cbn. now destruct (Reports.get m0 k).
  - cbn [fold_left filter]. rewrite IH. clear IH.
    unfold Reports.add_to_month. fold (month_key utcOffset t). fold add_to_total.
    destruct (month_key utcOffset t =? k)%string eqn:E.
    + apply String.eqb_eq in E. rewrite <- E.
      destruct (Reports.get m0 (month_key utcOffset t)) as [e|] eqn:G.
      * rewrite get_update_same, G. reflexivity.
      * rewrite get_update_same, get_app_new, G, String.eqb_refl. reflexivity.
    + assert (Hne : k <> month_key utcOffset t) by (intros ->; now rewrite String.eqb_refl in E).
      rewrite get_update_other by exact Hne.
      destruct (Reports.get m0 (month_key utcOffset t)) as [e|] eqn:G; [reflexivity|].
      rewrite get_app_new, E. now destruct (Reports.get m0 k).
Qed.

Lemma income_of_fold (l : list Reports.YearTransaction) (e : Reports.MonthTotal) :
  Reports.mt_income (fold_left add_to_total l e)
  = fold_left (fun sum t => sum + Reports.y_amount t)
      (filter (fun t => TxType_eqb (Reports.y_type t) income) l) (Reports.mt_income e).
Proof.
  revert e. induction l as [|t l IH]; intros e; [reflexivity|].
  cbn [fold_left filter]. rewrite IH. unfold add_to_total.
  now destruct (Reports.y_type t).
Qed.

Lemma expense_of_fold (l : list Reports.YearTransaction) (e : Reports.MonthTotal) :
  Reports.mt_expense (fold_left add_to_total l e)
  = fold_left (fun sum t => sum + Reports.y_amount t)
      (filter (fun t => TxType_eqb (Reports.y_type t) expense) l) (Reports.mt_expense e).
Proof.
  revert e. induction l as [|t l IH]; intros e; [reflexivity|].
  cbn [fold_left filter]. rewrite IH. unfold add_to_total.
  now destruct (Reports.y_type t).
Qed.

Lemma filter_filter {A} (p q : A -> bool) (l : list A) :
  filter p (filter q l) = filter (fun x => p x && q x) l.
Proof.
  induction l as [|x l IH]; [reflexivity|]. cbn.
  destruct (q x); cbn; [destruct (p x); cbn; now rewrite IH | now rewrite andb_false_r].
Qed.

(** The short names of the twelve months are distinct. *)
Lemma month_name_inj (a b : nat) :
  1 <= a <= 12 -> 1 <= b <= 12 ->
  (nth (a - 1) Reports.months "Invalid Date" =? nth (b - 1) Reports.months "Invalid Date")%string
  = Nat.eqb a b.
Proof.
  intros Ha Hb.
  assert (H : forallb (fun a => forallb (fun b =>
                Bool.eqb (nth (a - 1) Reports.months "Invalid Date"
                          =? nth (b - 1) Reports.months "Invalid Date")%string
                         (Nat.eqb a b)) (seq 1 12)) (seq 1 12) = true) by reflexivity.
  rewrite forallb_forall in H. specialize (H a). rewrite in_seq in H.
  specialize (H ltac:(lia)). rewrite forallb_forall in H. specialize (H b).
  rewrite in_seq in H. specialize (H ltac:(lia)). now apply Bool.eqb_prop in H.
Qed.

Lemma key_east_of_utc (t : Reports.YearTransaction) :
  east_of_utc utcOffset t ->
  month_key utcOffset t = nth (Reports.month (Reports.y_date t) - 1) Reports.months "Invalid Date".
Proof.
  intros [Hz _]. unfold month_key, Reports.month_short, Reports.local_month.
  apply Z.ltb_ge in Hz. now rewrite Hz.
Qed.

Lemma filter_key_month (ty : TxType) (mth : nat) (l : list Reports.YearTransaction) :
  Forall (east_of_utc utcOffset) l -> 1 <= mth <= 12 ->
  filter (fun t => TxType_eqb (Reports.y_type t) ty)
    (filter (fun t => month_key utcOffset t =? nth (mth - 1) Reports.months "Invalid Date")%string l)
  = filter (in_month ty mth) l.
Proof.
  intros Hl Hm. rewrite filter_filter.
  induction Hl as [|t l Ht Hl IH]; [reflexivity|].
  cbn [filter]. rewrite IH. unfold in_month at 2.
  rewrite (key_east_of_utc t Ht), month_name_inj by (trivial; apply Ht).
  reflexivity.
Qed.

(** East of UTC, the entry of each month holds the income and the
    expense of the transactions dated in that month, each added up in the
    order fetched (a total that is zero or not a number shows as 0). *)
Theorem monthly_buckets_east_of_utc (l : list Reports.YearTransaction) (mth : nat) :
  Forall (east_of_utc utcOffset) l ->
  1 <= mth <= 12 ->
  nth_error (Reports.monthlyArray utcOffset (Some l)) (mth - 1)
  = Some {| Reports.md_month := nth (mth - 1) Reports.months "Invalid Date";
            Reports.md_income := or_else (month_total income mth l) 0;
            Reports.md_expense := or_else (month_total expense mth l) 0 |}.
Proof.
  intros Hl Hm. unfold Reports.monthlyArray.
  rewrite nth_error_map.
  assert (Hn : nth_error Reports.months (mth - 1)
               = Some (nth (mth - 1) Reports.months "Invalid Date")).
  { apply nth_error_nth'. cbn. lia. }
  rewrite Hn. cbn [option_map]. f_equal.
  set (k := nth (mth - 1) Reports.months "Invalid Date").
  rewrite get_monthlyMap. cbv zeta. cbn [Reports.get].
  unfold month_total. rewrite <- !(filter_key_month _ _ _ Hl Hm). fold k.
  destruct (filter (fun t => month_key utcOffset t =? k)%string l) as [|t mine] eqn:E.
  - reflexivity.
  - rewrite income_of_fold, expense_of_fold. reflexivity.
Qed.

End Monthly.

Lemma sample_east_of_utc :
  Forall (east_of_utc Sample.paris)
    [Sample.on income 500 3 1; Sample.on expense 200 7 15].
Proof.
  repeat (apply Forall_cons; [split; [unfold Sample.paris; lia | cbn; lia]|]).
  apply Forall_nil.
Qed.

(** March in the scenario of the specification. *)
Lemma monthly_buckets_east_of_utc_witness :
  nth_error (Reports.monthlyArray Sample.paris
               (Some [Sample.on income 500 3 1; Sample.on expense 200 7 15])) 2
  = Some (Sample.month_row "Mar" 500 0).
Proof.
  apply (monthly_buckets_east_of_utc Sample.paris
           [Sample.on income 500 3 1; Sample.on expense 200 7 15] 3
           sample_east_of_utc).
  lia.
Defined.

(** ** The groups of the category breakdown *)

(** Under a name of [Object.prototype] the loop leaves [categoryMap] as
    it is. *)
Lemma get_categoryMap_inherited (l : list Reports.ReportTransaction)
    (m0 : Reports.CategoryMap) (k : string) :
  Reports.inherited k = true ->
  Reports.get (fold_left Reports.add_to_category l m0) k = Reports.get m0 k.
Proof.
  intros Hk. revert m0. induction l as [|t l IH]; intros m0; [reflexivity|].
  cbn [fold_left]. rewrite IH. clear IH.
  unfold Reports.add_to_category. fold (group_name t).
  destruct (Reports.inherited (group_name t)) eqn:Ht; [reflexivity|].
  assert (Hne : k <> group_name t) by (intros ->; congruence).
  rewrite get_update_other by exact Hne.
  destruct (Reports.get m0 (group_name t)) as [e|] eqn:G; [reflexivity|].
  rewrite get_app_new.
  destruct (group_name t =? k)%string eqn:E.
  - apply String.eqb_eq in E. now subst k.
  - now destruct (Reports.get m0 k).
Qed.

(** The amount of a group after the loop: the amount it had, or zero, with
    the transactions of that group added in order. *)
Lemma get_categoryMap (l : list Reports.ReportTransaction) (m0 : Reports.CategoryMap)
    (k : string) :
  Reports.inherited k = false ->
  option_map Reports.ct_amount (Reports.get (fold_left Reports.add_to_category l m0) k)
  = let mine := filter (fun t => group_name t =? k)%string l in
    match Reports.get m0 k, mine with
    | Some e, _ =>
        Some (fold_left (fun sum t => sum + Reports.amount t) mine (Reports.ct_amount e))
    | None, [] => None
    | None, _ => Some (fold_left (fun sum t => sum + Reports.amount t) mine 0)
    end.
Proof.
  intros Hk. revert m0. induction l as [|t l IH]; intros m0.
  - cbn. now destruct (Reports.get m0 k).
  - cbn [fold_left filter]. rewrite IH. clear IH.
    unfold Reports.add_to_category. fold (group_name t).
    destruct (group_name t =? k)%string eqn:E.
    + apply String.eqb_eq in E. rewrite <- E in *. rewrite Hk.
      destruct (Reports.get m0 (group_name t)) as [e|] eqn:G.
      * rewrite get_update_same, G. reflexivity.
      * rewrite get_update_same, get_app_new, G, String.eqb_refl. reflexivity.
    + destruct (Reports.inherited (group_name t)); [reflexivity|].
      assert (Hne : k <> group_name t) by (intros ->; now rewrite String.eqb_refl in E).
      rewrite get_update_other by exact Hne.
      destruct (Reports.get m0 (group_name t)) as [e|] eqn:G; [reflexivity|].
      rewrite get_app_new, E. now destruct (Reports.get m0 k).
Qed.

(** Every expense that has a category is added to the group named
    after it, in the order fetched; a name with no such expense has no
    group, and neither has a name of [Object.prototype], whatever the
    expenses under it. *)
Theorem category_groups (transactions : list Reports.ReportTransaction) (k : string) :
  option_map Reports.ct_amount (Reports.get (Reports.categoryMap_of transactions) k)
  = if Reports.inherited k then None
    else match filter (in_group k) transactions with
         | [] => None
         | _ => Some (group_total k transactions)
         end.
Proof.
  unfold Reports.categoryMap_of, group_total.
  destruct (Reports.inherited k) eqn:Hk.
  - now rewrite get_categoryMap_inherited.
  - rewrite get_categoryMap by exact Hk. cbv zeta.
    cbn [Reports.get]. rewrite filter_filter.
    replace (filter (fun x => (group_name x =? k)%string
                              && (Reports.is_expense x && Reports.has_category x)) transactions)
      with (filter (in_group k) transactions).
    + now destruct (filter (in_group k) transactions).
    + apply filter_ext. intros t. unfold in_group. apply andb_comm.
Qed.

(** An expense under the category "constructor" makes no group, next to
    one under "Food" that does. *)
Example constructor_has_no_group :
  map fst (Reports.categoryMap_of
             [Sample.spend 30 (Some {| Reports.name := "constructor";
                                       Reports.color := "#EF4444" |});
              Sample.spend 12 (Some Sample.food)])
  = ["Food"].
Proof. reflexivity. Qed.

(** Sorting keeps the groups: the breakdown is a rearrangement of them. *)
Lemma insert_sorted_perm (a : Reports.CategorySpending) (l : list Reports.CategorySpending) :
  Permutation (Reports.insert_sorted a l) (a :: l).
Proof.
  induction l as [|b l IH]; [reflexivity|]. cbn [Reports.insert_sorted].
  destruct (gt (Reports.cs_amount b - Reports.cs_amount a) 0); [|reflexivity].
  rewrite IH. apply perm_swap.
Qed.

Lemma sort_perm (l : list Reports.CategorySpending) : Permutation (Reports.sort l) l.
Proof.
  induction l as [|a l IH]; [reflexivity|]. cbn [Reports.sort fold_right].
  rewrite insert_sorted_perm. now apply perm_skip.
Qed.

(** With no expense among the transactions the breakdown is empty, and
    its percentages add up to 0. *)
Theorem no_expense_no_breakdown (transactions : list Reports.ReportTransaction) :
  filter Reports.is_expense transactions = [] ->
  Reports.categorySpending (Reports.fetchReportData transactions) = []
  /\ sum_percentages (Reports.fetchReportData transactions) = 0.
Proof.
  intros H.
  assert (E : Reports.categoryMap_of transactions = []).
  { unfold Reports.categoryMap_of.
    replace (filter (fun t => Reports.is_expense t && Reports.has_category t) transactions)
      with (filter Reports.has_category (filter Reports.is_expense transactions)).
    - now rewrite H.
    - rewrite filter_filter. apply filter_ext. intros t. apply andb_comm. }
  unfold sum_percentages, Reports.fetchReportData. cbn [Reports.categorySpending].
  rewrite E. split; reflexivity.
Qed.

Lemma no_expense_no_breakdown_witness :
  Reports.categorySpending (Reports.fetchReportData [Sample.earn 1000]) = []
  /\ sum_percentages (Reports.fetchReportData [Sample.earn 1000]) = 0.
Proof. exact (no_expense_no_breakdown [Sample.earn 1000] eq_refl). Defined.

(** ** Requests that fail, transactions that are not listed *)

(** When the store refuses the insert, the store's message is shown and
    no table has changed: the balance is not read. *)
Theorem insert_refused_changes_nothing (f : AddTransaction.Form)
    (account : AddTransaction.Account) (message : string) (w : World) :
  AddTransaction.f_selectedAccount f = Some account ->
  accepted f ->
  fate 0 w = Some message ->
  let w' := snd (AddTransaction.handleSubmit f w) in
  fst (AddTransaction.handleSubmit f w) = AddTransaction.ShowError message
  /\ accounts w' = accounts w /\ transactions w' = transactions w
  /\ log w' = log w ++ [InsertTransaction (new_transaction f account)].
Proof.
  intros Hacc (Ha & Hd & Hnan & Hpos) Hfate.
  destruct w as [accs txs profs cats n fl lg]. unfold fate in Hfate. cbn in Hfate.
  destruct fl as [|[m|] fl]; try discriminate. injection Hfate as ->.
  cbv zeta. unfold AddTransaction.handleSubmit. rewrite Hacc.
  rewrite (truthy_string_nonempty _ Ha), (truthy_string_nonempty _ Hd), Hnan, Hpos.
  repeat split.
Qed.

Lemma insert_refused_changes_nothing_witness :
  fst (AddTransaction.handleSubmit Sample.expense_50 (Sample.world_refusing "offline"))
  = AddTransaction.ShowError "offline"
  /\ accounts (snd (AddTransaction.handleSubmit Sample.expense_50
                      (Sample.world_refusing "offline")))
     = [Sample.checking; Sample.cash]
  /\ transactions (snd (AddTransaction.handleSubmit Sample.expense_50
                          (Sample.world_refusing "offline"))) = []
  /\ log (snd (AddTransaction.handleSubmit Sample.expense_50
                 (Sample.world_refusing "offline")))
     = [InsertTransaction (new_transaction Sample.expense_50 Sample.picked)].
Proof.
  exact (insert_refused_changes_nothing Sample.expense_50 Sample.picked "offline"
           (Sample.world_refusing "offline") eq_refl
           (sample_accepted expense "2024-03-01") eq_refl).
Defined.

(** A transaction that is not on the screen's list is not deleted: the
    handler returns before any request. *)
Theorem unlisted_not_deleted (listed : list Transactions.Transaction)
    (transactionId : string) (w : World) :
  find (fun x => Transactions.id x =? transactionId)%string listed = None ->
  Transactions.handleDeleteTransaction listed transactionId w = (None, w).
Proof.
  intros H. unfold Transactions.handleDeleteTransaction. now rewrite H.
Qed.

Lemma unlisted_not_deleted_witness :
  Transactions.handleDeleteTransaction [] "tx-9" Sample.world_orphan
  = (None, Sample.world_orphan).
Proof. exact (unlisted_not_deleted [] "tx-9" Sample.world_orphan eq_refl). Defined.

(** ** The ledger under failing requests *)

Lemma nan_add (x : number) : PrimFloat.nan + x = PrimFloat.nan.
Proof.
  apply Prim2SF_inj. rewrite FloatAxioms.add_spec. reflexivity.
Qed.

Lemma nan_sub (x : number) : PrimFloat.nan - x = PrimFloat.nan.
Proof.
  apply Prim2SF_inj. rewrite FloatAxioms.sub_spec. reflexivity.
Qed.

Lemma not_le_gt (x : number) : isNaN x = false -> le x 0 = false -> gt x 0 = true.
Proof.
  unfold isNaN, le, gt. intros Hn Hl.
  destruct (leb_total x 0 Hn eq_refl) as [H|H]; [congruence | exact H].
Qed.

(** Either [handleSubmit] shows an error and no table has changed, or the
    ledger has gained one row, with a positive amount, and the user is
    taken back: whatever happens to the requests on the balance. *)
Theorem submit_error_or_row (f : AddTransaction.Form) (w : World) :
  let w' := snd (AddTransaction.handleSubmit f w) in
  ((exists message, fst (AddTransaction.handleSubmit f w) = AddTransaction.ShowError message)
   /\ transactions w' = transactions w /\ accounts w' = accounts w)
  \/ (fst (AddTransaction.handleSubmit f w) = AddTransaction.NavigateBack
      /\ exists account,
           AddTransaction.f_selectedAccount f = Some account
           /\ transactions w'
              = transactions w
                ++ [stored_transaction (uuid_of (uuid_count w)) (new_transaction f account)]
           /\ gt (tx_amount (stored_transaction (uuid_of (uuid_count w))
                               (new_transaction f account))) 0 = true
           /\ map acc_id (accounts w') = map acc_id (accounts w)).
Proof.
  cbv zeta. unfold AddTransaction.handleSubmit.
  destruct (AddTransaction.f_selectedAccount f) as [account|] eqn:Hacc;
    [|left; split; [eexists; reflexivity | split; reflexivity]].
  destruct (negb (truthy_string (AddTransaction.f_amount f))
            || negb (truthy_string (AddTransaction.f_description f)));
    [left; split; [eexists; reflexivity | split; reflexivity]|].
  destruct (isNaN (parseFloat (AddTransaction.f_amount f))) eqn:Hnan;
    [left; split; [eexists; reflexivity | split; reflexivity]|].
  destruct (le (parseFloat (AddTransaction.f_amount f)) 0) eqn:Hle;
    [left; split; [eexists; reflexivity | split; reflexivity]|].
  cbn [orb].
  destruct w as [accs txs profs cats n fl lg].
  destruct fl as [|[m1|] [|[m2|] [|[m3|] fl]]]; run_remote;
    try (left; split; [eexists; reflexivity | split; reflexivity]);
    right; (split; [reflexivity|]); exists account;
    (split; [reflexivity|]); (split; [reflexivity|]);
    (split; [now apply not_le_gt|]);
    cbn; try reflexivity;
    try (destruct (single _); cbn; try reflexivity);
    rewrite map_map; apply map_ext; intros row;
    now destruct (acc_id row =? _)%string.
Qed.

(** Once the insert has gone through, a failure of the requests on the
    balance is not reported. When the update is refused, the ledger has
    the new row and every balance is as before; when the read is refused,
    the balance sent with the update is NaN. In both cases the user is
    taken back to the list. *)
Theorem balance_failures_are_silent (f : AddTransaction.Form)
    (account : AddTransaction.Account) (message : string) (w : World) :
  AddTransaction.f_selectedAccount f = Some account ->
  accepted f ->
  fate 0 w = None ->
  let w' := snd (AddTransaction.handleSubmit f w) in
  let row := stored_transaction (uuid_of (uuid_count w)) (new_transaction f account) in
  let i := AddTransaction.id account in
  (fate 1 w = None -> fate 2 w = Some message ->
   fst (AddTransaction.handleSubmit f w) = AddTransaction.NavigateBack
   /\ transactions w' = transactions w ++ [row]
   /\ accounts w' = accounts w)
  /\ (fate 1 w = Some message ->
      fst (AddTransaction.handleSubmit f w) = AddTransaction.NavigateBack
      /\ transactions w' = transactions w ++ [row]
      /\ log w' = log w ++ [InsertTransaction (new_transaction f account);
                            SelectAccountBalance (Some i);
                            UpdateAccountBalance (Some i) PrimFloat.nan]).
Proof.
  intros Hacc (Ha & Hd & Hnan & Hpos) H0.
  destruct w as [accs txs profs cats n fl lg]. unfold fate in *. cbn [faults] in *.
  cbv zeta. unfold AddTransaction.handleSubmit. rewrite Hacc.
  rewrite (truthy_string_nonempty _ Ha), (truthy_string_nonempty _ Hd), Hnan, Hpos.
  cbn [negb orb].
  split.
  - intros H1 H2.
    destruct fl as [|[m1|] [|[m2|] [|[m3|] fl]]]; try discriminate.
    run_remote. repeat split.
  - intros H1.
    destruct fl as [|[m1|] [|[m2|] fl]]; try discriminate.
    run_remote. unfold AddTransaction.Number_of_balance, new_transaction.
    rewrite nan_add, nan_sub, <- !app_assoc. cbn [app].
    destruct (AddTransaction.f_type f), fl as [|[m3|] fl]; repeat split.
Qed.

Lemma balance_failures_are_silent_witness :
  fst (AddTransaction.handleSubmit Sample.expense_50 Cases.world_update_refused)
  = AddTransaction.NavigateBack
  /\ List.length (transactions (snd (AddTransaction.handleSubmit Sample.expense_50
                                       Cases.world_update_refused))) = 1%nat
  /\ accounts (snd (AddTransaction.handleSubmit Sample.expense_50
                      Cases.world_update_refused))
     = [Sample.checking; Sample.cash].
Proof.
  destruct (balance_failures_are_silent Sample.expense_50 Sample.picked "offline"
              Cases.world_update_refused
              eq_refl (sample_accepted expense "2024-03-01") eq_refl) as [H _].
  destruct (H eq_refl eq_refl) as (Ho & Ht & Hacc).
  split; [exact Ho|]. split; [now rewrite Ht | exact Hacc].
Defined.

(** Whatever the fate of its requests, a deletion removes no row of the
    ledger but those of the transaction, rewrites the balance of at most
    one account, and adds or removes no account. *)
Theorem delete_touches_one_transaction (listed : list Transactions.Transaction)
    (tid : string) (w : World) :
  let w' := snd (Transactions.handleDeleteTransaction listed tid w) in
  (transactions w' = transactions w
   \/ transactions w' = filter (fun r => negb (tx_id r =? tid)%string) (transactions w))
  /\ (accounts w' = accounts w
      \/ exists i b, accounts w' = map (set_balance i b) (accounts w))
  /\ map acc_id (accounts w') = map acc_id (accounts w).
Proof.
  cbv zeta. unfold Transactions.handleDeleteTransaction.
  destruct (find _ listed) as [t|]; [|repeat split; now left].
  destruct w as [accs txs profs cats n fl lg].
  assert (Hids : forall i b, map acc_id (map (set_balance i b) accs) = map acc_id accs).
  { intros i b. rewrite map_map. apply map_ext. intros a. apply set_balance_id. }
  destruct fl as [|[m1|] [|[m2|] [|[m3|] [|[m4|] [|[m5|] [|[m6|] fl]]]]]];
    run_remote;
    repeat match goal with
      | |- context [single ?l] => destruct (single l) as [?|]; run_remote
      end;
    try match goal with
      | |- context [map (fun a0 => if (acc_id a0 =? ?i)%string
                                   then with_balance ?b a0 else a0) accs] =>
          change (map (fun a0 => if (acc_id a0 =? i)%string
                                 then with_balance b a0 else a0) accs)
            with (map (set_balance i b) accs)
      end;
    (split; [first [now left | now right]|]);
    (split; [first [now left | right; eexists; eexists; reflexivity]|]);
    first [reflexivity | apply Hids].
Qed.



(** ** The sign-up form *)




(** For a form that passes the checks, the outcome follows the
    authentication request alone. When it is refused its message is
    shown and nothing is stored. When it goes through the user is taken
    to the tabs, whatever happens to the inserts of the profile and of the
    categories: if the insert of the profile is refused, the user is in
    with no profile. *)
Theorem signup_outcome_follows_auth (fullName email password : string) (w : World) :
  well_formed fullName email password ->
  let w' := snd (SignUp.handleSignUp fullName email password w) in
  (forall message, fate 0 w = Some message ->
     fst (SignUp.handleSignUp fullName email password w) = SignUp.ShowError message
     /\ profiles w' = profiles w /\ categories w' = categories w
     /\ log w' = log w ++ [AuthSignUp email password])
  /\ (fate 0 w = None ->
      fst (SignUp.handleSignUp fullName email password w) = SignUp.ReplaceTabs
      /\ (fate 1 w <> None -> profiles w' = profiles w)
      /\ (fate 2 w <> None -> categories w' = categories w)).
Proof.
  intros (Hn & He & Hp & Hlen). cbv zeta. unfold SignUp.handleSignUp.
  rewrite (truthy_string_nonempty _ Hn), (truthy_string_nonempty _ He),
    (truthy_string_nonempty _ Hp).
  cbn [negb orb]. apply Nat.ltb_ge in Hlen. rewrite Hlen.
  destruct w as [accs txs profs cats n fl lg]. unfold fate. cbn [faults].
  unfold Auth.signUp, Auth.defaultCategories.
  split.
  - intros message H0. destruct fl as [|[m1|] fl]; try discriminate.
    injection H0 as ->. run_remote. repeat split.
  - intros H0. destruct fl as [|[m1|] [|[m2|] [|[m3|] fl]]]; try discriminate;
      run_remote; cbn [nth]; (split; [reflexivity|]); split; intros H;
      try congruence; reflexivity.
Qed.

Lemma signup_outcome_follows_auth_witness :
  fst (SignUp.handleSignUp "Ann" "ann@example.org" "secret"
         Cases.world_profile_refused)
  = SignUp.ReplaceTabs
  /\ profiles (snd (SignUp.handleSignUp "Ann" "ann@example.org" "secret"
         Cases.world_profile_refused)) = [].
Proof.
  assert (W : well_formed "Ann" "ann@example.org" "secret")
    by (repeat split; try discriminate; vm_compute; lia).
  destruct (signup_outcome_follows_auth "Ann" "ann@example.org" "secret"
              Cases.world_profile_refused W)
    as [_ H].
  destruct (H eq_refl) as (Ho & Hp & _).
  split; [exact Ho|]. apply Hp. discriminate.
Defined.

(** ** The search *)

Lemma prefix_occurs (q s : string) :
  String.prefix q s = true <-> exists after, s = (q ++ after)%string.
Proof.
  revert s. induction q as [|c q IH]; intros s.
  - cbn. split; [intros _; now exists s | now destruct s].
  - destruct s as [|d s]; cbn.
    + split; [discriminate | intros [after H]; discriminate].
    + destruct (Ascii.ascii_dec c d) as [->|Hne].
      * rewrite IH. split; intros [after H]; exists after.
        -- now rewrite H.
        -- now injection H.
      * split; [discriminate | intros [after H]; injection H; congruence].
Qed.

Lemma includes_occurs (s q : string) :
  TransactionList.includes s q = true <-> occurs_in q s.
Proof.
  unfold occurs_in. induction s as [|c s IH].
  - cbn [TransactionList.includes]. rewrite orb_false_r, prefix_occurs. split.
    + intros [after H]. now exists "", after.
    + intros (before & after & H). destruct before; [now exists after | discriminate].
  - cbn [TransactionList.includes]. rewrite orb_true_iff, prefix_occurs, IH. split.
    + intros [[after H]|(before & after & H)].
      * now exists "", after.
      * exists (String c before), after. cbn. now rewrite H.
    + intros (before & after & H). destruct before as [|d before].
      * left. now exists after.
      * right. cbn in H. injection H as _ H. now exists before, after.
Qed.

(** [applyFilters] keeps, in the order of the list, the transactions of
    the chosen type in which the query occurs, case apart, in the
    description or in the name of the category; an empty query keeps
    them all. *)
Theorem applyFilters_keeps (toLowerCase : string -> string)
    (transactions : list TransactionList.Transaction) (searchQuery : string)
    (filterType : TransactionList.FilterType) :
  let kept t :=
    of_type filterType t
    && (negb (truthy_string searchQuery)
        || TransactionList.matches toLowerCase searchQuery t) in
  TransactionList.applyFilters toLowerCase transactions searchQuery filterType
  = filter kept transactions
  /\ forall t, kept t = true <->
       of_type filterType t = true
       /\ (searchQuery = ""
           \/ occurs_in (toLowerCase searchQuery)
                (toLowerCase (TransactionList.description t))
           \/ exists c, TransactionList.category t = Some c
                        /\ occurs_in (toLowerCase searchQuery)
                             (toLowerCase (Reports.name c))).
Proof.
  cbv zeta. split.
  - unfold TransactionList.applyFilters.
    destruct filterType as [|ty], (truthy_string searchQuery); cbn [of_type negb orb andb].
    + reflexivity.
    + symmetry. apply forallb_filter_id. now apply forallb_forall.
    + rewrite filter_filter. apply filter_ext. intros t. apply andb_comm.
    + apply filter_ext. intros t. now rewrite andb_true_r.
  - intros t. rewrite andb_true_iff, orb_true_iff. unfold TransactionList.matches.
    rewrite orb_true_iff, includes_occurs.
    assert (Hq : negb (truthy_string searchQuery) = true <-> searchQuery = "")
      by (destruct searchQuery; cbn; split; congruence).
    rewrite Hq.
    assert (Hc : match TransactionList.category t with
                 | Some c => TransactionList.includes (toLowerCase (Reports.name c))
                               (toLowerCase searchQuery)
                 | None => false
                 end = true
                 <-> exists c, TransactionList.category t = Some c
                               /\ occurs_in (toLowerCase searchQuery)
                                    (toLowerCase (Reports.name c))).
    { destruct (TransactionList.category t) as [c|].
      - rewrite includes_occurs. split.
        + intros H. now exists c.
        + intros (c' & E & H). now injection E as ->.
      - split; [discriminate | intros (c & E & _); discriminate]. }
    rewrite Hc. tauto.
Qed.

(** The type filter and the search can be applied one after the other,
    in either order, and applying the same filters again changes nothing;
    two queries that differ by their case only find the same
    transactions. *)
Theorem applyFilters_composes (toLowerCase : string -> string)
    (transactions : list TransactionList.Transaction) (searchQuery : string)
    (filterType : TransactionList.FilterType) :
  let apply := TransactionList.applyFilters toLowerCase in
  apply (apply transactions "" filterType) searchQuery TransactionList.All
  = apply transactions searchQuery filterType
  /\ apply (apply transactions searchQuery TransactionList.All) "" filterType
     = apply transactions searchQuery filterType
  /\ apply (apply transactions searchQuery filterType) searchQuery filterType
     = apply transactions searchQuery filterType
  /\ (forall other, other <> "" -> searchQuery <> "" ->
        toLowerCase other = toLowerCase searchQuery ->
        apply transactions other filterType = apply transactions searchQuery filterType).
Proof.
  cbv zeta. split; [reflexivity|]. split; [|split].
  - unfold TransactionList.applyFilters. cbn [truthy_string].
    destruct filterType as [|ty], (truthy_string searchQuery); try reflexivity.
    rewrite !filter_filter. apply filter_ext. intros t. apply andb_comm.
  - destruct (applyFilters_keeps toLowerCase transactions searchQuery filterType) as [E _].
    destruct (applyFilters_keeps toLowerCase
                (TransactionList.applyFilters toLowerCase transactions searchQuery filterType)
                searchQuery filterType) as [E' _].
    rewrite E'. rewrite E. rewrite filter_filter. apply filter_ext. intros t.
    apply andb_diag.
  - intros other Ho Hq Hl. unfold TransactionList.applyFilters.
    rewrite (truthy_string_nonempty _ Ho), (truthy_string_nonempty _ Hq).
    unfold TransactionList.matches. rewrite Hl. reflexivity.
Qed.

(** ** The groups of the list *)

Lemma first_seen_snoc (ks : list string) (k : string) :
  first_seen (ks ++ [k])
  = if existsb (String.eqb k) ks then first_seen ks else first_seen ks ++ [k].
Proof.
  induction ks as [|x ks IH]; [reflexivity|].
  cbn [app first_seen existsb]. rewrite IH.
  destruct (k =? x)%string eqn:E; cbn [orb].
  - destruct (existsb (String.eqb k) ks); [reflexivity|].
    rewrite filter_app. cbn [filter]. rewrite E. cbn [negb]. now rewrite app_nil_r.
  - destruct (existsb (String.eqb k) ks); [reflexivity|].
    rewrite filter_app. cbn [filter]. rewrite E. reflexivity.
Qed.

Lemma first_seen_In (ks : list string) (k : string) : In k (first_seen ks) <-> In k ks.
Proof.
  induction ks as [|x ks IH]; [reflexivity|]. cbn [first_seen In].
  rewrite filter_In, IH, negb_true_iff, String.eqb_neq.
  destruct (String.string_dec x k) as [->|Hne]; [tauto|].
  split; [tauto|]. intros [H|H]; [contradiction|]. right. split; [exact H | congruence].
Qed.

Lemma first_seen_NoDup (ks : list string) : NoDup (first_seen ks).
Proof.
  induction ks as [|x ks IH]; [constructor|]. cbn [first_seen]. constructor.
  - rewrite filter_In, String.eqb_refl. intros [_ H]. discriminate.
  - now apply NoDup_filter.
Qed.

Lemma get_map_keys {V} (f : string -> V) (ks : list string) (k : string) :
  Reports.get (map (fun k => (k, f k)) ks) k
  = if existsb (String.eqb k) ks then Some (f k) else None.
Proof.
  induction ks as [|x ks IH]; [reflexivity|]. cbn [map Reports.get existsb].
  rewrite (String.eqb_sym k x).
  destruct (x =? k)%string eqn:E; [|exact IH].
  apply String.eqb_eq in E. now subst.
Qed.

Lemma existsb_first_seen (ks : list string) (k : string) :
  existsb (String.eqb k) (first_seen ks) = existsb (String.eqb k) ks.
Proof.
  apply eq_true_iff_eq. rewrite !existsb_exists. split.
  - intros (x & Hin & E). exists x. split; [now apply first_seen_In | exact E].
  - intros (x & Hin & E). exists x. split; [now apply first_seen_In | exact E].
Qed.

Lemma update_map_keys {V} (f g : string -> V) (h : V -> V) (ks : list string) (k : string) :
  NoDup ks -> g k = h (f k) -> (forall k', k' <> k -> g k' = f k') ->
  Reports.update (map (fun k => (k, f k)) ks) k h = map (fun k => (k, g k)) ks.
Proof.
  intros Hnd Hk Ho. induction Hnd as [|x ks Hx Hnd IH]; [reflexivity|].
  cbn [map Reports.update].
  destruct (x =? k)%string eqn:E.
  - apply String.eqb_eq in E. subst x. rewrite Hk. f_equal.
    apply map_ext_in. intros k' Hin. rewrite Ho; [reflexivity|].
    intros ->. contradiction.
  - rewrite IH, Ho; [reflexivity|]. now apply String.eqb_neq.
Qed.

Lemma update_app_new {V} (m : list (string * V)) (k : string) (v : V) (h : V -> V) :
  Reports.get m k = None ->
  Reports.update (m ++ [(k, v)]) k h = m ++ [(k, h v)].
Proof.
  induction m as [|[k0 v0] m IH]; cbn [app Reports.get Reports.update].
  - intros _. now rewrite String.eqb_refl.
  - destruct (k0 =? k)%string; [discriminate|]. intros H. now rewrite IH.
Qed.

Lemma filter_on_date_absent (dateKey : string -> string)
    (l : list TransactionList.Transaction) (k : string) :
  existsb (String.eqb k) (date_keys dateKey l) = false ->
  filter (on_date dateKey k) l = [].
Proof.
  induction l as [|t l IH]; [reflexivity|].
  cbn [date_keys map existsb filter]. unfold on_date at 1.
  rewrite (String.eqb_sym k). intros H. apply orb_false_elim in H.
  destruct H as [H1 H2]. rewrite H1. now apply IH.
Qed.

(** The object built by the loop: one entry per date key, in the order
    of first appearance, with the transactions of that key in the order
    of the list. *)
Lemma groups_of_list (dateKey : string -> string) (l : list TransactionList.Transaction) :
  TransactionList.groupTransactionsByDate dateKey l
  = map (fun k => (k, filter (on_date dateKey k) l)) (first_seen (date_keys dateKey l)).
Proof.
  unfold TransactionList.groupTransactionsByDate.
  induction l as [|t l IH] using rev_ind; [reflexivity|].
  rewrite fold_left_app. cbn [fold_left]. rewrite IH. clear IH.
  unfold TransactionList.add_to_group.
  set (kt := dateKey (TransactionList.date t)).
  unfold date_keys. rewrite map_app. cbn [map]. fold kt. fold (date_keys dateKey l).
  rewrite first_seen_snoc, get_map_keys, existsb_first_seen.
  assert (Hsnoc : forall k, filter (on_date dateKey k) (l ++ [t])
                    = filter (on_date dateKey k) l ++ (if (kt =? k)%string then [t] else [])).
  { intros k. rewrite filter_app. cbn [filter]. unfold on_date at 2. fold kt.
    now destruct (kt =? k)%string. }
  destruct (existsb (String.eqb kt) (date_keys dateKey l)) eqn:E.
  - apply update_map_keys.
    + apply first_seen_NoDup.
    + now rewrite Hsnoc, String.eqb_refl.
    + intros k' Hne. rewrite Hsnoc.
      destruct (kt =? k')%string eqn:E'; [|apply app_nil_r].
      apply String.eqb_eq in E'. congruence.
  - rewrite update_app_new.
    + rewrite map_app. cbn [map app]. f_equal.
      * apply map_ext_in. intros k Hin. rewrite Hsnoc.
        destruct (kt =? k)%string eqn:E'; [|now rewrite app_nil_r].
        apply String.eqb_eq in E'. subst k.
        apply (proj1 (first_seen_In _ _)) in Hin.
        assert (existsb (String.eqb kt) (date_keys dateKey l) = true); [|congruence].
        apply existsb_exists. exists kt. split; [exact Hin | apply String.eqb_refl].
      * rewrite Hsnoc, String.eqb_refl, (filter_on_date_absent _ _ _ E). reflexivity.
    + now rewrite get_map_keys, existsb_first_seen, E.
Qed.

Lemma concat_groups_perm (dateKey : string -> string)
    (l : list TransactionList.Transaction) (ks : list string) :
  NoDup ks -> (forall t, In t l -> In (dateKey (TransactionList.date t)) ks) ->
  Permutation (List.concat (map (fun k => filter (on_date dateKey k) l) ks)) l.
Proof.
  intros Hnd. induction l as [|t l IH]; intros Hin.
  - clear Hin Hnd. induction ks as [|k ks IHk]; [constructor | exact IHk].
  - set (kt := dateKey (TransactionList.date t)).
    destruct (in_split kt ks (Hin t (or_introl eq_refl))) as (ks1 & ks2 & ->).
    assert (Hother : forall ks', ~ In kt ks' ->
              map (fun k => filter (on_date dateKey k) (t :: l)) ks'
              = map (fun k => filter (on_date dateKey k) l) ks').
    { intros ks' Hno. apply map_ext_in. intros k Hk. cbn [filter]. unfold on_date at 1.
      fold kt. destruct (kt =? k)%string eqn:E; [|reflexivity].
      apply String.eqb_eq in E. subst k. contradiction. }
    apply NoDup_remove_2 in Hnd as Hno.
    rewrite in_app_iff in Hno.
    rewrite map_app, concat_app. cbn [map List.concat].
    rewrite !Hother by tauto.
    cbn [filter]. unfold on_date at 2. fold kt. rewrite String.eqb_refl.
    cbn [app]. rewrite <- Permutation_middle. apply perm_skip.
    specialize (IH (fun x Hx => Hin x (or_intror Hx))).
    rewrite map_app, concat_app in IH. exact IH.
Qed.

(** [groupTransactionsByDate] splits the list by date key: one group per
    key, in the order in which the keys first appear; each group holds
    the transactions of its key, in the order of the list; no group is
    empty; and the groups together are the list, no transaction lost or
    repeated. *)
Theorem groups_by_date (dateKey : string -> string)
    (filteredTransactions : list TransactionList.Transaction) :
  let grouped := TransactionList.groupTransactionsByDate dateKey filteredTransactions in
  map fst grouped = first_seen (date_keys dateKey filteredTransactions)
  /\ NoDup (map fst grouped)
  /\ (forall k g, In (k, g) grouped ->
        g = filter (on_date dateKey k) filteredTransactions /\ g <> [])
  /\ Permutation (List.concat (map snd grouped)) filteredTransactions
  /\ (filteredTransactions = [] <-> grouped = []).
Proof.
  cbv zeta. rewrite groups_of_list.
  set (ks := first_seen (date_keys dateKey filteredTransactions)).
  assert (Hfst : map fst (map (fun k => (k, filter (on_date dateKey k) filteredTransactions)) ks)
                 = ks).
  { rewrite map_map. cbn [fst]. apply map_id. }
  split; [exact Hfst|]. split; [rewrite Hfst; apply first_seen_NoDup|]. split; [|split].
  - intros k g Hin. apply in_map_iff in Hin. destruct Hin as (k' & E & Hk').
    injection E as -> <-. split; [reflexivity|].
    apply (proj1 (first_seen_In _ _)) in Hk'. unfold date_keys in Hk'. apply in_map_iff in Hk'.
    destruct Hk' as (t & Et & Ht).
    assert (Hin : In t (filter (on_date dateKey k) filteredTransactions)).
    { apply filter_In. split; [exact Ht|]. unfold on_date. rewrite Et.
      apply String.eqb_refl. }
    intros E. rewrite E in Hin. contradiction.
  - rewrite map_map. cbn [snd]. apply concat_groups_perm.
    + apply first_seen_NoDup.
    + intros t Ht. apply first_seen_In. unfold date_keys.
      exact (in_map (fun x => dateKey (TransactionList.date x)) _ _ Ht).
  - subst ks. destruct filteredTransactions as [|t l]; cbn; split; try reflexivity;
      discriminate.
Qed.

(** ** The sign of a difference *)

Section Differences.

Local Open Scope Z_scope.

Lemma value_lt_of_exponent (m1 : positive) (e1 : Z) (m2 : positive) (e2 : Z) :
  bounded prec emax m1 e1 = true -> bounded prec emax m2 e2 = true ->
  e1 < e2 ->
  Zpos m1 * 2 ^ (e1 + 1074) < Zpos m2 * 2 ^ (e2 + 1074).
Proof.
  intros B1 B2 H.
  pose proof (bounded_emin _ _ B1) as He1.
  destruct (bounded_digits _ _ B1) as [Hd1 _]. destruct (bounded_digits _ _ B2) as [_ Hd2].
  pose proof (digits2_pos_bounds m1) as [_ H1]. pose proof (digits2_pos_bounds m2) as [H2 _].
  rewrite Hd2 in H2 by lia. change (53 - 1) with 52 in H2.
  assert (H1' : Zpos m1 < 2 ^ 53).
  { eapply Z.lt_le_trans; [exact H1|]. apply Z.pow_le_mono_r; lia. }
  apply Z.lt_le_trans with (2 ^ 53 * 2 ^ (e1 + 1074)).
  { apply Z.mul_lt_mono_pos_r; [apply Z.pow_pos_nonneg; lia | exact H1']. }
  apply Z.le_trans with (2 ^ 52 * 2 ^ (e2 + 1074)).
  { rewrite <- !Z.pow_add_r by lia. apply Z.pow_le_mono_r; lia. }
  apply Z.mul_le_mono_nonneg_r; [apply Z.pow_nonneg; lia | exact H2].
Qed.

Lemma SFcompare_positive (m1 : positive) (e1 : Z) (m2 : positive) (e2 : Z) :
  bounded prec emax m1 e1 = true -> bounded prec emax m2 e2 = true ->
  match e1 ?= e2 with
  | Lt => Lt
  | Gt => Gt
  | Eq => Pos.compare_cont Eq m1 m2
  end = (Zpos m1 * 2 ^ (e1 + 1074) ?= Zpos m2 * 2 ^ (e2 + 1074)).
Proof.
  intros B1 B2. pose proof (bounded_emin _ _ B1) as He1.
  destruct (Z.compare_spec e1 e2) as [E|E|E].
  - subst e2. rewrite Pos.compare_cont_spec. cbn [Pos.switch_Eq].
    change (m1 ?= m2)%positive with (Zpos m1 ?= Zpos m2).
    assert (0 < 2 ^ (e1 + 1074)) by (apply Z.pow_pos_nonneg; lia).
    destruct (Z.compare_spec (Zpos m1) (Zpos m2)) as [E|E|E]; symmetry.
    + apply Z.compare_eq_iff. now rewrite E.
    + apply Z.compare_lt_iff. now apply Z.mul_lt_mono_pos_r.
    + apply Z.compare_gt_iff. now apply Z.mul_lt_mono_pos_r.
  - symmetry. apply Z.compare_lt_iff. now apply value_lt_of_exponent.
  - symmetry. apply Z.compare_gt_iff. now apply value_lt_of_exponent.
Qed.

(** Finite floats compare as their values do. *)
Lemma SFcompare_units (x y : spec_float) (ux uy : Z) :
  valid_binary x = true -> valid_binary y = true ->
  SFunits x = Some ux -> SFunits y = Some uy ->
  SFcompare x y = Some (ux ?= uy).
Proof.
  intros Vx Vy Hx Hy.
  destruct x as [sx|sx| |sx mx ex]; try discriminate Hx;
    destruct y as [sy|sy| |sy my ey]; try discriminate Hy;
    cbn [SFunits valid_binary] in *; injection Hx as <-; injection Hy as <-.
  - reflexivity.
  - pose proof (bounded_emin _ _ Vy) as He.
    assert (0 < 2 ^ (ey + 1074)) by (apply Z.pow_pos_nonneg; lia).
    cbn [SFcompare]. f_equal. symmetry.
    destruct sy; cbn [cond_Zopp];
      [apply Z.compare_gt_iff | apply Z.compare_lt_iff]; nia.
  - pose proof (bounded_emin _ _ Vx) as He.
    assert (0 < 2 ^ (ex + 1074)) by (apply Z.pow_pos_nonneg; lia).
    cbn [SFcompare]. f_equal. symmetry.
    destruct sx; cbn [cond_Zopp];
      [apply Z.compare_lt_iff | apply Z.compare_gt_iff]; nia.
  - pose proof (bounded_emin _ _ Vx) as Hex. pose proof (bounded_emin _ _ Vy) as Hey.
    assert (0 < 2 ^ (ex + 1074)) by (apply Z.pow_pos_nonneg; lia).
    assert (0 < 2 ^ (ey + 1074)) by (apply Z.pow_pos_nonneg; lia).
    cbn [SFcompare]. f_equal.
    destruct sx, sy; cbn [cond_Zopp].
    + change (Z.neg mx) with (- Zpos mx). change (Z.neg my) with (- Zpos my).
      rewrite !Z.mul_opp_l, Z.compare_opp.
      rewrite <- (SFcompare_positive my ey mx ex Vy Vx).
      rewrite (Z.compare_antisym ey ex), Pos.compare_cont_spec, Pos.compare_cont_spec.
      cbn [Pos.switch_Eq]. rewrite (Pos.compare_antisym my mx).
      now destruct (ey ?= ex), (my ?= mx)%positive.
    + symmetry. apply Z.compare_lt_iff. nia.
    + symmetry. apply Z.compare_gt_iff. nia.
    + now apply SFcompare_positive.
Qed.

(** The difference of two finite floats is positive exactly when the
    first is the larger: a difference that is not zero does not round
    to zero. *)
Lemma SFsub_positive (x y : spec_float) (ux uy : Z) :
  valid_binary x = true -> valid_binary y = true ->
  SFunits x = Some ux -> SFunits y = Some uy ->
  SFltb (S754_zero false) (SFsub prec emax x y) = (uy <? ux).
Proof.
  intros Vx Vy Hx Hy.
  destruct x as [sx|sx| |sx mx ex]; try discriminate Hx;
    destruct y as [sy|sy| |sy my ey]; try discriminate Hy;
    cbn [SFunits valid_binary] in *; injection Hx as <-; injection Hy as <-.
  - now destruct sx, sy.
  - pose proof (bounded_emin _ _ Vy) as He.
    assert (0 < 2 ^ (ey + 1074)) by (apply Z.pow_pos_nonneg; lia).
    cbn [SFsub]. unfold SFltb. cbn [SFcompare]. symmetry.
    destruct sy; cbn [negb cond_Zopp]; [apply Z.ltb_lt | apply Z.ltb_ge]; nia.
  - pose proof (bounded_emin _ _ Vx) as He.
    assert (0 < 2 ^ (ex + 1074)) by (apply Z.pow_pos_nonneg; lia).
    cbn [SFsub]. unfold SFltb. cbn [SFcompare]. symmetry.
    destruct sx; cbn [negb cond_Zopp]; [apply Z.ltb_ge | apply Z.ltb_lt]; nia.
  - pose proof (bounded_emin _ _ Vx) as Hex. pose proof (bounded_emin _ _ Vy) as Hey.
    cbn [SFsub].
    set (ez := Z.min ex ey).
    set (T := cond_Zopp sx (Zpos (fst (shl_align mx ex ez)))
              - cond_Zopp sy (Zpos (fst (shl_align my ey ez)))).
    assert (HT : T * 2 ^ (ez + 1074)
                 = cond_Zopp sx (Zpos mx) * 2 ^ (ex + 1074)
                   - cond_Zopp sy (Zpos my) * 2 ^ (ey + 1074)).
    { subst T. rewrite Z.mul_sub_distr_r, !aligned_units by (subst ez; lia). reflexivity. }
    assert (Hp : 0 < 2 ^ (ez + 1074)) by (apply Z.pow_pos_nonneg; subst ez; lia).
    set (ux := cond_Zopp sx (Zpos mx) * 2 ^ (ex + 1074)) in *.
    set (uy := cond_Zopp sy (Zpos my) * 2 ^ (ey + 1074)) in *.
    destruct T as [|t|t] eqn:ET; cbn [binary_normalize].
    + symmetry. apply Z.ltb_ge. lia.
    + assert (Hlt : uy < ux) by nia. apply Z.ltb_lt in Hlt. rewrite Hlt.
      unfold binary_round.
      set (D := Zpos (digits2_pos t) + ez).
      assert (Hfe : -1074 <= fexp prec emax D).
      { unfold fexp. change (SpecFloat.emin prec emax) with (-1074). lia. }
      assert (Hround : SFleb (S754_finite false 1 (-1074))
                         (let '(mz, ez') := shl_align t ez (fexp prec emax D) in
                          binary_round_aux prec emax false (Zpos mz) ez' loc_Exact) = true).
      { destruct (Z_le_gt_dec (fexp prec emax D) ez) as [L|G].
        - destruct (shl_align_value t ez (fexp prec emax D) L) as [Hm He].
          destruct (shl_align t ez (fexp prec emax D)) as [mz ez'].
          cbn [fst snd] in Hm, He. subst ez'.
          assert (Hdig : Zpos (digits2_pos mz) + fexp prec emax D = D).
          { rewrite !digits2_pos_log2, Hm, Z.log2_mul_pow2 by lia.
            subst D. rewrite digits2_pos_log2. lia. }
          apply binary_round_aux_ge; [reflexivity | exact Hfe | rewrite Hdig; lia |].
          change (-1074 + 1074) with 0. rewrite Z.pow_0_r, Z.mul_1_r.
          assert (0 < 2 ^ (fexp prec emax D + 1074)) by (apply Z.pow_pos_nonneg; lia).
          pose proof (Pos2Z.is_pos mz). nia.
        - unfold shl_align.
          destruct (fexp prec emax D - ez) as [|d|d] eqn:Ed; try lia.
          apply binary_round_aux_ge; [reflexivity | subst ez; lia | fold D; lia |].
          change (-1074 + 1074) with 0. rewrite Z.pow_0_r, Z.mul_1_r.
          pose proof (Pos2Z.is_pos t). nia. }
      unfold SFleb in Hround. unfold SFltb.
      destruct (let '(mz, ez') := shl_align t ez (fexp prec emax D) in
                binary_round_aux prec emax false (Zpos mz) ez' loc_Exact)
        as [s|[|]| |[|] m e]; try discriminate Hround; reflexivity.
    + assert (Hge : ux <= uy).
      { change (Z.neg t) with (- Zpos t) in HT. pose proof (Pos2Z.is_pos t). nia. }
      apply Z.ltb_ge in Hge. rewrite Hge.
      unfold binary_round.
      destruct (shl_align t ez _) as [mz ez'].
      pose proof (binary_round_aux_sign true (Zpos mz) ez' loc_Exact (Pos2Z.is_nonneg _))
        as Hs.
      unfold SFltb.
      destruct (binary_round_aux prec emax true (Zpos mz) ez' loc_Exact) as [s|s| |s m e];
        try contradiction; subst s; reflexivity.
Qed.

End Differences.

(** ** The order of the category breakdown *)

Lemma finite_number_not_nan (x : number) : finite_number x -> PrimFloat.is_nan x = false.
Proof.
  unfold finite_number, units. intros H. apply is_nan_false. intros E.
  rewrite E in H. now apply H.
Qed.

(** The comparison function of the sort, [b.amount - a.amount > 0], is
    [a.amount < b.amount] on finite amounts. *)
Lemma sub_gt_zero (a b : number) :
  finite_number a -> finite_number b -> gt (b - a) 0 = PrimFloat.ltb a b.
Proof.
  unfold finite_number, units, gt. intros Ha Hb.
  rewrite !FloatAxioms.ltb_spec, FloatAxioms.sub_spec. unfold SF64sub.
  change (Prim2SF 0) with (S754_zero false).
  destruct (SFunits (Prim2SF a)) as [ua|] eqn:Ea; [|contradiction].
  destruct (SFunits (Prim2SF b)) as [ub|] eqn:Eb; [|contradiction].
  rewrite (SFsub_positive _ _ ub ua (Prim2SF_valid b) (Prim2SF_valid a) Eb Ea).
  unfold SFltb.
  rewrite (SFcompare_units _ _ ua ub (Prim2SF_valid a) (Prim2SF_valid b) Ea Eb).
  reflexivity.
Qed.

Lemma insert_sorted_sorted (a : Reports.CategorySpending) (l : list Reports.CategorySpending) :
  finite_number (Reports.cs_amount a) ->
  Forall (fun x => finite_number (Reports.cs_amount x)) l ->
  StronglySorted by_amount l -> StronglySorted by_amount (Reports.insert_sorted a l).
Proof.
  intros Ha Hl Hs. induction Hs as [|b l Hs IH Hb]; cbn [Reports.insert_sorted].
  - repeat constructor.
  - inversion Hl as [|? ? Hfb Hfl]; subst.
    rewrite (sub_gt_zero _ _ Ha Hfb).
    destruct (PrimFloat.ltb (Reports.cs_amount a) (Reports.cs_amount b)) eqn:E.
    + constructor; [now apply IH|].
      rewrite (insert_sorted_perm a l). constructor; [|exact Hb].
      unfold by_amount, ge. now apply ltb_leb.
    + assert (Hba : by_amount a b).
      { unfold by_amount, ge.
        destruct (leb_total (Reports.cs_amount b) (Reports.cs_amount a)
                    (finite_number_not_nan _ Hfb) (finite_number_not_nan _ Ha))
          as [H|H]; [exact H | congruence]. }
      constructor; [now constructor|].
      constructor; [exact Hba|].
      eapply Forall_impl; [|exact Hb]. intros c Hc. unfold by_amount, ge in *.
      eapply leb_trans; eassumption.
Qed.

Lemma sort_sorted (l : list Reports.CategorySpending) :
  Forall (fun x => finite_number (Reports.cs_amount x)) l ->
  StronglySorted by_amount (Reports.sort l).
Proof.
  induction l as [|a l IH]; intros H; [constructor|].
  inversion H as [|? ? Ha Hl]; subst. cbn [Reports.sort fold_right].
  apply insert_sorted_sorted; [exact Ha | | now apply IH].
  rewrite (sort_perm l). exact Hl.
Qed.

(** [Object.keys] goes through every property once. *)
Lemma insert_index_perm {V} (n : Z) (e : string * V) (l : list (string * V)) :
  Permutation (Reports.insert_index n e l) (e :: l).
Proof.
  induction l as [|e' l IH]; [reflexivity|]. cbn [Reports.insert_index].
  destruct (Reports.array_index (fst e')) as [n'|]; [|reflexivity].
  destruct (n' <? n)%Z; [|reflexivity].
  rewrite IH. apply perm_swap.
Qed.

Lemma Object_entries_perm {V} (m : list (string * V)) :
  Permutation (Reports.Object_entries m) m.
Proof.
  unfold Reports.Object_entries.
  induction m as [|e m IH]; [reflexivity|]. cbn [fold_right filter].
  unfold Reports.is_array_index at 1.
  destruct (Reports.array_index (fst e)) as [n|]; cbn [negb].
  - rewrite insert_index_perm. cbn [app]. now apply perm_skip.
  - rewrite <- Permutation_middle. now apply perm_skip.
Qed.

Example Object_entries_order :
  map fst (Reports.Object_entries [("Food", 1); ("10", 2); ("7", 3); ("007", 4)])
  = ["7"; "10"; "Food"; "007"].
Proof. reflexivity. Qed.

(** When the total of every category is a finite number, the breakdown
    is in the order of the amounts, the largest first, and it lists the
    categories of [categoryMap], each once. *)
Theorem breakdown_largest_first (transactions : list Reports.ReportTransaction) :
  let categoryMap := Reports.categoryMap_of transactions in
  let breakdown := Reports.categorySpending (Reports.fetchReportData transactions) in
  Forall (fun e => finite_number (Reports.ct_amount (snd e))) categoryMap ->
  StronglySorted by_amount breakdown
  /\ Permutation (map (fun c => (Reports.cs_category c, Reports.cs_amount c)) breakdown)
       (map (fun e => (fst e, Reports.ct_amount (snd e))) categoryMap).
Proof.
  cbv zeta. intros H. unfold Reports.fetchReportData. cbn [Reports.categorySpending].
  unfold Reports.categoryArray_of. split.
  - apply sort_sorted. rewrite Forall_map.
    apply (Permutation_Forall (Permutation_sym (Object_entries_perm _))).
    eapply Forall_impl; [|exact H]. now intros [k e].
  - rewrite (sort_perm _), map_map.
    rewrite <- (Permutation_map _ (Object_entries_perm (Reports.categoryMap_of transactions))).
    apply Permutation_refl'. apply map_ext. now intros [k e].
Qed.

Lemma breakdown_largest_first_witness :
  StronglySorted by_amount
    (Reports.categorySpending
       (Reports.fetchReportData
          Cases.expenses)).
Proof.
  apply (breakdown_largest_first Cases.expenses).
  repeat constructor; unfold finite_number; vm_compute; discriminate.
Defined.

(** ** The card of a budget, whatever its ceiling *)

Section Shapes.

Local Open Scope Z_scope.

Lemma SFdiv_shaped (sx : bool) (mx : positive) (ex : Z) (sy : bool) (my : positive) (ey : Z) :
  shaped (xorb sx sy)
    (SFdiv prec emax (S754_finite sx mx ex) (S754_finite sy my ey)).
Proof.
  cbn [SFdiv].
  destruct (SFdiv_core_binary prec emax (Zpos mx) ex (Zpos my) ey) as [[mz ez] lz] eqn:E.
  assert (Hmz : 0 <= mz).
  { unfold SFdiv_core_binary in E.
    set (m' := match ex - ey - _ with Z.pos _ => _ | 0 => _ | Z.neg _ => _ end) in E.
    assert (Hm' : 0 <= m').
    { subst m'. destruct (ex - ey - _) as [|k|k]; try lia.
      rewrite Z.shiftl_mul_pow2 by lia.
      apply Z.mul_nonneg_nonneg; [lia | apply Z.pow_nonneg; lia]. }
    pose proof (Z.div_pos m' (Zpos my) Hm' ltac:(lia)) as Hq. unfold Z.div in Hq.
    destruct (Z.div_eucl m' (Zpos my)) as [q r]. now injection E as <- _ _. }
  exact (binary_round_aux_sign (xorb sx sy) mz ez lz Hmz).
Qed.

Lemma SFmul_shaped (s : bool) (x : spec_float) (m : positive) (e : Z) :
  shaped s x -> shaped s (SFmul prec emax x (S754_finite false m e)).
Proof.
  destruct x as [sx|sx| |sx mx ex]; cbn [shaped SFmul]; intros H; try contradiction;
    subst s; try (now rewrite xorb_false_r).
  rewrite xorb_false_r.
  exact (binary_round_aux_sign sx (Zpos (mx * m)) (ex + e) loc_Exact (Pos2Z.is_nonneg _)).
Qed.

End Shapes.

Lemma Math_min_number (x y : number) :
  isNaN x = false -> isNaN y = false -> isNaN (Math_min x y) = false.
Proof.
  unfold isNaN, Math_min. intros Hx Hy. rewrite Hx, Hy. cbn [orb].
  destruct (PrimFloat.ltb x y); [exact Hx|].
  destruct (PrimFloat.ltb y x); [exact Hy|].
  now destruct (get_sign x).
Qed.

Lemma spent_of_number (transactions : option (list number)) :
  isNaN (Budgets.spent_of transactions) = false.
Proof.
  unfold Budgets.spent_of, or_else, truthy, isNaN.
  destruct transactions as [l|]; [|reflexivity].
  set (total := fold_left (fun sum a => sum + a) l 0).
  destruct (PrimFloat.is_nan total) eqn:E; [reflexivity|].
  cbn [orb]. destruct (PrimFloat.is_zero total); [reflexivity | exact E].
Qed.

(** The ratio of a number to a finite positive ceiling is a number. *)
Lemma ratio_number (spent amount : number) :
  finite_positive amount -> isNaN spent = false ->
  isNaN (spent / amount * 100) = false.
Proof.
  unfold finite_positive, gt, isNaN. intros [H0 Hf] Hs.
  apply is_nan_false. apply is_nan_false in Hs. revert H0 Hf.
  rewrite !FloatAxioms.ltb_spec, FloatAxioms.mul_spec, FloatAxioms.div_spec.
  change (Prim2SF 0) with (S754_zero false).
  change (Prim2SF infinity) with (S754_infinity false).
  change (Prim2SF 100) with (S754_finite false 7036874417766400 (-46)).
  unfold SF64mul, SF64div.
  destruct (Prim2SF amount) as [sa|sa| |sa ma ea]; try discriminate;
    destruct sa; try discriminate. intros _ _.
  destruct (Prim2SF spent) as [ss|ss| |ss ms es]; try contradiction; try discriminate.
  pose proof (SFmul_shaped _ _ 7036874417766400 (-46)%Z (SFdiv_shaped ss ms es false ma ea))
    as H.
  intros E. rewrite E in H. exact H.
Qed.

(** Whatever was fetched for a budget whose ceiling is finite and
    positive, the amount spent and the percentage of its card are
    numbers, and the percentage is at most 100. *)
Theorem card_shows_a_number (transactions : option (list number)) (amount : number) :
  finite_positive amount ->
  let spent := Budgets.spent_of transactions in
  let percentage := Budgets.getProgressPercentage spent amount in
  isNaN spent = false /\ isNaN percentage = false /\ le percentage 100 = true.
Proof.
  intros Ha. cbv zeta. pose proof (spent_of_number transactions) as Hs.
  assert (Hp : isNaN (Budgets.getProgressPercentage (Budgets.spent_of transactions) amount)
               = false).
  { unfold Budgets.getProgressPercentage.
    apply Math_min_number; [now apply ratio_number | reflexivity]. }
  split; [exact Hs|]. split; [exact Hp|].
  unfold Budgets.getProgressPercentage in *. now apply Math_min_le.
Qed.

Lemma card_shows_a_number_witness :
  isNaN (Budgets.spent_of (Some [120; 60])) = false
  /\ isNaN (Budgets.getProgressPercentage (Budgets.spent_of (Some [120; 60])) 200) = false
  /\ le (Budgets.getProgressPercentage (Budgets.spent_of (Some [120; 60])) 200) 100 = true.
Proof.
  apply (card_shows_a_number (Some [120; 60]) 200). split; reflexivity.
Defined.

Lemma status_ok_iff (spent amount : number) :
  Budgets.status spent amount = Budgets.ok <-> ge (spent / amount * 100) 80 = false.
Proof.
  unfold Budgets.status, Budgets.getProgressPercentage.
  destruct (status_of_cases (Math_min (spent / amount * 100) 100)) as (_ & _ & Ho).
  now rewrite (ge_Math_min _ 100 80) in Ho by reflexivity.
Qed.

(** A ceiling that is not positive. With a ceiling of zero the card is
    exceeded, at 100, as soon as something is spent, and its percentage
    is NaN when nothing is; with a negative ceiling the card stays ok
    whatever is spent. *)
Theorem ceiling_not_positive (spent amount : number) :
  (amount = 0 -> gt spent 0 = true ->
   Budgets.getProgressPercentage spent amount = 100
   /\ Budgets.status spent amount = Budgets.exceeded)
  /\ (amount = 0 -> PrimFloat.is_zero spent = true ->
      isNaN (Budgets.getProgressPercentage spent amount) = true
      /\ Budgets.status spent amount = Budgets.ok)
  /\ (finite_negative amount -> ge spent 0 = true ->
      Budgets.status spent amount = Budgets.ok).
Proof.
  split; [|split].
  - intros -> H. unfold gt in H. rewrite FloatAxioms.ltb_spec in H.
    change (Prim2SF 0) with (S754_zero false) in H.
    assert (E : spent / 0 * 100 = infinity).
    { apply Prim2SF_inj. rewrite FloatAxioms.mul_spec, FloatAxioms.div_spec.
      change (Prim2SF 0) with (S754_zero false).
      now destruct (Prim2SF spent) as [s|[|]| |[|] m e]. }
    unfold Budgets.status, Budgets.getProgressPercentage. rewrite E. split; reflexivity.
  - intros -> H. unfold PrimFloat.is_zero in H. rewrite FloatAxioms.eqb_spec in H.
    change (Prim2SF PrimFloat.zero) with (S754_zero false) in H.
    assert (E : spent / 0 * 100 = PrimFloat.nan).
    { apply Prim2SF_inj. rewrite FloatAxioms.mul_spec, FloatAxioms.div_spec.
      change (Prim2SF 0) with (S754_zero false).
      now destruct (Prim2SF spent) as [s|[|]| |[|] m e]. }
    unfold Budgets.status, Budgets.getProgressPercentage. rewrite E. split; reflexivity.
  - intros [Hneg Hfin] H. apply status_ok_iff. unfold ge, gt in *.
    revert Hneg Hfin H.
    rewrite !FloatAxioms.ltb_spec, !FloatAxioms.leb_spec, FloatAxioms.mul_spec,
      FloatAxioms.div_spec.
    change (Prim2SF 0) with (S754_zero false).
    change (Prim2SF neg_infinity) with (S754_infinity true).
    change (Prim2SF 100) with (S754_finite false 7036874417766400 (-46)).
    change (Prim2SF 80) with (S754_finite false 5629499534213120 (-46)).
    unfold SF64mul, SF64div.
    destruct (Prim2SF amount) as [sa|sa| |sa ma ea]; try discriminate;
      destruct sa; try discriminate. intros _ _.
    destruct (Prim2SF spent) as [ss|[|]| |[|] ms es]; try discriminate; intros _.
    + now destruct ss.
    + reflexivity.
    + pose proof (SFmul_shaped _ _ 7036874417766400 (-46)%Z
                    (SFdiv_shaped false ms es true ma ea)) as Hs.
      cbn [xorb] in Hs.
      set (r := SFmul prec emax
                  (SFdiv prec emax (S754_finite false ms es) (S754_finite true ma ea))
                  (S754_finite false 7036874417766400 (-46))) in *.
      destruct r as [s|s| |s m e]; try contradiction; cbn [shaped] in Hs; subst s;
        reflexivity.
Qed.

(** ** From the form to the list *)

(** A transaction created from the form is on the list the next time it
    is fetched, under a new id and with the description, the type and the
    date of the form and the amount parsed from it. The list is the one
    there was with the new transaction put in: after the transactions of
    a later date, before those of its own date and of earlier ones. *)
Theorem created_is_listed (f : AddTransaction.Form) (account : AddTransaction.Account)
    (w : World) :
  AddTransaction.f_selectedAccount f = Some account ->
  accepted f ->
  AddTransaction.date_shape (AddTransaction.f_date f) = true ->
  dated (transactions w) ->
  faults w = [] ->
  let before := fst (Transactions.fetchTransactions w) in
  let after := fst (Transactions.fetchTransactions (snd (AddTransaction.handleSubmit f w))) in
  exists later others,
    before = Some (later ++ others)
    /\ after = Some (later ++ listed_as (uuid_of (uuid_count w)) f :: others)
    /\ Forall (fun t => later_than (AddTransaction.f_date f) t = true) later
    /\ Forall (fun t => later_than (AddTransaction.f_date f) t = false) others.
Proof.
  intros Hacc (Ha & Hd & Hnan & Hpos) _ _ Hf.
  destruct w as [accs txs profs cats n fl lg]; cbn in Hf; subst fl.
  cbv zeta. unfold AddTransaction.handleSubmit. rewrite Hacc.
  rewrite (truthy_string_nonempty _ Ha), (truthy_string_nonempty _ Hd), Hnan, Hpos.
  cbn [negb orb]. run_remote.
  cbn [fst snd uuid_count].
  rewrite order_by_date_last.
  set (r := {| tx_id := uuid_of n |}).
  destruct (insert_by_date_place r _ (order_by_date_sorted txs))
    as (later & others & H1 & H2 & H3 & H4).
  exists (map Transactions.of_row later), (map Transactions.of_row others).
  rewrite H2, H1 at 1. rewrite !map_app. cbn [map].
  split; [reflexivity|]. split; [reflexivity|].
  rewrite !Forall_map. split; [exact H3 | exact H4].
Qed.

(** Groceries of March 1st: after the dinner of March 5th, before the
    coffee of March 1st and the taxi of February 11th. *)
Lemma created_is_listed_witness :
  exists later others,
    fst (Transactions.fetchTransactions Cases.world_three_dates) = Some (later ++ others)
    /\ fst (Transactions.fetchTransactions
              (snd (AddTransaction.handleSubmit Sample.expense_50 Cases.world_three_dates)))
       = Some (later ++ listed_as "uuid-0" Sample.expense_50 :: others)
    /\ Forall (fun t => later_than "2024-03-01" t = true) later
    /\ Forall (fun t => later_than "2024-03-01" t = false) others.
Proof.
  apply (created_is_listed Sample.expense_50 Sample.picked Cases.world_three_dates eq_refl
           (sample_accepted expense "2024-03-01") eq_refl).
  - repeat constructor.
  - reflexivity.
Defined.

Example created_between_dates :
  fst (Transactions.fetchTransactions Cases.world_three_dates)
  = Some [Cases.dinner; Cases.coffee; Cases.taxi]
  /\ fst (Transactions.fetchTransactions
            (snd (AddTransaction.handleSubmit Sample.expense_50 Cases.world_three_dates)))
     = Some [Cases.dinner; listed_as "uuid-0" Sample.expense_50; Cases.coffee; Cases.taxi].
Proof. split; reflexivity. Qed.
